(** * Terminal chatroom: the WebSocket session engine

    A shallow embedding of the connection / message / close handlers of the
    chat server (the [wss.on("connection", ...)] block and the helpers
    [broadcast], [userList] and the history push), together with the
    properties of the session registry, the history buffer and the command
    interpreter.

    JavaScript strings are sequences of UTF-16 code units; the process-wide
    [clients] map, the [chatHistory] array, the [sessions] map and the
    per-connection closure variable [registered] are threaded explicitly
    through the handlers.  A handler either completes normally, returning the
    next state and the frames it sent, or throws an exception that nothing
    catches. *)

From Stdlib Require Import String Ascii DecimalString.
From Stdlib Require Import List NArith ZArith Arith Bool Lia.
Import ListNotations.
#[local] Open Scope list_scope.

Set Implicit Arguments.

(* ------------------------------------------------------------------ *)
(** ** JavaScript strings *)

(** A UTF-16 code unit. *)
Definition char16 := N.

Definition jsstring := list char16.

(** A literal of the source text (all literals of the server are ASCII). *)
Definition lit (s : string) : jsstring :=
  map N_of_ascii (list_ascii_of_string s).

Arguments lit s%_string.

Definition DQUOTE : char16 := 34%N.
Definition SLASH : char16 := 47%N.
Definition SPACE : char16 := 32%N.

Fixpoint str_eqb (a b : jsstring) : bool :=
  match a, b with
  | [], [] => true
  | x :: a', y :: b' => N.eqb x y && str_eqb a' b'
  | _, _ => false
  end.

Definition in_range (lo hi c : N) : bool := N.leb lo c && N.leb c hi.

(** The characters kept by [/[^a-zA-Z0-9_-]/g]: letters, digits, [_], [-]. *)
Definition isNameChar (c : char16) : bool :=
  in_range 97 122 c || in_range 65 90 c || in_range 48 57 c
  || N.eqb c 95 || N.eqb c 45.

(** [s.replace(/[^a-zA-Z0-9_-]/g, "")] *)
Definition stripNonName (s : jsstring) : jsstring := filter isNameChar s.

(** [s.slice(0, n)] *)
Definition slice0 (n : nat) (s : jsstring) : jsstring := firstn n s.

Arguments slice0 : simpl never.

(** White space and line terminators, as [String.prototype.trim] sees them. *)
Definition isWhiteSpace (c : char16) : bool :=
  in_range 9 13 c || N.eqb c 32 || N.eqb c 160 || N.eqb c 5760
  || in_range 8192 8202 c || N.eqb c 8232 || N.eqb c 8233 || N.eqb c 8239
  || N.eqb c 8287 || N.eqb c 12288 || N.eqb c 65279.

Fixpoint trimStart (s : jsstring) : jsstring :=
  match s with
  | [] => []
  | c :: r => if isWhiteSpace c then trimStart r else s
  end.

Definition trimEnd (s : jsstring) : jsstring := rev (trimStart (rev s)).

(** [s.trim()] *)
Definition trim (s : jsstring) : jsstring := trimEnd (trimStart s).

(** [s.startsWith("/")] *)
Definition startsWithSlash (s : jsstring) : bool :=
  match s with
  | c :: _ => N.eqb c SLASH
  | [] => false
  end.

(** [s.split(" ")]: the pieces between single U+0020 characters. *)
Fixpoint split (s : jsstring) : list jsstring :=
  match s with
  | [] => [[]]
  | c :: r =>
      if N.eqb c SPACE then [] :: split r
      else match split r with
           | p :: ps => (c :: p) :: ps
           | [] => [[c]]
           end
  end.

(** [parts.join(sep)] *)
Fixpoint join (sep : jsstring) (parts : list jsstring) : jsstring :=
  match parts with
  | [] => []
  | [p] => p
  | p :: ps => p ++ sep ++ join sep ps
  end.

(** [a || b] on strings: the empty string is the only falsy one. *)
Definition orStr (a b : jsstring) : jsstring :=
  match a with
  | [] => b
  | _ => a
  end.

(** Decimal rendering of an array length inside a template literal. *)
Definition numberToString (n : nat) : jsstring :=
  lit (NilEmpty.string_of_uint (Nat.to_uint n)).

(** [toLowerCase] restricted to the ASCII letters; every other code unit is
    kept.  On strings made of ASCII characters, and so on every sanitized
    display name, this is [String.prototype.toLowerCase]. *)
Definition asciiLowerChar (c : char16) : char16 :=
  if in_range 65 90 c then (c + 32)%N else c.

Definition asciiToLowerCase (s : jsstring) : jsstring := map asciiLowerChar s.

(* ------------------------------------------------------------------ *)
(** ** Values produced by [JSON.parse] *)

#[local] Set Warnings "-register-all".

Inductive json : Type :=
| JNull
| JBool (b : bool)
| JNum (n : Z)            (* an integral number; only its being zero matters *)
| JStr (s : jsstring)
| JArr (items : list json)
| JObj (fields : list (jsstring * json)).

(** A JavaScript value as the handlers meet it: [None] is [undefined]. *)
Definition value := option json.

(** Completion of a handler body: normal, or an exception nobody catches. *)
Inductive completion (A : Type) : Type :=
| Normal (a : A)
| Throw.

Arguments Normal {A} a.
Arguments Throw {A}.

Definition bind {A B : Type} (c : completion A) (k : A -> completion B)
  : completion B :=
  match c with
  | Normal a => k a
  | Throw => Throw
  end.

Notation "x <- c ;; k" := (bind c (fun x => k))
  (at level 61, c at next level, right associativity).

(** Own property of a parsed object; of duplicate keys the last one wins. *)
Fixpoint ownProperty (k : jsstring) (fields : list (jsstring * json)) : value :=
  match fields with
  | [] => None
  | (k', v) :: rest =>
      match ownProperty k rest with
      | Some v' => Some v'
      | None => if str_eqb k' k then Some v else None
      end
  end.

(** [msg.k] for the keys the server reads ([type], [username], [text]):
    reading a property of [null] throws; primitives and arrays have no such
    property. *)
Definition getProp (msg : json) (k : jsstring) : completion value :=
  match msg with
  | JNull => Throw
  | JObj fields => Normal (ownProperty k fields)
  | _ => Normal None
  end.

Definition truthy (v : value) : bool :=
  match v with
  | None => false
  | Some JNull => false
  | Some (JBool b) => b
  | Some (JNum n) => negb (Z.eqb n 0)
  | Some (JStr s) => match s with [] => false | _ => true end
  | Some (JArr _) => true
  | Some (JObj _) => true
  end.

(** [a || b] *)
Definition orElse (a b : value) : value := if truthy a then a else b.

(** [v === "..."] against a string literal. *)
Definition strictEqStr (v : value) (s : jsstring) : bool :=
  match v with
  | Some (JStr x) => str_eqb x s
  | _ => false
  end.

(** The receiver of a string method call ([.replace], [.trim]): anything
    that is not a string has no such method, and calling it throws. *)
Definition stringReceiver (v : value) : completion jsstring :=
  match v with
  | Some (JStr s) => Normal s
  | _ => Throw
  end.

(* ------------------------------------------------------------------ *)
(** ** Data model *)

(** A connection handle (the [ws] object). *)
Definition conn := nat.

Record Participant : Type := { username : jsstring }.

Inductive HistoryEvent : Type :=
| SystemEv (message time : jsstring)
| ActionEv (user message time : jsstring)
| ChatEv (user text time : jsstring).

(** Server-to-client frames. *)
Inductive Frame : Type :=
| Error (message : jsstring)
| History (messages : list HistoryEvent)
| Event (e : HistoryEvent)
| Users (list_ : list jsstring)
| Clear.

Inductive Output : Type :=
| Send (ws : conn) (f : Frame)
| CloseSocket (ws : conn).

(** Insertion-ordered [Map]. *)
Section OrderedMap.
Variable V : Type.

Definition omap := list (conn * V).

Fixpoint mapGet (m : omap) (k : conn) : option V :=
  match m with
  | [] => None
  | (k', v) :: rest => if Nat.eqb k' k then Some v else mapGet rest k
  end.

Definition mapHas (m : omap) (k : conn) : bool :=
  match mapGet m k with Some _ => true | None => false end.

(** [m.set(k, v)]: an existing key keeps its place. *)
Fixpoint mapSet (m : omap) (k : conn) (v : V) : omap :=
  match m with
  | [] => [(k, v)]
  | (k', v') :: rest =>
      if Nat.eqb k' k then (k', v) :: rest else (k', v') :: mapSet rest k v
  end.

Fixpoint mapDelete (m : omap) (k : conn) : omap :=
  match m with
  | [] => []
  | (k', v') :: rest =>
      if Nat.eqb k' k then mapDelete rest k else (k', v') :: mapDelete rest k
  end.

Definition mapKeys (m : omap) : list conn := map fst m.
Definition mapValues (m : omap) : list V := map snd m.
End OrderedMap.

Record State : Type := {
  clients : omap Participant;          (* ws -> { username } *)
  chatHistory : list HistoryEvent;
  sessions : list jsstring;            (* the keys of the token map *)
  registered : omap bool               (* closure variable of each open, accepted connection *)
}.

(** What a handler reads from outside: the clock and the sockets' states. *)
Record Env : Type := {
  timestamp : jsstring;
  readyState : conn -> N
}.

Definition MAX_HISTORY : nat := 200.

Definition init : State :=
  {| clients := []; chatHistory := []; sessions := []; registered := [] |}.

(* ------------------------------------------------------------------ *)
(** ** The handlers *)

(** [chatHistory.push(e); if (chatHistory.length > MAX_HISTORY) chatHistory.shift();] *)
Definition pushHistory (h : list HistoryEvent) (e : HistoryEvent)
  : list HistoryEvent :=
  let h' := h ++ [e] in
  if Nat.ltb MAX_HISTORY (length h') then tl h' else h'.

Arguments pushHistory : simpl never.

(** [userList()] *)
Definition userList (cl : omap Participant) : list jsstring :=
  map (fun c => username c) (mapValues cl).

(** [broadcast(data, exclude)]: one send per client, in insertion order, to
    those that are not [exclude] and whose [readyState] is 1. *)
Definition broadcast (env : Env) (cl : omap Participant) (data : Frame)
  (exclude : option conn) : list Output :=
  map (fun k => Send k data)
    (filter (fun k =>
               negb (match exclude with
                     | Some x => Nat.eqb k x
                     | None => false
                     end)
               && N.eqb (readyState env k) 1)
       (mapKeys cl)).

Definition commands : list jsstring :=
  [lit "/help"; lit "/users"; lit "/me"; lit "/nick"; lit "/clear"].

Definition helpText : jsstring :=
  lit "Commands: /help, /users, /me <action>, /nick <newname>, /clear".

Definition authRequired : jsstring :=
  lit "Auth required: must connect using launcher token".

Definition withHistory (s : State) (h : list HistoryEvent) : State :=
  {| clients := clients s; chatHistory := h;
     sessions := sessions s; registered := registered s |}.

Definition withRegistered (s : State) (r : omap bool) : State :=
  {| clients := clients s; chatHistory := chatHistory s;
     sessions := sessions s; registered := r |}.

Definition withSessions (s : State) (t : list jsstring) : State :=
  {| clients := clients s; chatHistory := chatHistory s;
     sessions := t; registered := registered s |}.

(** [(msg.username || "anon").replace(/[^a-zA-Z0-9_-]/g, "").slice(0, 20) || "anon"] *)
Definition joinName (msg : json) : completion jsstring :=
  u <- getProp msg (lit "username") ;;
  requested <- stringReceiver (orElse u (Some (JStr (lit "anon")))) ;;
  Normal (orStr (slice0 20 (stripNonName requested)) (lit "anon")).

(** [(parts[1] || "").replace(/[^a-zA-Z0-9_-]/g, "").slice(0, 20)] *)
Definition nickName (parts : list jsstring) : jsstring :=
  slice0 20 (stripNonName (orStr (nth 1 parts []) [])).

(** What the outside world does to the server. *)
Inductive Input : Type :=
| Connection (ws : conn) (token : option jsstring)
| Message (ws : conn) (raw : option json)
| Close (ws : conn)
| Auth (token : jsstring).          (* [sessions.set(token, ...)] of [POST /auth] *)

(* ------------------------------------------------------------------ *)
(** ** Sample inputs *)

Definition env0 : Env :=
  {| timestamp := lit "12:00:00"; readyState := fun _ => 1%N |}.

Definition tok0 : jsstring := lit "9f3c1a".

(** [{"type":"join","username":name}] *)
Definition joinFrame (name : jsstring) : json :=
  JObj [(lit "type", JStr (lit "join")); (lit "username", JStr name)].

(** [{"type":"chat","text":text}] *)
Definition chatFrame (text : jsstring) : json :=
  JObj [(lit "type", JStr (lit "chat")); (lit "text", JStr text)].

(** Token issued, connection 1 accepted and joined as alice. *)
Definition aliceJoins : list (Env * Input) :=
  [(env0, Auth tok0);
   (env0, Connection 1 (Some tok0));
   (env0, Message 1 (Some (joinFrame (lit "alice"))))].

(** Then connection 2 accepted and joined as bob. *)
Definition bobJoins : list (Env * Input) :=
  [(env0, Connection 2 (Some tok0));
   (env0, Message 2 (Some (joinFrame (lit "bob"))))].

(** The state after [aliceJoins]. *)
Definition aliceOnline : State :=
  {| clients := [(1, {| username := lit "alice" |})];
     chatHistory := [SystemEv (lit "alice joined the room") (lit "12:00:00")];
     sessions := [tok0];
     registered := [(1, true)] |}.

(** A numbered system event, to tell the entries of a long log apart. *)
Definition tick (n : nat) : HistoryEvent :=
  SystemEv (numberToString n) (lit "12:00:00").

(** The state after [aliceJoins] and the handshake of connection 2. *)
Definition bobConnected : State :=
  {| clients := [(1, {| username := lit "alice" |})];
     chatHistory := [SystemEv (lit "alice joined the room") (lit "12:00:00")];
     sessions := [tok0];
     registered := [(1, true); (2, false)] |}.

(** The state after [aliceJoins ++ bobJoins]. *)
Definition bothOnline : State :=
  {| clients := [(1, {| username := lit "alice" |});
                 (2, {| username := lit "bob" |})];
     chatHistory := [SystemEv (lit "alice joined the room") (lit "12:00:00");
                     SystemEv (lit "bob joined the room") (lit "12:00:00")];
     sessions := [tok0];
     registered := [(1, true); (2, true)] |}.

(** A slash command followed by 500 letters: 507 characters, none of them
    white space at either end. *)
Definition longCommand : jsstring := lit "/shrug " ++ repeat 97%N 500.

(** 501 letters. *)
Definition longChat : jsstring := repeat 97%N 501.

(** [aliceJoins], then alice sends the 200 chat texts "1" to "200". *)
Definition chatBurst : list (Env * Input) :=
  aliceJoins
  ++ map (fun n => (env0, Message 1 (Some (chatFrame (numberToString n)))))
       (seq 1 200).

(* ------------------------------------------------------------------ *)
(** ** The HTTP gate: requests, responses, the account store *)

(** What the request handler reads of a request: method, url, the
    [authorization] header ([None] when absent) and what
    [JSON.parse(body || '{}')] makes of the body ([None] when it throws). *)
Record Request : Type := {
  method : jsstring;
  url : jsstring;
  authorization : option jsstring;
  body : option json
}.

Inductive Payload : Type :=
| JsonError (message : jsstring)      (* [{ error: message }] *)
| JsonOk                              (* [{ ok: true }] *)
| JsonToken (token : jsstring)        (* [{ token }] *)
| PlainText (text : jsstring)
| Html (data : jsstring).

Record Response : Type := {
  status : nat;
  contentType : option jsstring;
  payload : Payload
}.

(** What a request handler reads from outside: the clock, the salt drawn by
    [bcrypt.hashSync], the 18 bytes of [crypto.randomBytes], whether
    [fs.writeFileSync] succeeds, and what [fs.readFile] finds. *)
Record GateEnv : Type := {
  clock : jsstring;
  salt : jsstring;
  randomBytes : list Byte.byte;
  writeOk : bool;
  indexHtml : option jsstring
}.

(** The own properties of the [users] object, as [loadUsers] yields them
    for a missing or unparseable file ([{}]) or for a file holding a JSON
    object; of duplicate keys the last one counts. *)
Definition UserStore := list (jsstring * json).

(** The process state the gate works on. *)
Record Gate : Type := {
  users : UserStore;
  room : State
}.

(** The names every object inherits from [Object.prototype]. *)
Definition objectPrototypeKeys : list jsstring :=
  [lit "constructor"; lit "__defineGetter__"; lit "__defineSetter__";
   lit "hasOwnProperty"; lit "__lookupGetter__"; lit "__lookupSetter__";
   lit "isPrototypeOf"; lit "propertyIsEnumerable"; lit "toString";
   lit "valueOf"; lit "__proto__"; lit "toLocaleString"].

(** [users[name]]: an own property, a member inherited from the prototype
    (a function, or the prototype itself), or [undefined]. *)
Inductive Lookup : Type :=
| Own (v : json)
| Inherited
| Missing.

Definition usersGet (u : UserStore) (name : jsstring) : Lookup :=
  match ownProperty name u with
  | Some v => Own v
  | None =>
      if existsb (str_eqb name) objectPrototypeKeys then Inherited
      else Missing
  end.

Definition lookupTruthy (l : Lookup) : bool :=
  match l with
  | Own v => truthy (Some v)
  | Inherited => true
  | Missing => false
  end.

(** [u.passwordHash] of a truthy [users[name]]. *)
Definition passwordHashOf (l : Lookup) : completion value :=
  match l with
  | Own v => getProp v (lit "passwordHash")
  | Inherited => Normal None
  | Missing => Throw
  end.

(** [users[name] = { passwordHash: hash }] *)
Definition usersSet (u : UserStore) (name hash : jsstring) : UserStore :=
  u ++ [(name, JObj [(lit "passwordHash", JStr hash)])].

Definition isEmpty (s : jsstring) : bool :=
  match s with
  | [] => true
  | _ => false
  end.

(** [buf.toString('hex')] *)
Definition hexDigit (d : N) : char16 :=
  nth (N.to_nat d) (lit "0123456789abcdef") 0%N.

Definition hexOfByte (b : Byte.byte) : jsstring :=
  [hexDigit (Byte.to_N b / 16); hexDigit (Byte.to_N b mod 16)].

Definition toHex (bs : list Byte.byte) : jsstring := flat_map hexOfByte bs.

Definition isHexDigit (c : char16) : bool :=
  in_range 48 57 c || in_range 97 102 c.

(** The characters the dot of a regular expression does not match. *)
Definition isLineTerminator (c : char16) : bool :=
  N.eqb c 10 || N.eqb c 13 || N.eqb c 8232 || N.eqb c 8233.

(** [auth.match(/^Bearer\s+(.+)$/i)], giving [match[1]]: the word, in any
    case, then white space, then a last group without line terminators.
    The white space is taken greedily and given back only when nothing
    else is left for the group. *)
Definition bearerToken (h : jsstring) : option jsstring :=
  if str_eqb (asciiToLowerCase (firstn 6 h)) (lit "bearer") then
    match skipn 6 h with
    | [] => None
    | c :: after =>
        if isWhiteSpace c then
          match trimStart (c :: after) with
          | [] =>
              if Nat.leb 2 (length (c :: after))
                 && negb (isLineTerminator (last (c :: after) 0%N))
              then Some [last (c :: after) 0%N]
              else None
          | r0 :: rest =>
              if forallb (fun x => negb (isLineTerminator x)) (r0 :: rest)
              then Some (r0 :: rest)
              else None
          end
        else None
    end
  else None.

Definition jsonReply (st : nat) (p : Payload) : Response :=
  {| status := st; contentType := Some (lit "application/json");
     payload := p |}.

(** [res.writeHead(400); res.end('Invalid request')] *)
Definition invalidRequest : Response :=
  {| status := 400; contentType := None;
     payload := PlainText (lit "Invalid request") |}.

(** [sessions.set(token, ...)] on the keys. *)
Definition sessionsSet (ss : list jsstring) (token : jsstring)
  : list jsstring :=
  if existsb (str_eqb token) ss then ss else ss ++ [token].

(* ------------------------------------------------------------------ *)
(** ** The HTTP gate: the request handler *)

(** Library calls of the gate, taken as parameters: [toString] of a value
    that is not a string, [bcrypt.hashSync] (by password and salt),
    [bcrypt.compareSync] on two strings, [jwt.sign] (by clock and user
    name) and whether [jwt.verify] returns (by clock and token). *)
Record Libraries : Type := {
  valueToString : json -> completion jsstring;
  hashSync : jsstring -> jsstring -> jsstring;
  compareSync : jsstring -> jsstring -> bool;
  jwtSign : jsstring -> jsstring -> jsstring;
  jwtVerify : jsstring -> jsstring -> bool
}.

Section Gate.

Variable L : Libraries.

(** [v.toString()] *)
Definition toStringOf (v : value) : completion jsstring :=
  match v with
  | Some (JStr s) => Normal s
  | Some j => valueToString L j
  | None => Throw
  end.

(** [(obj.k || '').toString()] *)
Definition fieldString (obj : json) (k : jsstring) : completion jsstring :=
  v <- getProp obj k ;;
  toStringOf (orElse v (Some (JStr []))).

(** The result of a request: the next state, the response, and the store
    written to disk, if any. *)
Definition GateResult : Type := Gate * Response * option UserStore.

(** A [try { ... } catch (e) { 400 'Invalid request' }] block. *)
Definition orInvalid (g : Gate) (c : completion GateResult) : GateResult :=
  match c with
  | Normal r => r
  | Throw => (g, invalidRequest, None)
  end.

(** [POST /register] *)
Definition onRegister (g : Gate) (env : GateEnv) (req : Request)
  : GateResult :=
  orInvalid g
    (match body req with
     | None => Throw
     | Some obj =>
         u <- fieldString obj (lit "username") ;;
         password <- fieldString obj (lit "password") ;;
         let name := slice0 40 (trim u) in
         if isEmpty name || isEmpty password then
           Normal (g, jsonReply 400
                        (JsonError (lit "username and password required")),
                   None)
         else if lookupTruthy (usersGet (users g) name) then
           Normal (g, jsonReply 409 (JsonError (lit "username exists")), None)
         else
           let users' :=
             usersSet (users g) name (hashSync L password (salt env)) in
           let g' := {| users := users'; room := room g |} in
           if writeOk env then Normal (g', jsonReply 200 JsonOk, Some users')
           else Normal (g', invalidRequest, None)
     end).

(** [POST /login] *)
Definition onLogin (g : Gate) (env : GateEnv) (req : Request)
  : GateResult :=
  orInvalid g
    (match body req with
     | None => Throw
     | Some obj =>
         name <- fieldString obj (lit "username") ;;
         password <- fieldString obj (lit "password") ;;
         if isEmpty name || isEmpty password then
           Normal (g, jsonReply 400
                        (JsonError (lit "username and password required")),
                   None)
         else if negb (lookupTruthy (usersGet (users g) name)) then
           Normal (g, jsonReply 401 (JsonError (lit "invalid credentials")),
                   None)
         else
           h <- passwordHashOf (usersGet (users g) name) ;;
           (* [compareSync] throws unless the hash is a string *)
           hash <- stringReceiver h ;;
           if compareSync L password hash then
             Normal (g, jsonReply 200 (JsonToken (jwtSign L (clock env) name)),
                     None)
           else
             Normal (g, jsonReply 401
                          (JsonError (lit "invalid credentials")), None)
     end).

(** [POST /auth] *)
Definition onAuth (g : Gate) (env : GateEnv) (req : Request) : GateResult :=
  match bearerToken (match authorization req with
                     | Some h => orStr h []
                     | None => []
                     end) with
  | None => (g, jsonReply 401 (JsonError (lit "missing auth token")), None)
  | Some t =>
      if negb (jwtVerify L (clock env) t) then
        (g, jsonReply 401 (JsonError (lit "invalid auth token")), None)
      else
        orInvalid g
          (match body req with
           | None => Throw
           | Some obj =>
               pc <- fieldString obj (lit "pcName") ;;
               if isEmpty (slice0 64 pc) then
                 Normal (g, jsonReply 400
                              (JsonError (lit "pcName required")), None)
               else
                 let token := toHex (randomBytes env) in
                 Normal ({| users := users g;
                            room := withSessions (room g)
                                      (sessionsSet (sessions (room g))
                                         token) |},
                         jsonReply 200 (JsonToken token), None)
           end)
  end.

(** The callback of [http.createServer]. *)
Definition handleRequest (g : Gate) (env : GateEnv) (req : Request)
  : GateResult :=
  let post := str_eqb (method req) (lit "POST") in
  if post && str_eqb (url req) (lit "/register") then onRegister g env req
  else if post && str_eqb (url req) (lit "/login") then onLogin g env req
  else if post && str_eqb (url req) (lit "/auth") then onAuth g env req
  else if str_eqb (url req) (lit "/") || str_eqb (url req) (lit "/index.html")
  then
    match indexHtml env with
    | None =>
        (g, {| status := 500; contentType := None;
               payload := PlainText (lit "Error loading page") |}, None)
    | Some data =>
        (g, {| status := 200; contentType := Some (lit "text/html");
               payload := Html data |}, None)
    end
  else
    (g, {| status := 404; contentType := None;
           payload := PlainText (lit "Not found") |}, None).

End Gate.

(* ------------------------------------------------------------------ *)
(** ** More sample inputs *)

(** [aliceJoins], then alice says hello. *)
Definition aliceChats : list (Env * Input) :=
  aliceJoins ++ [(env0, Message 1 (Some (chatFrame (lit "hello"))))].

(** Token issued and two connections accepted, neither has joined. *)
Definition twoPending : State :=
  {| clients := [];
     chatHistory := [];
     sessions := [tok0];
     registered := [(1, false); (2, false)] |}.

(** Stand-ins for the libraries, good enough to run the gate: passwords
    are stored as they are, a signed token is the user name behind a
    marker, and a token verifies when it carries the marker. *)
Definition sampleLib : Libraries :=
  {| valueToString := fun _ => Throw;
     hashSync := fun pw _ => pw;
     compareSync := fun pw h => str_eqb pw h;
     jwtSign := fun _ name => lit "jwt:" ++ name;
     jwtVerify := fun _ t => str_eqb (firstn 4 t) (lit "jwt:") |}.

Definition gateEnv0 : GateEnv :=
  {| clock := lit "12:00:00";
     salt := lit "salt";
     randomBytes :=
       [Byte.x00; Byte.x01; Byte.x7f; Byte.x80; Byte.xff; Byte.x10;
        Byte.x2a; Byte.x3b; Byte.x4c; Byte.x5d; Byte.x6e; Byte.x9a;
        Byte.xab; Byte.xbc; Byte.xcd; Byte.xde; Byte.xef; Byte.xf0];
     writeOk := true;
     indexHtml := Some (lit "<html></html>") |}.

(** The same, with a disk that refuses the write. *)
Definition gateEnvDiskFull : GateEnv :=
  {| clock := lit "12:00:00";
     salt := lit "salt";
     randomBytes := randomBytes gateEnv0;
     writeOk := false;
     indexHtml := None |}.

Definition gate0 : Gate := {| users := []; room := init |}.

Definition authReq : Request :=
  {| method := lit "POST"; url := lit "/auth";
     authorization := Some (lit "Bearer jwt:alice");
     body := Some (JObj [(lit "pcName", JStr (lit "desk-7"))]) |}.

Definition registerReq (name password : jsstring) : Request :=
  {| method := lit "POST"; url := lit "/register";
     authorization := None;
     body := Some (JObj [(lit "username", JStr name);
                         (lit "password", JStr password)]) |}.

Definition loginReq (name password : jsstring) : Request :=
  {| method := lit "POST"; url := lit "/login";
     authorization := None;
     body := Some (JObj [(lit "username", JStr name);
                         (lit "password", JStr password)]) |}.

Section Server.

(** [String.prototype.toLowerCase]: a built-in, taken as a parameter. *)
Variable toLowerCase : jsstring -> jsstring.

(** [[...clients.values()].some((c) => c.username.toLowerCase() === name.toLowerCase())] *)
Definition taken (cl : omap Participant) (name : jsstring) : bool :=
  existsb (fun c => str_eqb (toLowerCase (username c)) (toLowerCase name))
    (mapValues cl).

(** The [join] branch of the message handler. *)
Definition onJoin (s : State) (env : Env) (ws : conn) (msg : json)
  : completion (State * list Output) :=
  name <- joinName msg ;;
  if taken (clients s) name then
    Normal (s, [Send ws (Error (lit "Username " ++ [DQUOTE] ++ name
                                  ++ [DQUOTE] ++ lit " is already taken."))])
  else
    let cl := mapSet (clients s) ws {| username := name |} in
    let joinMsg :=
      SystemEv (name ++ lit " joined the room") (timestamp env) in
    Normal
      ({| clients := cl;
          chatHistory := pushHistory (chatHistory s) joinMsg;
          sessions := sessions s;
          registered := mapSet (registered s) ws true |},
       Send ws (History (chatHistory s))
         :: broadcast env cl (Event joinMsg) None
         ++ broadcast env cl (Users (userList cl)) None).

(** The [/nick] branch. *)
Definition onNick (s : State) (env : Env) (ws : conn)
  (oldName : jsstring) (parts : list jsstring) : State * list Output :=
  let newName := nickName parts in
  match newName with
  | [] => (s, [Send ws (Error (lit "Usage: /nick <newname>"))])
  | _ =>
      if taken (clients s) newName then
        (s, [Send ws (Error ([DQUOTE] ++ newName ++ [DQUOTE]
                               ++ lit " is already taken."))])
      else
        let cl := mapSet (clients s) ws {| username := newName |} in
        let nickMsg :=
          SystemEv (oldName ++ lit " is now known as " ++ newName)
            (timestamp env) in
        ({| clients := cl;
            chatHistory := pushHistory (chatHistory s) nickMsg;
            sessions := sessions s;
            registered := registered s |},
         broadcast env cl (Event nickMsg) None
           ++ broadcast env cl (Users (userList cl)) None)
  end.

(** The block under [if (text.startsWith("/"))]. *)
Definition onCommand (s : State) (env : Env) (ws : conn)
  (name text : jsstring) : State * list Output :=
  let parts := split text in
  let cmd := toLowerCase (nth 0 parts []) in
  if str_eqb cmd (lit "/help") then
    (s, [Send ws (Event (SystemEv helpText (timestamp env)))])
  else if str_eqb cmd (lit "/users") then
    (s, [Send ws (Event (SystemEv
           (lit "Online (" ++ numberToString (length (userList (clients s)))
              ++ lit "): " ++ join (lit ", ") (userList (clients s)))
           (timestamp env)))])
  else if str_eqb cmd (lit "/me") then
    let action := orStr (join (lit " ") (tl parts)) (lit "...") in
    let actionMsg :=
      ActionEv name (name ++ lit " " ++ action) (timestamp env) in
    (withHistory s (pushHistory (chatHistory s) actionMsg),
     broadcast env (clients s) (Event actionMsg) None)
  else if str_eqb cmd (lit "/nick") then onNick s env ws name parts
  else if str_eqb cmd (lit "/clear") then (s, [Send ws Clear])
  else (s, [Send ws (Error (lit "Unknown command: " ++ cmd))]).

(** The body of [if (msg.type === "chat" && msg.text && msg.text.trim())],
    entered with the trimmed text. *)
Definition onChat (s : State) (env : Env) (ws : conn) (trimmed : jsstring)
  : completion (State * list Output) :=
  match mapGet (clients s) ws with
  | None => Throw                   (* destructuring [undefined] *)
  | Some p =>
      let text := slice0 500 trimmed in
      if startsWithSlash text then
        Normal (onCommand s env ws (username p) text)
      else
        let chatMsg := ChatEv (username p) text (timestamp env) in
        Normal (withHistory s (pushHistory (chatHistory s) chatMsg),
                broadcast env (clients s) (Event chatMsg) None)
  end.

(** [ws.on("message", (raw) => ...)]; [raw] is given by what [JSON.parse]
    makes of it, [None] when it throws. *)
Definition onMessage (s : State) (env : Env) (ws : conn) (raw : option json)
  : completion (State * list Output) :=
  match raw with
  | None => Normal (s, [])
  | Some msg =>
      ty <- getProp msg (lit "type") ;;
      if strictEqStr ty (lit "join") then onJoin s env ws msg
      else
        match mapGet (registered s) ws with
        | Some true =>
            if strictEqStr ty (lit "chat") then
              t <- getProp msg (lit "text") ;;
              if truthy t then
                trimmed <- (x <- stringReceiver t ;; Normal (trim x)) ;;
                match trimmed with
                | [] => Normal (s, [])
                | _ => onChat s env ws trimmed
                end
              else Normal (s, [])
            else Normal (s, [])
        | _ => Normal (s, [])
        end
  end.

(** [ws.on("close", () => ...)] *)
Definition onClose (s : State) (env : Env) (ws : conn)
  : completion (State * list Output) :=
  match mapGet (registered s) ws with
  | Some true =>
      match mapGet (clients s) ws with
      | None => Throw
      | Some p =>
          let cl := mapDelete (clients s) ws in
          let leaveMsg :=
            SystemEv (username p ++ lit " left the room") (timestamp env) in
          Normal
            ({| clients := cl;
                chatHistory := pushHistory (chatHistory s) leaveMsg;
                sessions := sessions s;
                registered := registered s |},
             broadcast env cl (Event leaveMsg) None
               ++ broadcast env cl (Users (userList cl)) None)
      end
  | _ => Normal (s, [])
  end.

(** [wss.on("connection", (ws, req) => ...)]; [token] is what
    [searchParams.get('token')] yields, [None] for [null]. *)
Definition onConnection (s : State) (ws : conn) (token : option jsstring)
  : State * list Output :=
  let ok :=
    match token with
    | None => false
    | Some [] => false
    | Some t => existsb (str_eqb t) (sessions s)
    end in
  if ok then (withRegistered s (mapSet (registered s) ws false), [])
  else (s, [Send ws (Error authRequired); CloseSocket ws]).

(** One dispatched callback.  A [ws] object is created once per
    connection, its listeners exist from the accepted handshake to the
    close event, and nothing is dispatched to a socket without
    listeners. *)
Definition step (s : State) (env : Env) (i : Input)
  : completion (State * list Output) :=
  match i with
  | Connection ws token =>
      if mapHas (registered s) ws then Normal (s, [])
      else Normal (onConnection s ws token)
  | Message ws raw =>
      if mapHas (registered s) ws then onMessage s env ws raw
      else Normal (s, [])
  | Close ws =>
      if mapHas (registered s) ws then
        r <- onClose s env ws ;;
        Normal (withRegistered (fst r) (mapDelete (registered (fst r)) ws),
                snd r)
      else Normal (s, [])
  | Auth token =>
      Normal (withSessions s
                (if existsb (str_eqb token) (sessions s) then sessions s
                 else sessions s ++ [token]), [])
  end.

(** A run of the event loop; it ends at the first uncaught exception. *)
Fixpoint run (s : State) (tr : list (Env * Input))
  : completion (State * list Output) :=
  match tr with
  | [] => Normal (s, [])
  | (env, i) :: rest =>
      r <- step s env i ;;
      r' <- run (fst r) rest ;;
      Normal (fst r', snd r ++ snd r')
  end.

Inductive reachable : State -> Prop :=
| reach_init : reachable init
| reach_step s env i s' out :
    reachable s -> step s env i = Normal (s', out) -> reachable s'.

(* ---------------------------------------------------------------- *)
(** ** Invariants of the reachable states *)

Definition isChat (e : HistoryEvent) : bool :=
  match e with
  | ChatEv _ _ _ => true
  | _ => false
  end.

Definition chatTextBounded (e : HistoryEvent) : Prop :=
  match e with
  | ChatEv _ t _ => length t <= 500
  | _ => True
  end.

Definition frameBounded (f : Frame) : Prop :=
  match f with
  | Event e => chatTextBounded e
  | History l => Forall chatTextBounded l
  | _ => True
  end.

Definition outputBounded (o : Output) : Prop :=
  match o with
  | Send _ f => frameBounded f
  | CloseSocket _ => True
  end.

(** The lower-cased display names, in registry order. *)
Definition loweredNames (cl : omap Participant) : list jsstring :=
  map (fun p => toLowerCase (username p)) (mapValues cl).

Record Inv (s : State) : Prop := {
  inv_names : NoDup (loweredNames (clients s));
  inv_history : length (chatHistory s) <= MAX_HISTORY;
  inv_chat : Forall chatTextBounded (chatHistory s);
  inv_active : forall ws,
      mapHas (clients s) ws = true <-> mapGet (registered s) ws = Some true;
  inv_keys : NoDup (mapKeys (clients s))
}.

(** The history frames a run sent to one connection. *)
Definition historiesSentTo (ws : conn) (out : list Output)
  : list (list HistoryEvent) :=
  flat_map (fun o => match o with
                     | Send k (History l) => if Nat.eqb k ws then [l] else []
                     | _ => []
                     end) out.

(** A client frame [{type:"chat", text: x}] (other fields are ignored). *)
Definition isChatFrame (msg : json) (x : jsstring) : Prop :=
  getProp msg (lit "type") = Normal (Some (JStr (lit "chat")))
  /\ getProp msg (lit "text") = Normal (Some (JStr x)).

(** A client frame [{type:"join", ...}]. *)
Definition isJoinFrame (msg : json) : Prop :=
  getProp msg (lit "type") = Normal (Some (JStr (lit "join"))).

(** The first white-space-delimited word of a text. *)
Fixpoint firstWord (s : jsstring) : jsstring :=
  match s with
  | [] => []
  | c :: r => if isWhiteSpace c then [] else c :: firstWord r
  end.

(** A field that is absent, falsy, or a string. *)
Definition stringOrFalsy (v : value) : Prop :=
  truthy v = false \/ exists x, v = Some (JStr x).

(** A parsed frame the handlers can digest: not [null], and with [username]
    and [text] of the expected type when present. *)
Definition wellTyped (msg : json) : Prop :=
  msg <> JNull
  /\ (forall v, getProp msg (lit "username") = Normal v -> stringOrFalsy v)
  /\ (forall v, getProp msg (lit "text") = Normal v -> stringOrFalsy v).

(** Frames that are not a chat event. *)
Definition notChatFrame (f : Frame) : Prop :=
  match f with
  | Event e => isChat e = false
  | History _ => False
  | _ => True
  end.

(** The socket a connection event opens. *)
Definition connectionOf (i : Input) : option conn :=
  match i with
  | Connection ws _ => Some ws
  | _ => None
  end.

(* ---------------------------------------------------------------- *)
(** ** Shapes of names, events and handler effects *)

(** A sanitized display name: 1 to 20 characters of [[A-Za-z0-9_-]]. *)
Definition validName (n : jsstring) : Prop :=
  n <> [] /\ length n <= 20 /\ forallb isNameChar n = true.

(** The text of a recorded chat message: at most 500 characters, the first
    of which is neither white space nor a slash. *)
Definition chatTextOk (t : jsstring) : Prop :=
  length t <= 500
  /\ exists c r, t = c :: r /\ isWhiteSpace c = false /\ N.eqb c SLASH = false.

Definition eventWF (e : HistoryEvent) : Prop :=
  match e with
  | SystemEv _ _ => True
  | ActionEv u m _ => validName u /\ exists a, a <> [] /\ m = u ++ lit " " ++ a
  | ChatEv u t _ => validName u /\ chatTextOk t
  end.

(** Frames that answer one sender: an error, the clear instruction, or a
    system text. *)
Definition replyFrame (f : Frame) : Prop :=
  match f with
  | Error _ => True
  | Clear => True
  | Event (SystemEv _ _) => True
  | _ => False
  end.

(** Everything one dispatched callback can do, case by case. *)
Inductive Effect (s : State) (env : Env)
  : Input -> State -> list Output -> Prop :=
| Eff_none i : Effect s env i s []
| Eff_reject ws token :
    Effect s env (Connection ws token) s
      [Send ws (Error authRequired); CloseSocket ws]
| Eff_accept ws t :
    In t (sessions s) -> t <> [] -> mapHas (registered s) ws = false ->
    Effect s env (Connection ws (Some t))
      (withRegistered s (mapSet (registered s) ws false)) []
| Eff_auth t ss :
    (forall x, In x (sessions s) -> In x ss) -> In t ss ->
    Effect s env (Auth t) (withSessions s ss) []
| Eff_reply ws raw f :
    replyFrame f -> Effect s env (Message ws raw) s [Send ws f]
| Eff_join ws msg name :
    isJoinFrame msg ->
    joinName msg = Normal name ->
    taken (clients s) name = false ->
    Effect s env (Message ws (Some msg))
      {| clients := mapSet (clients s) ws {| username := name |};
         chatHistory :=
           pushHistory (chatHistory s)
             (SystemEv (name ++ lit " joined the room") (timestamp env));
         sessions := sessions s;
         registered := mapSet (registered s) ws true |}
      (Send ws (History (chatHistory s))
         :: broadcast env (mapSet (clients s) ws {| username := name |})
              (Event (SystemEv (name ++ lit " joined the room")
                        (timestamp env))) None
         ++ broadcast env (mapSet (clients s) ws {| username := name |})
              (Users (userList
                        (mapSet (clients s) ws {| username := name |})))
              None)
| Eff_me ws raw p action :
    mapGet (registered s) ws = Some true ->
    mapGet (clients s) ws = Some p -> action <> [] ->
    Effect s env (Message ws raw)
      (withHistory s
         (pushHistory (chatHistory s)
            (ActionEv (username p) (username p ++ lit " " ++ action)
               (timestamp env))))
      (broadcast env (clients s)
         (Event (ActionEv (username p) (username p ++ lit " " ++ action)
                   (timestamp env))) None)
| Eff_nick ws raw p parts :
    mapGet (registered s) ws = Some true ->
    mapGet (clients s) ws = Some p ->
    nickName parts <> [] ->
    taken (clients s) (nickName parts) = false ->
    Effect s env (Message ws raw)
      {| clients := mapSet (clients s) ws {| username := nickName parts |};
         chatHistory :=
           pushHistory (chatHistory s)
             (SystemEv (username p ++ lit " is now known as "
                          ++ nickName parts) (timestamp env));
         sessions := sessions s;
         registered := registered s |}
      (broadcast env (mapSet (clients s) ws {| username := nickName parts |})
         (Event (SystemEv (username p ++ lit " is now known as "
                             ++ nickName parts) (timestamp env))) None
       ++ broadcast env
            (mapSet (clients s) ws {| username := nickName parts |})
            (Users (userList
                      (mapSet (clients s) ws
                         {| username := nickName parts |}))) None)
| Eff_chat ws raw p x :
    mapGet (registered s) ws = Some true ->
    mapGet (clients s) ws = Some p ->
    trim x <> [] -> startsWithSlash (trim x) = false ->
    Effect s env (Message ws raw)
      (withHistory s
         (pushHistory (chatHistory s)
            (ChatEv (username p) (slice0 500 (trim x)) (timestamp env))))
      (broadcast env (clients s)
         (Event (ChatEv (username p) (slice0 500 (trim x)) (timestamp env)))
         None)
| Eff_close ws p :
    mapGet (registered s) ws = Some true ->
    mapGet (clients s) ws = Some p ->
    Effect s env (Close ws)
      {| clients := mapDelete (clients s) ws;
         chatHistory :=
           pushHistory (chatHistory s)
             (SystemEv (username p ++ lit " left the room") (timestamp env));
         sessions := sessions s;
         registered := mapDelete (registered s) ws |}
      (broadcast env (mapDelete (clients s) ws)
         (Event (SystemEv (username p ++ lit " left the room")
                   (timestamp env))) None
       ++ broadcast env (mapDelete (clients s) ws)
            (Users (userList (mapDelete (clients s) ws))) None)
| Eff_close_pending ws :
    mapGet (registered s) ws <> Some true ->
    Effect s env (Close ws)
      (withRegistered s (mapDelete (registered s) ws)) [].

(** Registered names are sanitized names, recorded events are well formed. *)
Definition WF (s : State) : Prop :=
  (forall ws p, In (ws, p) (clients s) -> validName (username p))
  /\ Forall eventWF (chatHistory s).

(* ---------------------------------------------------------------- *)
(** ** The log of appended events *)

(** The five appending operations (join announcement, leave announcement,
    rename announcement, [/me] action, plain chat): the event, if any, that
    a callback which completes appends to the history.  These definitions
    read the frame, the registry and the connection flags only; they never
    look at the buffer, so that what the buffer holds can be compared with
    them. *)

(** The join announcement of a join frame whose requested name is free. *)
Definition joinAnnouncement (s : State) (env : Env) (msg : json)
  : option HistoryEvent :=
  match joinName msg with
  | Normal name =>
      if taken (clients s) name then None
      else Some (SystemEv (name ++ lit " joined the room") (timestamp env))
  | Throw => None
  end.

(** The [/me] action, or the rename announcement of a [/nick] with a usable
    and free new name; no other command appends. *)
Definition commandEvent (s : State) (env : Env) (p : Participant)
  (text : jsstring) : option HistoryEvent :=
  let parts := split text in
  let cmd := toLowerCase (nth 0 parts []) in
  if str_eqb cmd (lit "/me") then
    Some (ActionEv (username p)
            (username p ++ lit " "
               ++ orStr (join (lit " ") (tl parts)) (lit "..."))
            (timestamp env))
  else if str_eqb cmd (lit "/nick") then
    match nickName parts with
    | [] => None
    | _ =>
        if taken (clients s) (nickName parts) then None
        else Some (SystemEv (username p ++ lit " is now known as "
                               ++ nickName parts) (timestamp env))
    end
  else None.

(** What a chat frame with text [x] from participant [p] appends: a command
    event when the text starts with a slash, a chat event otherwise, nothing
    when the text is blank. *)
Definition chatEvent (s : State) (env : Env) (p : Participant)
  (x : jsstring) : option HistoryEvent :=
  match trim x with
  | [] => None
  | _ =>
      if startsWithSlash (slice0 500 (trim x)) then
        commandEvent s env p (slice0 500 (trim x))
      else Some (ChatEv (username p) (slice0 500 (trim x)) (timestamp env))
  end.

(** The event one callback appends. *)
Definition appendedEvent (s : State) (env : Env) (i : Input)
  : option HistoryEvent :=
  match i with
  | Message ws (Some msg) =>
      if mapHas (registered s) ws then
        match getProp msg (lit "type") with
        | Normal ty =>
            if strictEqStr ty (lit "join") then joinAnnouncement s env msg
            else if strictEqStr ty (lit "chat") then
              match mapGet (registered s) ws, mapGet (clients s) ws,
                    getProp msg (lit "text") with
              | Some true, Some p, Normal (Some (JStr x)) =>
                  chatEvent s env p x
              | _, _, _ => None
              end
            else None
        | Throw => None
        end
      else None
  | Close ws =>
      match mapGet (registered s) ws, mapGet (clients s) ws with
      | Some true, Some p =>
          Some (SystemEv (username p ++ lit " left the room")
                  (timestamp env))
      | _, _ => None
      end
  | _ => None
  end.

(** The events a run appends, in order. *)
Fixpoint appendLog (s : State) (tr : list (Env * Input))
  : list HistoryEvent :=
  match tr with
  | [] => []
  | (env, i) :: rest =>
      match step s env i with
      | Normal r =>
          match appendedEvent s env i with
          | Some e => e :: appendLog (fst r) rest
          | None => appendLog (fst r) rest
          end
      | Throw => []
      end
  end.

(* ---------------------------------------------------------------- *)
(** ** Strings *)

Lemma str_eqb_eq (a b : jsstring) : str_eqb a b = true <-> a = b.
Proof.
  revert b; induction a as [|x a IH]; intros [|y b]; simpl;
    try (split; congruence).
  rewrite andb_true_iff, N.eqb_eq, IH.
  split; [intros [-> ->]; reflexivity | intros H; inversion H; auto].
Qed.

Lemma str_eqb_refl (a : jsstring) : str_eqb a a = true.
Proof. apply str_eqb_eq; reflexivity. Qed.

Lemma str_eqb_neq (a b : jsstring) : str_eqb a b = false <-> a <> b.
Proof.
  rewrite <- str_eqb_eq. destruct (str_eqb a b); split; congruence.
Qed.

Lemma existsb_str_eqb (t : jsstring) (l : list jsstring) :
  existsb (str_eqb t) l = true <-> In t l.
Proof.
  rewrite existsb_exists. split.
  - intros [x [Hin Heq]]. apply str_eqb_eq in Heq. subst; assumption.
  - intros Hin. exists t. split; [assumption | apply str_eqb_refl].
Qed.

Lemma slice0_length (n : nat) (s : jsstring) : length (slice0 n s) <= n.
Proof. unfold slice0. apply firstn_le_length. Qed.

(* ---------------------------------------------------------------- *)
(** ** The insertion-ordered map *)

Section MapFacts.
Variable V : Type.
Implicit Types (m : omap V) (k : conn) (v : V).

Lemma mapGet_In m k v : mapGet m k = Some v -> In (k, v) m.
Proof.
  induction m as [|[k' v'] m IH]; simpl; [discriminate|].
  destruct (Nat.eqb_spec k' k) as [->|Hne].
  - intros [= ->]. left; reflexivity.
  - intros H. right. auto.
Qed.

Lemma mapGet_keys m k : mapGet m k <> None <-> In k (mapKeys m).
Proof.
  induction m as [|[k' v'] m IH]; simpl; [tauto|].
  destruct (Nat.eqb_spec k' k) as [->|Hne].
  - split; [auto | congruence].
  - rewrite IH. split; [auto | intros [?|?]; [contradiction | assumption]].
Qed.

Lemma mapHas_keys m k : mapHas m k = true <-> In k (mapKeys m).
Proof.
  rewrite <- mapGet_keys. unfold mapHas.
  destruct (mapGet m k); split; congruence.
Qed.

Lemma mapHas_false m k : mapHas m k = false <-> mapGet m k = None.
Proof. unfold mapHas. destruct (mapGet m k); split; congruence. Qed.

Lemma mapGet_mapSet_same m k v : mapGet (mapSet m k v) k = Some v.
Proof.
  induction m as [|[k' v'] m IH]; simpl.
  - rewrite Nat.eqb_refl. reflexivity.
  - destruct (Nat.eqb_spec k' k) as [->|Hne]; simpl.
    + rewrite Nat.eqb_refl. reflexivity.
    + destruct (Nat.eqb_spec k' k); [contradiction | assumption].
Qed.

Lemma mapGet_mapSet_other m k k' v :
  k' <> k -> mapGet (mapSet m k v) k' = mapGet m k'.
Proof.
  intros Hne. induction m as [|[k0 v0] m IH]; simpl.
  - destruct (Nat.eqb_spec k k'); [congruence | reflexivity].
  - destruct (Nat.eqb_spec k0 k) as [->|Hne0]; simpl.
    + destruct (Nat.eqb_spec k k'); [congruence | reflexivity].
    + destruct (Nat.eqb_spec k0 k'); [reflexivity | assumption].
Qed.

Lemma mapGet_mapDelete_same m k : mapGet (mapDelete m k) k = None.
Proof.
  induction m as [|[k' v'] m IH]; simpl; [reflexivity|].
  destruct (Nat.eqb_spec k' k) as [->|Hne]; simpl; [assumption|].
  destruct (Nat.eqb_spec k' k); [contradiction | assumption].
Qed.

Lemma mapGet_mapDelete_other m k k' :
  k' <> k -> mapGet (mapDelete m k) k' = mapGet m k'.
Proof.
  intros Hne. induction m as [|[k0 v0] m IH]; simpl; [reflexivity|].
  destruct (Nat.eqb_spec k0 k) as [->|Hne0]; simpl.
  - destruct (Nat.eqb_spec k k'); [congruence | assumption].
  - destruct (Nat.eqb_spec k0 k'); [reflexivity | assumption].
Qed.

Lemma In_mapSet m k v k' v' :
  In (k', v') (mapSet m k v) -> (k', v') = (k, v) \/ In (k', v') m.
Proof.
  induction m as [|[k0 v0] m IH]; simpl.
  - intros [H|[]]. left; congruence.
  - destruct (Nat.eqb_spec k0 k) as [->|Hne]; simpl.
    + intros [H|H]; [left; congruence | right; right; assumption].
    + intros [H|H]; [right; left; assumption|].
      destruct (IH H); [left | right; right]; assumption.
Qed.

Lemma In_mapValues_mapSet m k v x :
  In x (mapValues (mapSet m k v)) -> x = v \/ In x (mapValues m).
Proof.
  unfold mapValues. rewrite !in_map_iff.
  intros [[k' v'] [<- Hin]]. simpl.
  destruct (In_mapSet _ _ _ _ _ Hin) as [H|H].
  - left. congruence.
  - right. exists (k', v'). split; [reflexivity | assumption].
Qed.

Lemma In_mapDelete m k k' v' :
  In (k', v') (mapDelete m k) -> In (k', v') m.
Proof.
  induction m as [|[k0 v0] m IH]; simpl; [tauto|].
  destruct (Nat.eqb_spec k0 k) as [->|Hne]; simpl.
  - intros H. right. auto.
  - intros [H|H]; [left | right]; auto.
Qed.

Lemma In_mapValues_mapDelete m k x :
  In x (mapValues (mapDelete m k)) -> In x (mapValues m).
Proof.
  unfold mapValues. rewrite !in_map_iff.
  intros [[k' v'] [<- Hin]]. exists (k', v').
  split; [reflexivity | eapply In_mapDelete; eassumption].
Qed.

(** Injectivity of a view [f] of the values survives [set] with a value
    whose view is new. *)
Lemma NoDup_view_mapSet (W : Type) (f : V -> W) m k v :
  NoDup (map f (mapValues m)) ->
  ~ In (f v) (map f (mapValues m)) ->
  NoDup (map f (mapValues (mapSet m k v))).
Proof.
  induction m as [|[k0 v0] m IH]; simpl; intros Hnd Hnew.
  - constructor; [intros [] | constructor].
  - inversion Hnd as [|? ? Hhd Htl]; subst.
    destruct (Nat.eqb_spec k0 k) as [->|Hne]; simpl.
    + constructor; [tauto | assumption].
    + constructor.
      * rewrite in_map_iff. intros [x [Hfx Hin]].
        apply In_mapValues_mapSet in Hin. destruct Hin as [->|Hin].
        -- apply Hnew. left. congruence.
        -- apply Hhd. rewrite <- Hfx. apply in_map. assumption.
      * apply IH; [assumption | tauto].
Qed.

Lemma NoDup_view_mapDelete (W : Type) (f : V -> W) m k :
  NoDup (map f (mapValues m)) ->
  NoDup (map f (mapValues (mapDelete m k))).
Proof.
  induction m as [|[k0 v0] m IH]; simpl; intros Hnd; [constructor|].
  inversion Hnd as [|? ? Hhd Htl]; subst.
  destruct (Nat.eqb_spec k0 k) as [->|Hne]; simpl; [auto|].
  constructor; [|auto].
  rewrite in_map_iff. intros [x [Hfx Hin]].
  apply In_mapValues_mapDelete in Hin.
  apply Hhd. rewrite <- Hfx. apply in_map. assumption.
Qed.

(** Two entries under different keys have different views. *)
Lemma NoDup_view_distinct (W : Type) (f : V -> W) m k1 k2 v1 v2 :
  NoDup (map f (mapValues m)) ->
  In (k1, v1) m -> In (k2, v2) m -> k1 <> k2 -> f v1 <> f v2.
Proof.
  induction m as [|[k0 v0] m IH]; simpl; intros Hnd H1 H2 Hne; [tauto|].
  inversion Hnd as [|? ? Hhd Htl]; subst.
  destruct H1 as [H1|H1], H2 as [H2|H2].
  - congruence.
  - inversion H1; subst. intros Heq. apply Hhd. rewrite Heq.
    apply in_map. change v2 with (snd (k2, v2)). apply in_map. assumption.
  - inversion H2; subst. intros Heq. apply Hhd. rewrite <- Heq.
    apply in_map. change v1 with (snd (k1, v1)). apply in_map. assumption.
  - auto.
Qed.
Lemma In_mapKeys_mapSet m k v k' :
  In k' (mapKeys (mapSet m k v)) -> k' = k \/ In k' (mapKeys m).
Proof.
  unfold mapKeys. rewrite !in_map_iff. intros [[k0 v0] [<- Hin]]. simpl.
  destruct (In_mapSet _ _ _ _ _ Hin) as [H|H].
  - left. congruence.
  - right. exists (k0, v0). split; [reflexivity | assumption].
Qed.

Lemma NoDup_mapKeys_mapSet m k v :
  NoDup (mapKeys m) -> NoDup (mapKeys (mapSet m k v)).
Proof.
  induction m as [|[k0 v0] m IH]; simpl; intros Hnd.
  - constructor; [intros [] | constructor].
  - inversion Hnd as [|? ? Hhd Htl]; subst.
    destruct (Nat.eqb_spec k0 k) as [->|Hne]; simpl.
    + constructor; assumption.
    + constructor; [|auto].
      intros Hin. apply In_mapKeys_mapSet in Hin.
      destruct Hin as [->|Hin]; [congruence | contradiction].
Qed.

Lemma In_mapKeys_mapDelete m k k' :
  In k' (mapKeys (mapDelete m k)) -> In k' (mapKeys m).
Proof.
  unfold mapKeys. rewrite !in_map_iff. intros [[k0 v0] [<- Hin]].
  exists (k0, v0). split; [reflexivity | eapply In_mapDelete; eassumption].
Qed.

Lemma NoDup_mapKeys_mapDelete m k :
  NoDup (mapKeys m) -> NoDup (mapKeys (mapDelete m k)).
Proof.
  induction m as [|[k0 v0] m IH]; simpl; intros Hnd; [constructor|].
  inversion Hnd as [|? ? Hhd Htl]; subst.
  destruct (Nat.eqb_spec k0 k) as [->|Hne]; simpl; [auto|].
  constructor; [|auto].
  intros Hin. apply In_mapKeys_mapDelete in Hin. contradiction.
Qed.

(** With unique keys an entry is what a lookup finds. *)
Lemma In_mapGet m k v :
  NoDup (mapKeys m) -> In (k, v) m -> mapGet m k = Some v.
Proof.
  induction m as [|[k0 v0] m IH]; simpl; intros Hnd Hin; [tauto|].
  inversion Hnd as [|? ? Hhd Htl]; subst.
  destruct (Nat.eqb_spec k0 k) as [->|Hne].
  - destruct Hin as [Hin|Hin]; [congruence|].
    exfalso. apply Hhd. change k with (fst (k, v)). apply in_map. assumption.
  - destruct Hin as [Hin|Hin]; [congruence | auto].
Qed.
End MapFacts.

(* ---------------------------------------------------------------- *)
(** ** The history buffer *)

Lemma pushHistory_room (h : list HistoryEvent) (e : HistoryEvent) :
  length h < MAX_HISTORY -> pushHistory h e = h ++ [e].
Proof.
  intros Hlt. unfold pushHistory.
  destruct (Nat.ltb_spec MAX_HISTORY (length (h ++ [e]))) as [H|H];
    [|reflexivity].
  rewrite length_app in H. simpl in H. lia.
Qed.

Lemma pushHistory_full (h : list HistoryEvent) (e : HistoryEvent) :
  length h = MAX_HISTORY -> pushHistory h e = tl h ++ [e].
Proof.
  intros Hlen. unfold pushHistory.
  destruct (Nat.ltb_spec MAX_HISTORY (length (h ++ [e]))) as [H|H].
  - destruct h as [|x h]; [discriminate Hlen | reflexivity].
  - rewrite length_app in H. simpl in H. lia.
Qed.

Lemma pushHistory_length (h : list HistoryEvent) (e : HistoryEvent) :
  length h <= MAX_HISTORY -> length (pushHistory h e) <= MAX_HISTORY.
Proof.
  intros Hle. destruct (Nat.eq_dec (length h) MAX_HISTORY) as [Heq|Hne].
  - rewrite pushHistory_full by assumption.
    rewrite length_app. simpl.
    destruct h as [|x h]; [discriminate Heq|]. simpl in *. lia.
  - rewrite pushHistory_room by lia. rewrite length_app. simpl. lia.
Qed.

Lemma pushHistory_skipn (h : list HistoryEvent) (e : HistoryEvent) :
  length h <= MAX_HISTORY ->
  pushHistory h e = skipn (length (h ++ [e]) - MAX_HISTORY) (h ++ [e]).
Proof.
  intros Hle. rewrite length_app. simpl length.
  destruct (Nat.eq_dec (length h) MAX_HISTORY) as [Heq|Hne].
  - rewrite pushHistory_full by assumption.
    replace (length h + 1 - MAX_HISTORY) with 1 by lia.
    destruct h as [|x h]; [discriminate Heq | reflexivity].
  - rewrite pushHistory_room by lia.
    replace (length h + 1 - MAX_HISTORY) with 0 by lia. reflexivity.
Qed.

Lemma In_pushHistory (h : list HistoryEvent) (e x : HistoryEvent) :
  In x (pushHistory h e) -> x = e \/ In x h.
Proof.
  unfold pushHistory.
  destruct (Nat.ltb MAX_HISTORY (length (h ++ [e]))); intros Hin.
  - destruct h as [|y h]; simpl in Hin; [tauto|].
    apply in_app_or in Hin. destruct Hin as [Hin|[Hin|[]]].
    + right; right; assumption.
    + left; congruence.
  - apply in_app_or in Hin. destruct Hin as [Hin|[Hin|[]]];
      [right; assumption | left; congruence].
Qed.

(** Appending a whole list of events keeps the newest [MAX_HISTORY]. *)
Lemma fold_pushHistory (es h : list HistoryEvent) :
  length h <= MAX_HISTORY ->
  fold_left pushHistory es h
  = skipn (length (h ++ es) - MAX_HISTORY) (h ++ es).
Proof.
  revert h; induction es as [|e es IH]; intros h Hle; simpl.
  - rewrite app_nil_r. replace (length h - MAX_HISTORY) with 0 by lia.
    reflexivity.
  - rewrite IH by (apply pushHistory_length; assumption).
    rewrite pushHistory_skipn by assumption.
    set (d := length (h ++ [e]) - MAX_HISTORY).
    assert (Hd : d <= length (h ++ [e])) by (unfold d; lia).
    replace (h ++ e :: es) with ((h ++ [e]) ++ es)
      by (rewrite <- app_assoc; reflexivity).
    assert (Hsk : skipn d (h ++ [e]) ++ es = skipn d ((h ++ [e]) ++ es)).
    { rewrite (skipn_app d (h ++ [e]) es).
      replace (d - length (h ++ [e])) with 0 by lia.
      reflexivity. }
    rewrite Hsk, skipn_skipn. f_equal.
    rewrite length_skipn, !length_app. simpl length.
    rewrite length_app in Hd. simpl length in Hd.
    unfold d. rewrite length_app. simpl length. lia.
Qed.

Lemma fold_pushHistory_fits (es : list HistoryEvent) :
  length es <= MAX_HISTORY -> fold_left pushHistory es [] = es.
Proof.
  intros Hle. rewrite fold_pushHistory by (simpl; lia). simpl.
  replace (length es - MAX_HISTORY) with 0 by lia. reflexivity.
Qed.

(* ---------------------------------------------------------------- *)
(** ** Preservation of the invariants *)

Lemma taken_spec (cl : omap Participant) (name : jsstring) :
  taken cl name = true <-> In (toLowerCase name) (loweredNames cl).
Proof.
  unfold taken, loweredNames. rewrite existsb_exists, in_map_iff.
  split; intros [p [H1 H2]]; exists p.
  - apply str_eqb_eq in H2. auto.
  - split; [assumption | apply str_eqb_eq; assumption].
Qed.

Lemma taken_false (cl : omap Participant) (name : jsstring) :
  taken cl name = false <-> ~ In (toLowerCase name) (loweredNames cl).
Proof.
  rewrite <- taken_spec. destruct (taken cl name); split; congruence.
Qed.

Lemma mapHas_mapSet_same (V : Type) (m : omap V) k v :
  mapHas (mapSet m k v) k = true.
Proof. unfold mapHas. rewrite mapGet_mapSet_same. reflexivity. Qed.

Lemma mapHas_mapSet_other (V : Type) (m : omap V) k k' v :
  k' <> k -> mapHas (mapSet m k v) k' = mapHas m k'.
Proof.
  intros Hne. unfold mapHas. rewrite mapGet_mapSet_other by assumption.
  reflexivity.
Qed.

Lemma mapHas_mapDelete_same (V : Type) (m : omap V) k :
  mapHas (mapDelete m k) k = false.
Proof. unfold mapHas. rewrite mapGet_mapDelete_same. reflexivity. Qed.

Lemma mapHas_mapDelete_other (V : Type) (m : omap V) k k' :
  k' <> k -> mapHas (mapDelete m k) k' = mapHas m k'.
Proof.
  intros Hne. unfold mapHas. rewrite mapGet_mapDelete_other by assumption.
  reflexivity.
Qed.

Lemma broadcast_bounded env cl f x :
  frameBounded f -> Forall outputBounded (broadcast env cl f x).
Proof.
  intros Hf. unfold broadcast. apply Forall_forall. intros o Hin.
  apply in_map_iff in Hin. destruct Hin as [k [<- _]]. exact Hf.
Qed.

Lemma pushHistory_bounded h e :
  Forall chatTextBounded h -> chatTextBounded e ->
  Forall chatTextBounded (pushHistory h e).
Proof.
  intros Hh He. apply Forall_forall. intros x Hin.
  apply In_pushHistory in Hin. destruct Hin as [->|Hin]; [assumption|].
  rewrite Forall_forall in Hh. auto.
Qed.

Lemma Inv_init : Inv init.
Proof.
  constructor; simpl; try constructor; try lia.
  - discriminate.
  - discriminate.
Qed.

(** A history push alone. *)
Lemma Inv_withHistory s e :
  Inv s -> chatTextBounded e ->
  Inv (withHistory s (pushHistory (chatHistory s) e)).
Proof.
  intros [Hn Hh Hc Ha Hk] He. constructor; simpl.
  - assumption.
  - apply pushHistory_length; assumption.
  - apply pushHistory_bounded; assumption.
  - assumption.
  - assumption.
Qed.

(** Registering or renaming [ws] under a name nobody holds. *)
Lemma Inv_set_client s ws name e reg :
  Inv s -> taken (clients s) name = false -> chatTextBounded e ->
  mapGet reg ws = Some true ->
  (forall k, k <> ws -> mapGet reg k = mapGet (registered s) k) ->
  Inv {| clients := mapSet (clients s) ws {| username := name |};
         chatHistory := pushHistory (chatHistory s) e;
         sessions := sessions s;
         registered := reg |}.
Proof.
  intros [Hn Hh Hc Ha Hk] Ht He Hreg Hoth. constructor; simpl.
  - unfold loweredNames. apply NoDup_view_mapSet.
    + exact Hn.
    + apply taken_false in Ht. exact Ht.
  - apply pushHistory_length; assumption.
  - apply pushHistory_bounded; assumption.
  - intros k. destruct (Nat.eq_dec k ws) as [->|Hne].
    + rewrite mapHas_mapSet_same, Hreg. tauto.
    + rewrite mapHas_mapSet_other, Hoth by assumption. apply Ha.
  - apply NoDup_mapKeys_mapSet. assumption.
Qed.

Lemma onJoin_preserves s env ws msg s' out :
  Inv s -> onJoin s env ws msg = Normal (s', out) ->
  Inv s' /\ Forall outputBounded out.
Proof.
  intros HI. unfold onJoin.
  destruct (joinName msg) as [name|]; simpl; [|discriminate].
  destruct (taken (clients s) name) eqn:Ht; intros [= <- <-].
  - split; [assumption | repeat constructor].
  - split.
    + apply Inv_set_client; simpl; auto.
      * apply mapGet_mapSet_same.
      * intros k Hne. apply mapGet_mapSet_other; assumption.
    + constructor; [simpl; apply HI|].
      apply Forall_app; split; apply broadcast_bounded; simpl; exact I.
Qed.

Lemma onNick_preserves s env ws old parts :
  Inv s -> mapGet (registered s) ws = Some true ->
  Inv (fst (onNick s env ws old parts))
  /\ Forall outputBounded (snd (onNick s env ws old parts)).
Proof.
  intros HI Hreg. unfold onNick.
  destruct (nickName parts) as [|c newName] eqn:Hn; simpl.
  - split; [assumption | repeat constructor].
  - destruct (taken (clients s) (c :: newName)) eqn:Ht; simpl.
    + split; [assumption | repeat constructor].
    + split.
      * apply Inv_set_client; simpl; auto.
      * apply Forall_app; split; apply broadcast_bounded; simpl; exact I.
Qed.

Lemma onCommand_preserves s env ws name text :
  Inv s -> mapGet (registered s) ws = Some true ->
  Inv (fst (onCommand s env ws name text))
  /\ Forall outputBounded (snd (onCommand s env ws name text)).
Proof.
  intros HI Hreg. unfold onCommand.
  repeat match goal with
         | |- context [if ?b then _ else _] => destruct b
         end; simpl;
    try (split; [assumption | repeat constructor]).
  - split; [apply Inv_withHistory; simpl; auto
           | apply broadcast_bounded; simpl; exact I].
  - apply onNick_preserves; assumption.
Qed.

Lemma onChat_preserves s env ws trimmed s' out :
  Inv s -> mapGet (registered s) ws = Some true ->
  onChat s env ws trimmed = Normal (s', out) ->
  Inv s' /\ Forall outputBounded out.
Proof.
  intros HI Hreg. unfold onChat.
  destruct (mapGet (clients s) ws) as [p|]; [|discriminate].
  destruct (startsWithSlash (slice0 500 trimmed)).
  - intros H. apply (f_equal (fun c => match c with
                                       | Normal r => r
                                       | Throw => (s, [])
                                       end)) in H. cbv beta iota in H.
    pose proof (onCommand_preserves env ws (username p)
                  (slice0 500 trimmed) HI Hreg) as Hc.
    rewrite H in Hc. exact Hc.
  - intros [= <- <-].
    assert (Hb : chatTextBounded
                   (ChatEv (username p) (slice0 500 trimmed) (timestamp env)))
      by (simpl; apply slice0_length).
    split; [apply Inv_withHistory | apply broadcast_bounded]; assumption.
Qed.

Lemma onMessage_preserves s env ws raw s' out :
  Inv s -> onMessage s env ws raw = Normal (s', out) ->
  Inv s' /\ Forall outputBounded out.
Proof.
  intros HI. unfold onMessage.
  destruct raw as [msg|]; [|intros [= <- <-]; split; [assumption|constructor]].
  destruct (getProp msg (lit "type")) as [ty|]; simpl; [|discriminate].
  destruct (strictEqStr ty (lit "join")).
  { apply onJoin_preserves; assumption. }
  destruct (mapGet (registered s) ws) as [[|]|] eqn:Hreg;
    try (intros [= <- <-]; split; [assumption|constructor]).
  destruct (strictEqStr ty (lit "chat"));
    [|intros [= <- <-]; split; [assumption|constructor]].
  destruct (getProp msg (lit "text")) as [t|]; simpl; [|discriminate].
  destruct (truthy t);
    [|intros [= <- <-]; split; [assumption|constructor]].
  destruct (stringReceiver t) as [x|]; simpl; [|discriminate].
  destruct (trim x) as [|c r] eqn:Htrim;
    [intros [= <- <-]; split; [assumption|constructor]|].
  apply onChat_preserves; assumption.
Qed.

Lemma onClose_preserves s env ws s' out :
  Inv s -> onClose s env ws = Normal (s', out) ->
  Inv (withRegistered s' (mapDelete (registered s') ws))
  /\ Forall outputBounded out.
Proof.
  intros HI. unfold onClose.
  destruct (mapGet (registered s) ws) as [[|]|] eqn:Hreg.
  - destruct (mapGet (clients s) ws) as [p|]; [|discriminate].
    intros [= <- <-]. destruct HI as [Hn Hh Hc Ha Hk]. split.
    + constructor; simpl.
      * unfold loweredNames. apply NoDup_view_mapDelete. exact Hn.
      * apply pushHistory_length; assumption.
      * apply pushHistory_bounded; simpl; auto.
      * intros k. destruct (Nat.eq_dec k ws) as [->|Hne].
        -- rewrite mapHas_mapDelete_same, mapGet_mapDelete_same.
           split; discriminate.
        -- rewrite mapHas_mapDelete_other, mapGet_mapDelete_other
             by assumption. apply Ha.
      * apply NoDup_mapKeys_mapDelete. assumption.
    + apply Forall_app; split; apply broadcast_bounded; simpl; exact I.
  - intros [= <- <-]. destruct HI as [Hn Hh Hc Ha Hk].
    split; [|constructor]. constructor; simpl; auto.
    intros k. destruct (Nat.eq_dec k ws) as [->|Hne].
    + rewrite mapGet_mapDelete_same. rewrite Ha, Hreg. split; discriminate.
    + rewrite mapGet_mapDelete_other by assumption. apply Ha.
  - intros [= <- <-]. destruct HI as [Hn Hh Hc Ha Hk].
    split; [|constructor]. constructor; simpl; auto.
    intros k. destruct (Nat.eq_dec k ws) as [->|Hne].
    + rewrite mapGet_mapDelete_same. rewrite Ha, Hreg. split; discriminate.
    + rewrite mapGet_mapDelete_other by assumption. apply Ha.
Qed.

Lemma onConnection_preserves s ws token :
  Inv s -> mapHas (registered s) ws = false ->
  Inv (fst (onConnection s ws token))
  /\ Forall outputBounded (snd (onConnection s ws token)).
Proof.
  intros HI Hfresh. unfold onConnection.
  match goal with |- context [if ?b then _ else _] => destruct b end; simpl.
  - split; [|constructor]. destruct HI as [Hn Hh Hc Ha Hk].
    constructor; simpl; auto.
    apply mapHas_false in Hfresh.
    intros k. destruct (Nat.eq_dec k ws) as [->|Hne].
    + rewrite mapGet_mapSet_same. rewrite Ha, Hfresh. split; discriminate.
    + rewrite mapGet_mapSet_other by assumption. apply Ha.
  - split; [assumption | repeat constructor].
Qed.

Lemma step_preserves s env i s' out :
  Inv s -> step s env i = Normal (s', out) ->
  Inv s' /\ Forall outputBounded out.
Proof.
  intros HI. destruct i as [ws token|ws raw|ws|token]; simpl.
  - destruct (mapHas (registered s) ws) eqn:Hh.
    + intros [= <- <-]. split; [assumption|constructor].
    + intros H. pose proof (onConnection_preserves ws token HI Hh) as Hc.
      destruct (onConnection s ws token). inversion H; subst. exact Hc.
  - destruct (mapHas (registered s) ws).
    + apply onMessage_preserves; assumption.
    + intros [= <- <-]. split; [assumption|constructor].
  - destruct (mapHas (registered s) ws).
    + destruct (onClose s env ws) as [[s1 o1]|] eqn:Hc; simpl;
        [|discriminate].
      intros [= <- <-]. eapply onClose_preserves; eassumption.
    + intros [= <- <-]. split; [assumption|constructor].
  - intros [= <- <-]. split; [|constructor].
    destruct HI as [Hn Hh Hc Ha Hk]. constructor; simpl; auto.
Qed.

Lemma reachable_Inv s : reachable s -> Inv s.
Proof.
  induction 1 as [|s env i s' out _ IH Hstep].
  - apply Inv_init.
  - eapply step_preserves; eassumption.
Qed.

Lemma run_reachable tr : forall s s' out,
  reachable s -> run s tr = Normal (s', out) ->
  reachable s'.
Proof.
  induction tr as [|[env i] tr IH]; intros s s' out Hr; simpl.
  - intros [= <- <-]. assumption.
  - destruct (step s env i) as [[s1 o1]|] eqn:Hs; simpl; [|discriminate].
    destruct (run s1 tr) as [[s2 o2]|] eqn:Hrun; simpl; [|discriminate].
    intros [= <- <-]. eapply IH; [|eassumption].
    eapply reach_step; eassumption.
Qed.

Lemma run_bounded tr : forall s s' out,
  Inv s -> run s tr = Normal (s', out) ->
  Inv s' /\ Forall outputBounded out.
Proof.
  induction tr as [|[env i] tr IH]; intros s s' out HI; simpl.
  - intros [= <- <-]. split; [assumption|constructor].
  - destruct (step s env i) as [[s1 o1]|] eqn:Hs; simpl; [|discriminate].
    destruct (run s1 tr) as [[s2 o2]|] eqn:Hrun; simpl; [|discriminate].
    intros [= <- <-].
    destruct (step_preserves _ _ HI Hs) as [HI1 Ho1].
    destruct (IH _ _ _ HI1 Hrun) as [HI2 Ho2].
    split; [assumption | apply Forall_app; split; assumption].
Qed.

(** An uncaught exception needs a connection that is flagged registered
    without a registry entry, or a frame of the wrong shape; the first
    never happens in a reachable state. *)
Lemma active_has_client s ws :
  Inv s -> mapGet (registered s) ws = Some true ->
  exists p, mapGet (clients s) ws = Some p.
Proof.
  intros HI Hreg. apply (inv_active HI) in Hreg. unfold mapHas in Hreg.
  destruct (mapGet (clients s) ws) as [p|]; [eauto | discriminate].
Qed.

(* ---------------------------------------------------------------- *)
(** ** Session registry *)

(** C1. Case-insensitive display-name uniqueness is an invariant of the
    session registry: after any run of connections, joins (also a second
    join on an active connection), [/nick] commands and closes that starts
    from the empty registry, two different registered connections never
    hold display names that are equal once lower-cased. *)
Theorem displayName_unique_invariant
  (tr : list (Env * Input)) (s : State) (out : list Output)
  (ws1 ws2 : conn) (p1 p2 : Participant) :
  run init tr = Normal (s, out) ->
  In (ws1, p1) (clients s) -> In (ws2, p2) (clients s) -> ws1 <> ws2 ->
  toLowerCase (username p1) <> toLowerCase (username p2).
Proof.
  intros Hrun H1 H2 Hne.
  assert (HI : Inv s).
  { apply reachable_Inv. eapply run_reachable; [apply reach_init | eassumption]. }
  eapply (NoDup_view_distinct (fun p => toLowerCase (username p)));
    [exact (inv_names HI) | eassumption | eassumption | assumption].
Qed.

(* ---------------------------------------------------------------- *)
(** ** History buffer *)

(* ---------------------------------------------------------------- *)
(** ** Dispatch of well-formed frames *)

Lemma step_join s env ws msg :
  mapHas (registered s) ws = true -> isJoinFrame msg ->
  step s env (Message ws (Some msg)) = onJoin s env ws msg.
Proof.
  intros Hh Hty. unfold step. rewrite Hh. unfold onMessage.
  rewrite Hty. unfold bind, strictEqStr. rewrite str_eqb_refl. reflexivity.
Qed.

Lemma step_chat s env ws msg x :
  mapGet (registered s) ws = Some true -> isChatFrame msg x ->
  step s env (Message ws (Some msg))
  = match trim x with
    | [] => Normal (s, [])
    | _ => onChat s env ws (trim x)
    end.
Proof.
  intros Hreg [Hty Htx]. unfold step, mapHas. rewrite Hreg.
  unfold onMessage. rewrite Hty. unfold bind at 1.
  replace (strictEqStr (Some (JStr (lit "chat"))) (lit "join")) with false
    by reflexivity.
  rewrite Hreg.
  replace (strictEqStr (Some (JStr (lit "chat"))) (lit "chat")) with true
    by reflexivity.
  rewrite Htx. unfold bind at 1.
  destruct x as [|c x]; [reflexivity|].
  reflexivity.
Qed.

Lemma historiesSentTo_app ws o1 o2 :
  historiesSentTo ws (o1 ++ o2)
  = historiesSentTo ws o1 ++ historiesSentTo ws o2.
Proof. unfold historiesSentTo. apply flat_map_app. Qed.

Lemma historiesSentTo_broadcast ws env cl f x :
  (forall l, f <> History l) ->
  historiesSentTo ws (broadcast env cl f x) = [].
Proof.
  intros Hf. unfold broadcast.
  generalize (filter
                (fun k =>
                   negb (match x with
                         | Some y => Nat.eqb k y
                         | None => false
                         end)
                   && N.eqb (readyState env k) 1) (mapKeys cl)).
  intros ks. induction ks as [|k ks IH]; simpl; [reflexivity|].
  rewrite IH. destruct f; try reflexivity. exfalso. eapply Hf; reflexivity.
Qed.

(** C3. A connection that joins successfully when the [N <= 200] events
    [es] have been appended so far is sent, first of all, one history
    frame holding exactly [es] in append order; no other history frame
    goes to it, and its own join announcement is appended to the buffer
    only after that frame was built. *)
Theorem join_history_replay
  (es : list HistoryEvent) (s : State) (env : Env) (ws : conn)
  (msg : json) (name : jsstring) :
  length es <= 200 ->
  chatHistory s = fold_left pushHistory es [] ->
  mapHas (registered s) ws = true ->
  isJoinFrame msg ->
  joinName msg = Normal name ->
  taken (clients s) name = false ->
  exists s' rest,
    step s env (Message ws (Some msg))
    = Normal (s', Send ws (History es) :: rest)
    /\ historiesSentTo ws (Send ws (History es) :: rest) = [es]
    /\ mapGet (clients s') ws = Some {| username := name |}
    /\ chatHistory s'
       = pushHistory es
           (SystemEv (name ++ lit " joined the room") (timestamp env)).
Proof.
  intros Hlen Hhist Hh Hty Hname Htaken.
  rewrite fold_pushHistory_fits in Hhist by exact Hlen.
  rewrite step_join by assumption.
  unfold onJoin. rewrite Hname. unfold bind. rewrite Htaken, Hhist.
  eexists. eexists. split; [reflexivity|].
  split; [|split].
  - change (Send ws (History es) :: ?r) with ([Send ws (History es)] ++ r).
    rewrite !historiesSentTo_app, !historiesSentTo_broadcast by discriminate.
    simpl. rewrite Nat.eqb_refl. reflexivity.
  - simpl. apply mapGet_mapSet_same.
  - reflexivity.
Qed.

(* ---------------------------------------------------------------- *)
(** ** Chat frames and the command interpreter *)

(** C8. A chat frame whose text is empty or only white space changes
    nothing: the handler returns the state it was given (registry, history,
    token store and connection flags alike) and sends no frame at all,
    neither a broadcast nor a reply to the sender. *)
Theorem blank_chat_ignored
  (s : State) (env : Env) (ws : conn) (msg : json) (x : jsstring) :
  isChatFrame msg x -> trim x = [] ->
  step s env (Message ws (Some msg)) = Normal (s, []).
Proof.
  intros Hmsg Hblank.
  destruct (mapGet (registered s) ws) as [[|]|] eqn:Hreg.
  - rewrite (step_chat s env ws Hreg Hmsg), Hblank. reflexivity.
  - destruct Hmsg as [Hty _]. unfold step, mapHas. rewrite Hreg.
    unfold onMessage. rewrite Hty. unfold bind.
    replace (strictEqStr (Some (JStr (lit "chat"))) (lit "join")) with false
      by reflexivity.
    rewrite Hreg. reflexivity.
  - unfold step, mapHas. rewrite Hreg. reflexivity.
Qed.

Lemma In_broadcast env cl f x o :
  In o (broadcast env cl f x) -> exists k, o = Send k f /\ In k (mapKeys cl).
Proof.
  unfold broadcast. rewrite in_map_iff. intros [k [<- Hin]].
  apply filter_In in Hin. exists k. tauto.
Qed.

Lemma startsWithSlash_slice0 (n : nat) (s : jsstring) :
  startsWithSlash (slice0 (S n) s) = startsWithSlash s.
Proof. destruct s; reflexivity. Qed.

Lemma onChat_command s env ws p trimmed :
  mapGet (clients s) ws = Some p ->
  startsWithSlash (trimmed) = true ->
  onChat s env ws trimmed
  = Normal (onCommand s env ws (username p) (slice0 500 trimmed)).
Proof.
  intros Hp Hsl. unfold onChat. rewrite Hp.
  change 500 with (S 499) at 1. rewrite startsWithSlash_slice0, Hsl.
  reflexivity.
Qed.

Lemma onChat_plain s env ws p trimmed :
  mapGet (clients s) ws = Some p ->
  startsWithSlash (trimmed) = false ->
  onChat s env ws trimmed
  = let chatMsg :=
      ChatEv (username p) (slice0 500 trimmed) (timestamp env) in
    Normal (withHistory s (pushHistory (chatHistory s) chatMsg),
            broadcast env (clients s) (Event chatMsg) None).
Proof.
  intros Hp Hsl. unfold onChat. rewrite Hp.
  change 500 with (S 499) at 1. rewrite startsWithSlash_slice0, Hsl.
  reflexivity.
Qed.

Lemma broadcast_notChat env cl f x k g :
  notChatFrame f -> In (Send k g) (broadcast env cl f x) -> notChatFrame g.
Proof.
  intros Hf Hin. apply In_broadcast in Hin.
  destruct Hin as [k' [[= _ ->] _]]. assumption.
Qed.

Lemma onNick_no_chat s env ws old parts :
  (forall k f, In (Send k f) (snd (onNick s env ws old parts)) ->
               notChatFrame f)
  /\ (chatHistory (fst (onNick s env ws old parts)) = chatHistory s
      \/ exists e, isChat e = false
                   /\ chatHistory (fst (onNick s env ws old parts))
                      = pushHistory (chatHistory s) e).
Proof.
  unfold onNick. destruct (nickName parts) as [|c newName]; simpl.
  - split; [|left; reflexivity].
    intros k f [[= _ <-]|[]]. exact I.
  - destruct (taken (clients s) (c :: newName)); simpl.
    + split; [|left; reflexivity].
      intros k f [[= _ <-]|[]]. exact I.
    + split; [|right; eexists; split; [|reflexivity]; reflexivity].
      intros k f Hin. apply in_app_or in Hin.
      destruct Hin as [Hin|Hin];
        eapply broadcast_notChat; try eassumption; reflexivity.
Qed.

Lemma onCommand_no_chat s env ws name text :
  (forall k f, In (Send k f) (snd (onCommand s env ws name text)) ->
               notChatFrame f)
  /\ (chatHistory (fst (onCommand s env ws name text)) = chatHistory s
      \/ exists e, isChat e = false
                   /\ chatHistory (fst (onCommand s env ws name text))
                      = pushHistory (chatHistory s) e).
Proof.
  unfold onCommand.
  repeat match goal with
         | |- context [if ?b then _ else _] => destruct b
         end; simpl;
    try (split; [intros k f [[= _ <-]|[]]; first [exact I | reflexivity]
                | left; reflexivity]).
  - split; [|right; eexists; split; [|reflexivity]; reflexivity].
    intros k f Hin. eapply broadcast_notChat; try eassumption; reflexivity.
  - apply onNick_no_chat.
Qed.

Lemma onCommand_unknown s env ws name text :
  ~ In (toLowerCase (nth 0 (split text) [])) commands ->
  onCommand s env ws name text
  = (s, [Send ws (Error (lit "Unknown command: "
                           ++ toLowerCase (nth 0 (split text) [])))]).
Proof.
  intros Hnot. unfold onCommand.
  repeat match goal with
         | |- context [if str_eqb ?a ?b then _ else _] =>
             let E := fresh "E" in
             destruct (str_eqb a b) eqn:E;
             [apply str_eqb_eq in E; exfalso; apply Hnot; rewrite E;
              unfold commands; simpl; tauto|]
         end.
  reflexivity.
Qed.

(** The first piece of [split] is the text up to its first space. *)
Lemma split_head (s : jsstring) :
  exists r, s = nth 0 (split s) [] ++ r
            /\ (r = [] \/ exists r', r = SPACE :: r').
Proof.
  induction s as [|c s IH]; simpl.
  - exists []. split; [reflexivity | left; reflexivity].
  - destruct (N.eqb_spec c SPACE) as [->|Hne]; simpl.
    + exists (SPACE :: s). split; [reflexivity | right; eauto].
    + destruct IH as [r [Heq Hr]].
      destruct (split s) as [|p ps]; simpl in *.
      * exists r. split; [congruence | assumption].
      * exists r. split; [congruence | assumption].
Qed.

Lemma firstWord_prefix (y r : jsstring) :
  forallb (fun c => negb (isWhiteSpace c)) y = true ->
  (r = [] \/ exists c r', r = c :: r' /\ isWhiteSpace c = true) ->
  firstWord (y ++ r) = y.
Proof.
  intros Hy Hr. induction y as [|c y IH]; simpl in *.
  - destruct Hr as [->|[c [r' [-> Hc]]]]; simpl; [reflexivity|].
    rewrite Hc. reflexivity.
  - apply andb_true_iff in Hy. destruct Hy as [Hc Hy].
    apply negb_true_iff in Hc. rewrite Hc. f_equal. auto.
Qed.

(** When the first space-delimited piece of the truncated text holds no
    white space and is shorter than the truncation, it is the first word of
    the whole text. *)
Lemma firstWord_token (t : jsstring) :
  forallb (fun c => negb (isWhiteSpace c))
    (nth 0 (split (slice0 500 t)) []) = true ->
  length (nth 0 (split (slice0 500 t)) []) < 500 ->
  firstWord t = nth 0 (split (slice0 500 t)) [].
Proof.
  intros Hws Hlen.
  destruct (split_head (slice0 500 t)) as [r [Heq Hr]].
  set (T := nth 0 (split (slice0 500 t)) []) in *.
  assert (Ht : t = slice0 500 t ++ skipn 500 t)
    by (unfold slice0; symmetry; apply firstn_skipn).
  destruct Hr as [->|[r' ->]].
  - rewrite app_nil_r in Heq.
    assert (Hshort : length t < 500).
    { assert (H : length (slice0 500 t) < 500) by (rewrite Heq; exact Hlen).
      unfold slice0 in H. rewrite length_firstn in H. lia. }
    rewrite Ht at 1. rewrite skipn_all2 by lia. rewrite Heq.
    apply firstWord_prefix; [assumption | left; reflexivity].
  - rewrite Ht at 1. rewrite Heq at 1. rewrite <- app_assoc.
    apply firstWord_prefix; [assumption|].
    right. exists SPACE. eexists. split; [reflexivity | reflexivity].
Qed.

(** C9. On an active connection, a chat frame whose trimmed text starts
    with a slash is never handled as plain chat: no chat event is sent to
    anyone and none is appended to the history.  When the lower-cased first
    token is none of [/help], [/users], [/me], [/nick], [/clear], the state
    is unchanged and the only frame sent is one error frame to the sender,
    naming the lower-cased token.  The token is the text up to the first
    space; read as the first white-space-delimited word of the trimmed
    text, the same holds as long as lower-casing yields a command name only
    from a short text free of white space. *)
Theorem slash_text_is_command
  (s : State) (env : Env) (ws : conn) (p : Participant)
  (msg : json) (x : jsstring) :
  mapGet (registered s) ws = Some true ->
  mapGet (clients s) ws = Some p ->
  isChatFrame msg x ->
  startsWithSlash (trim x) = true ->
  let cmd := toLowerCase (nth 0 (split (slice0 500 (trim x))) []) in
  exists s' out,
    step s env (Message ws (Some msg)) = Normal (s', out)
    /\ (forall k f, In (Send k f) out -> notChatFrame f)
    /\ (chatHistory s' = chatHistory s
        \/ exists e, isChat e = false
                     /\ chatHistory s' = pushHistory (chatHistory s) e)
    /\ (~ In cmd commands ->
        s' = s /\ out = [Send ws (Error (lit "Unknown command: " ++ cmd))])
    /\ ((forall y, In (toLowerCase y) commands ->
                   forallb (fun c => negb (isWhiteSpace c)) y = true
                   /\ length y < 500) ->
        ~ In (toLowerCase (firstWord (trim x))) commands ->
        s' = s /\ out = [Send ws (Error (lit "Unknown command: " ++ cmd))]).
Proof.
  intros Hreg Hp Hmsg Hsl cmd.
  rewrite (step_chat s env ws Hreg Hmsg).
  destruct (trim x) as [|c r] eqn:Htrim; [discriminate Hsl|].
  rewrite (onChat_command s env ws (c :: r) Hp Hsl).
  pose proof (onCommand_no_chat s env ws (username p) (slice0 500 (c :: r)))
    as [Hout Hhist].
  assert (Hunk : ~ In cmd commands ->
                 onCommand s env ws (username p) (slice0 500 (c :: r))
                 = (s, [Send ws (Error (lit "Unknown command: " ++ cmd))])).
  { intros Hnot. apply onCommand_unknown. exact Hnot. }
  destruct (onCommand s env ws (username p) (slice0 500 (c :: r)))
    as [s' out] eqn:Hcmd.
  exists s', out. simpl in Hout, Hhist.
  split; [reflexivity|]. split; [exact Hout|]. split; [exact Hhist|].
  split.
  - intros Hnot. specialize (Hunk Hnot). inversion Hunk. auto.
  - intros Hlower Hword.
    assert (Hnot : ~ In cmd commands).
    { intros Hin. apply Hword.
      destruct (Hlower _ Hin) as [Hws Hlen].
      rewrite (firstWord_token (c :: r) Hws Hlen). exact Hin. }
    specialize (Hunk Hnot). inversion Hunk. auto.
Qed.

Lemma onCommand_nick s env ws name text :
  toLowerCase (nth 0 (split text) []) = lit "/nick" ->
  onCommand s env ws name text = onNick s env ws name (split text).
Proof.
  intros Hcmd. unfold onCommand. cbv zeta. rewrite Hcmd. reflexivity.
Qed.

Lemma taken_holder (cl : omap Participant) (name : jsstring) :
  taken cl name = true
  <-> exists ws' p', In (ws', p') cl
                     /\ toLowerCase (username p') = toLowerCase name.
Proof.
  rewrite taken_spec. unfold loweredNames, mapValues.
  rewrite in_map_iff. split.
  - intros [p' [Heq Hin]]. apply in_map_iff in Hin.
    destruct Hin as [[ws' q] [Hq Hin]]. simpl in Hq. subst q.
    exists ws', p'. auto.
  - intros [ws' [p' [Hin Heq]]]. exists p'. split; [assumption|].
    apply in_map_iff. exists (ws', p'). auto.
Qed.

(** C4 (as the code has it). For an active sender issuing [/nick] with a
    non-empty sanitized new name, the taken error is sent, as the only
    frame and with the state unchanged, if and only if some participant,
    the sender included, holds a display name equal to the new one up to
    case; so a rename to the sender's own current name, or to a case
    variant of it, is rejected as taken and leaves the name as it was.
    Otherwise the sender's entry is renamed in place and the rename
    announcement is appended. *)
Theorem nick_taken_iff_held
  (s : State) (env : Env) (ws : conn) (p : Participant)
  (msg : json) (x : jsstring) :
  mapGet (registered s) ws = Some true ->
  mapGet (clients s) ws = Some p ->
  isChatFrame msg x ->
  startsWithSlash (trim x) = true ->
  toLowerCase (nth 0 (split (slice0 500 (trim x))) []) = lit "/nick" ->
  nickName (split (slice0 500 (trim x))) <> [] ->
  let newName := nickName (split (slice0 500 (trim x))) in
  let takenError :=
    Send ws (Error ([DQUOTE] ++ newName ++ [DQUOTE]
                      ++ lit " is already taken.")) in
  exists s' out,
    step s env (Message ws (Some msg)) = Normal (s', out)
    /\ (In takenError out
        <-> exists ws' p', In (ws', p') (clients s)
                           /\ toLowerCase (username p')
                              = toLowerCase newName)
    /\ (In takenError out -> s' = s /\ out = [takenError])
    /\ (toLowerCase newName = toLowerCase (username p) ->
        s' = s /\ out = [takenError])
    /\ (~ In takenError out ->
        mapGet (clients s') ws = Some {| username := newName |}
        /\ chatHistory s'
           = pushHistory (chatHistory s)
               (SystemEv (username p ++ lit " is now known as " ++ newName)
                  (timestamp env))).
Proof.
  intros Hreg Hp Hmsg Hsl Hcmd Hne newName takenError.
  rewrite (step_chat s env ws Hreg Hmsg).
  destruct (trim x) as [|c r] eqn:Htrim; [discriminate Hsl|].
  rewrite (onChat_command s env ws (c :: r) Hp Hsl).
  rewrite (onCommand_nick s env ws (username p) _ Hcmd).
  unfold onNick. fold newName.
  destruct newName as [|n0 nm] eqn:Hnew; [contradiction|].
  destruct (taken (clients s) (n0 :: nm)) eqn:Ht.
  - eexists. eexists. split; [reflexivity|].
    assert (Hin : In takenError [takenError]) by (left; reflexivity).
    split; [|split; [|split]].
    + split; [intros _; apply taken_holder; exact Ht | intros _; exact Hin].
    + intros _. split; reflexivity.
    + intros _. split; reflexivity.
    + intros Hnot. contradiction.
  - eexists. eexists. split; [reflexivity|].
    assert (Hnotin : ~ In takenError
                       (broadcast env
                          (mapSet (clients s) ws {| username := n0 :: nm |})
                          (Event (SystemEv
                                    (username p ++ lit " is now known as "
                                       ++ n0 :: nm) (timestamp env))) None
                        ++ broadcast env
                             (mapSet (clients s) ws {| username := n0 :: nm |})
                             (Users (userList
                                       (mapSet (clients s) ws
                                          {| username := n0 :: nm |}))) None)).
    { intros Hin. apply in_app_or in Hin.
      destruct Hin as [Hin|Hin]; apply In_broadcast in Hin;
        destruct Hin as [k [Heq _]]; discriminate Heq. }
    assert (Hfree : ~ exists ws' p',
                        In (ws', p') (clients s)
                        /\ toLowerCase (username p')
                           = toLowerCase (n0 :: nm)).
    { rewrite <- taken_holder. rewrite Ht. discriminate. }
    split; [|split; [|split]].
    + split; [intros Hin; contradiction | intros Hex; contradiction].
    + intros Hin. contradiction.
    + intros Hown. exfalso. apply Hfree. exists ws, p.
      split; [apply mapGet_In; assumption | symmetry; assumption].
    + intros _. split; [apply mapGet_mapSet_same | reflexivity].
Qed.

(** C10 (as the code has it). On an active connection, a chat frame whose
    trimmed text is longer than 500 characters and does not start with a
    slash is neither rejected nor answered with an error: one chat event
    whose text is exactly the first 500 characters of the trimmed text is
    appended to the history and broadcast.  And along any run from the
    initial state every chat event in the history, and every chat event in
    any frame sent, has a text of at most 500 characters. *)
Theorem long_plain_chat_truncated :
  (forall s env ws p msg x,
      mapGet (registered s) ws = Some true ->
      mapGet (clients s) ws = Some p ->
      isChatFrame msg x ->
      500 < length (trim x) ->
      startsWithSlash (trim x) = false ->
      let chatMsg :=
        ChatEv (username p) (slice0 500 (trim x)) (timestamp env) in
      length (slice0 500 (trim x)) = 500
      /\ step s env (Message ws (Some msg))
         = Normal (withHistory s (pushHistory (chatHistory s) chatMsg),
                   broadcast env (clients s) (Event chatMsg) None))
  /\ (forall tr s out,
         run init tr = Normal (s, out) ->
         Forall chatTextBounded (chatHistory s)
         /\ Forall outputBounded out).
Proof.
  split.
  - intros s env ws p msg x Hreg Hp Hmsg Hlong Hsl chatMsg. split.
    + unfold slice0. rewrite length_firstn. lia.
    + rewrite (step_chat s env ws Hreg Hmsg).
      destruct (trim x) as [|c r] eqn:Htrim; [simpl in Hlong; lia|].
      rewrite (onChat_plain s env ws (c :: r) Hp Hsl). reflexivity.
  - intros tr s out Hrun.
    destruct (run_bounded tr Inv_init Hrun) as [HI Hout].
    split; [exact (inv_chat HI) | exact Hout].
Qed.

(* ---------------------------------------------------------------- *)
(** ** Handshake and token store *)

Lemma onCommand_frame s env ws name text :
  sessions (fst (onCommand s env ws name text)) = sessions s
  /\ registered (fst (onCommand s env ws name text)) = registered s.
Proof.
  unfold onCommand, onNick.
  repeat match goal with
         | |- context [if ?b then _ else _] => destruct b
         | |- context [match ?l with [] => _ | _ :: _ => _ end] => destruct l
         end; simpl; split; reflexivity.
Qed.

(** The message handler never touches the token store, and the only flag
    it sets is the sender's own. *)
Lemma onMessage_frame s env ws raw s' out :
  onMessage s env ws raw = Normal (s', out) ->
  sessions s' = sessions s
  /\ (registered s' = registered s
      \/ registered s' = mapSet (registered s) ws true).
Proof.
  unfold onMessage.
  destruct raw as [msg|]; [|intros [= <- <-]; auto].
  destruct (getProp msg (lit "type")) as [ty|]; simpl; [|discriminate].
  destruct (strictEqStr ty (lit "join")).
  { unfold onJoin. destruct (joinName msg) as [name|]; simpl; [|discriminate].
    destruct (taken (clients s) name); intros [= <- <-]; simpl; auto. }
  destruct (mapGet (registered s) ws) as [[|]|];
    try (intros [= <- <-]; auto).
  destruct (strictEqStr ty (lit "chat")); [|intros [= <- <-]; auto].
  destruct (getProp msg (lit "text")) as [t|]; simpl; [|discriminate].
  destruct (truthy t); [|intros [= <- <-]; auto].
  destruct (stringReceiver t) as [x|]; simpl; [|discriminate].
  destruct (trim x) as [|c r]; [intros [= <- <-]; auto|].
  unfold onChat. destruct (mapGet (clients s) ws) as [p|]; [|discriminate].
  destruct (startsWithSlash (slice0 500 (c :: r))).
  - intros H.
    pose proof (onCommand_frame s env ws (username p) (slice0 500 (c :: r)))
      as [Hs Hr].
    destruct (onCommand s env ws (username p) (slice0 500 (c :: r)))
      as [s1 o1].
    simpl in Hs, Hr. inversion H; subst. auto.
  - intros [= <- <-]. simpl. auto.
Qed.

Lemma onClose_frame s env ws s' out :
  onClose s env ws = Normal (s', out) ->
  sessions s' = sessions s /\ registered s' = registered s.
Proof.
  unfold onClose.
  destruct (mapGet (registered s) ws) as [[|]|];
    try (intros [= <- <-]; auto).
  destruct (mapGet (clients s) ws) as [p|]; [|discriminate].
  intros [= <- <-]. simpl. auto.
Qed.

Lemma onConnection_frame s ws token :
  sessions (fst (onConnection s ws token)) = sessions s.
Proof.
  unfold onConnection.
  match goal with |- context [if ?b then _ else _] => destruct b end;
    reflexivity.
Qed.

(** Only [POST /auth] changes the token store. *)
Lemma step_sessions s env i s' out :
  (forall t, i <> Auth t) ->
  step s env i = Normal (s', out) -> sessions s' = sessions s.
Proof.
  intros Hi. destruct i as [ws token|ws raw|ws|token]; simpl.
  - destruct (mapHas (registered s) ws); intros H.
    + inversion H; subst. reflexivity.
    + pose proof (onConnection_frame s ws token) as Hf.
      destruct (onConnection s ws token). inversion H; subst. exact Hf.
  - destruct (mapHas (registered s) ws).
    + intros H. apply onMessage_frame in H. tauto.
    + intros [= <- <-]. reflexivity.
  - destruct (mapHas (registered s) ws).
    + destruct (onClose s env ws) as [[s1 o1]|] eqn:Hc; simpl; [|discriminate].
      intros [= <- <-]. simpl. apply onClose_frame in Hc. tauto.
    + intros [= <- <-]. reflexivity.
  - exfalso. eapply Hi. reflexivity.
Qed.

(** A socket without listeners gets none unless a connection event for it
    arrives. *)
Lemma step_no_listener s env i s' out ws :
  mapHas (registered s) ws = false ->
  connectionOf i <> Some ws ->
  step s env i = Normal (s', out) ->
  mapHas (registered s') ws = false.
Proof.
  intros Hno Hi.
  destruct i as [k token|k raw|k|token]; simpl.
  - assert (Hk : ws <> k) by (simpl in Hi; congruence).
    destruct (mapHas (registered s) k); [intros [= <- <-]; assumption|].
    unfold onConnection.
    match goal with |- context [if ?b then _ else _] => destruct b end;
      intros [= <- <-]; simpl; [|assumption].
    rewrite mapHas_mapSet_other by assumption. assumption.
  - destruct (mapHas (registered s) k) eqn:Hk;
      [|intros [= <- <-]; assumption].
    assert (Hne : ws <> k) by congruence.
    intros H. apply onMessage_frame in H. destruct H as [_ [-> | ->]];
      [assumption|].
    rewrite mapHas_mapSet_other by assumption. assumption.
  - destruct (mapHas (registered s) k) eqn:Hk;
      [|intros [= <- <-]; assumption].
    assert (Hne : ws <> k) by congruence.
    destruct (onClose s env k) as [[s1 o1]|] eqn:Hc; simpl; [|discriminate].
    intros [= <- <-]. simpl. apply onClose_frame in Hc. destruct Hc as [_ ->].
    rewrite mapHas_mapDelete_other by assumption. assumption.
  - intros [= <- <-]. assumption.
Qed.

Lemma run_no_listener tr : forall s s' out ws,
  mapHas (registered s) ws = false ->
  Forall (fun ei => connectionOf (snd ei) <> Some ws) tr ->
  run s tr = Normal (s', out) ->
  mapHas (registered s') ws = false.
Proof.
  induction tr as [|[env i] tr IH]; intros s s' out ws Hno Hall; simpl.
  - intros [= <- <-]. assumption.
  - inversion Hall as [|? ? Hi Hrest]; subst. simpl in Hi.
    destruct (step s env i) as [[s1 o1]|] eqn:Hs; simpl; [|discriminate].
    destruct (run s1 tr) as [[s2 o2]|] eqn:Hrun; simpl; [|discriminate].
    intros [= <- <-]. eapply IH; [|eassumption|eassumption].
    eapply step_no_listener; eassumption.
Qed.

(** C7. A connection whose token is absent, or is not in the token store,
    gets exactly one error frame and is closed, and the state is left as it
    was: no registry entry, no listeners.  Frames (and the close event) of a
    socket without listeners are not processed, and along any later run
    that does not open that same socket anew it never appears in the
    registry.  No handler of the socket server changes the token store, so
    one token admits any number of connections. *)
Theorem bad_token_rejected :
  (forall s env ws token,
      mapHas (registered s) ws = false ->
      (token = None \/ exists t, token = Some t /\ ~ In t (sessions s)) ->
      step s env (Connection ws token)
      = Normal (s, [Send ws (Error authRequired); CloseSocket ws]))
  /\ (forall s env ws raw,
         mapHas (registered s) ws = false ->
         step s env (Message ws raw) = Normal (s, [])
         /\ step s env (Close ws) = Normal (s, []))
  /\ (forall tr s s' out ws,
         reachable s ->
         mapHas (registered s) ws = false ->
         Forall (fun ei => connectionOf (snd ei) <> Some ws) tr ->
         run s tr = Normal (s', out) ->
         mapHas (clients s') ws = false /\ mapHas (registered s') ws = false)
  /\ (forall s env i s' out,
         (forall t, i <> Auth t) ->
         step s env i = Normal (s', out) -> sessions s' = sessions s)
  /\ (forall s env1 env2 ws1 ws2 t,
         In t (sessions s) -> t <> [] ->
         mapHas (registered s) ws1 = false ->
         mapHas (registered s) ws2 = false ->
         ws1 <> ws2 ->
         run s [(env1, Connection ws1 (Some t));
                (env2, Connection ws2 (Some t))]
         = Normal (withRegistered s
                     (mapSet (mapSet (registered s) ws1 false) ws2 false),
                   [])).
Proof.
  split; [|split; [|split; [|split]]].
  - intros s env ws token Hno Htok. simpl. rewrite Hno.
    unfold onConnection.
    destruct Htok as [->|[t [-> Hnot]]]; [reflexivity|].
    destruct t as [|c t]; [reflexivity|].
    destruct (existsb (str_eqb (c :: t)) (sessions s)) eqn:He; [|reflexivity].
    apply existsb_str_eqb in He. contradiction.
  - intros s env ws raw Hno. simpl. rewrite Hno. split; reflexivity.
  - intros tr s s' out ws Hreach Hno Hall Hrun.
    assert (Hno' : mapHas (registered s') ws = false)
      by (eapply run_no_listener; eassumption).
    split; [|assumption].
    assert (HI : Inv s')
      by (apply reachable_Inv; eapply run_reachable; eassumption).
    destruct (mapHas (clients s') ws) eqn:Hc; [|reflexivity].
    apply (inv_active HI) in Hc. apply mapHas_false in Hno'. congruence.
  - apply step_sessions.
  - intros s env1 env2 ws1 ws2 t Hin Hne Hno1 Hno2 Hdiff.
    assert (He : existsb (str_eqb t) (sessions s) = true)
      by (apply existsb_str_eqb; assumption).
    unfold run. unfold step at 1. rewrite Hno1. unfold onConnection at 1.
    destruct t as [|c t]; [congruence|]. rewrite He. unfold bind at 1.
    cbn [fst snd]. unfold step. cbn [registered withRegistered].
    rewrite mapHas_mapSet_other by congruence. rewrite Hno2.
    unfold onConnection. cbn [sessions withRegistered]. rewrite He.
    reflexivity.
Qed.

(* ---------------------------------------------------------------- *)
(** ** Where the handlers complete *)

Lemma getProp_defined msg k : msg <> JNull -> exists v, getProp msg k = Normal v.
Proof. destruct msg; simpl; eauto. congruence. Qed.


(** In a state that satisfies the invariants every event completes, as long
    as the frame is unparseable or well typed. *)
Lemma step_completes s env i :
  Inv s ->
  (forall ws msg, i = Message ws (Some msg) -> wellTyped msg) ->
  exists r, step s env i = Normal r.
Proof.
  intros HI Hwt. destruct i as [ws token|ws raw|ws|token]; simpl.
  - destruct (mapHas (registered s) ws); eauto.
  - destruct (mapHas (registered s) ws); [|eauto].
    destruct raw as [msg|]; [|simpl; eauto].
    destruct (Hwt ws msg eq_refl) as [Hnn [Hu Ht]].
    unfold onMessage.
    destruct (getProp_defined (lit "type") Hnn) as [ty ->]. unfold bind at 1.
    destruct (strictEqStr ty (lit "join")).
    { unfold onJoin, joinName.
      destruct (getProp_defined (lit "username") Hnn) as [u Hgu].
      rewrite Hgu. unfold bind at 1 2. unfold orElse.
      destruct (Hu u Hgu) as [Hf|[x ->]].
      - rewrite Hf. simpl.
        match goal with |- context [if ?b then _ else _] => destruct b end;
          eauto.
      - destruct (truthy (Some (JStr x))); simpl;
          match goal with |- context [if ?b then _ else _] => destruct b end;
          eauto. }
    destruct (mapGet (registered s) ws) as [[|]|] eqn:Hreg; eauto.
    destruct (strictEqStr ty (lit "chat")); [|eauto].
    destruct (getProp_defined (lit "text") Hnn) as [t Hgt].
    rewrite Hgt. unfold bind at 1.
    destruct (Ht t Hgt) as [Hf|[x ->]]; [rewrite Hf; eauto|].
    destruct (truthy (Some (JStr x))); [|eauto]. simpl.
    destruct (trim x) as [|c r]; [eauto|].
    destruct (active_has_client ws HI Hreg) as [p Hp].
    unfold onChat. rewrite Hp.
    destruct (startsWithSlash (slice0 500 (c :: r))); eauto.
  - destruct (mapHas (registered s) ws); [|eauto].
    unfold onClose.
    destruct (mapGet (registered s) ws) as [[|]|] eqn:Hreg; simpl; eauto.
    destruct (active_has_client ws HI Hreg) as [p ->]. simpl. eauto.
  - eauto.
Qed.

(* ---------------------------------------------------------------- *)
(** ** Every callback, case by case *)

Lemma orStr_nonempty (a b : jsstring) : b <> [] -> orStr a b <> [].
Proof. destruct a; simpl; [auto | discriminate]. Qed.

Lemma onNick_Effect s env ws raw p parts :
  mapGet (registered s) ws = Some true ->
  mapGet (clients s) ws = Some p ->
  Effect s env (Message ws raw)
    (fst (onNick s env ws (username p) parts))
    (snd (onNick s env ws (username p) parts)).
Proof.
  intros Hreg Hp. unfold onNick.
  destruct (nickName parts) as [|c r] eqn:Hn; simpl.
  - apply Eff_reply. exact I.
  - destruct (taken (clients s) (c :: r)) eqn:Ht; simpl.
    + apply Eff_reply. exact I.
    + rewrite <- Hn in *. apply Eff_nick; try assumption.
      rewrite Hn. discriminate.
Qed.

Lemma onCommand_Effect s env ws raw p text :
  mapGet (registered s) ws = Some true ->
  mapGet (clients s) ws = Some p ->
  Effect s env (Message ws raw)
    (fst (onCommand s env ws (username p) text))
    (snd (onCommand s env ws (username p) text)).
Proof.
  intros Hreg Hp. unfold onCommand. cbv zeta.
  destruct (str_eqb _ (lit "/help")); [apply Eff_reply; exact I|].
  destruct (str_eqb _ (lit "/users")); [apply Eff_reply; exact I|].
  destruct (str_eqb _ (lit "/me")).
  { simpl. apply Eff_me; try assumption.
    apply orStr_nonempty. discriminate. }
  destruct (str_eqb _ (lit "/nick")); [apply onNick_Effect; assumption|].
  destruct (str_eqb _ (lit "/clear")); apply Eff_reply; exact I.
Qed.

Lemma onMessage_Effect s env ws raw s' out :
  onMessage s env ws raw = Normal (s', out) ->
  Effect s env (Message ws raw) s' out.
Proof.
  unfold onMessage.
  destruct raw as [msg|]; [|intros [= <- <-]; apply Eff_none].
  destruct (getProp msg (lit "type")) as [ty|] eqn:Hty; simpl; [|discriminate].
  destruct (strictEqStr ty (lit "join")) eqn:Hjoin.
  { assert (Hj : isJoinFrame msg).
    { unfold isJoinFrame. rewrite Hty.
      destruct ty as [[| | |x| |]|]; try discriminate Hjoin.
      simpl in Hjoin. apply str_eqb_eq in Hjoin. rewrite Hjoin. reflexivity. }
    unfold onJoin. destruct (joinName msg) as [name|] eqn:Hname; simpl;
      [|discriminate].
    destruct (taken (clients s) name) eqn:Ht; intros [= <- <-].
    - apply Eff_reply. exact I.
    - apply Eff_join; assumption. }
  destruct (mapGet (registered s) ws) as [[|]|] eqn:Hreg;
    try (intros [= <- <-]; apply Eff_none).
  destruct (strictEqStr ty (lit "chat"));
    [|intros [= <- <-]; apply Eff_none].
  destruct (getProp msg (lit "text")) as [t|]; simpl; [|discriminate].
  destruct (truthy t); [|intros [= <- <-]; apply Eff_none].
  destruct (stringReceiver t) as [x|]; simpl; [|discriminate].
  destruct (trim x) as [|c r] eqn:Htrim;
    [intros [= <- <-]; apply Eff_none|].
  unfold onChat. destruct (mapGet (clients s) ws) as [p|] eqn:Hp;
    [|discriminate].
  change 500 with (S 499) at 1. rewrite startsWithSlash_slice0.
  destruct (startsWithSlash (c :: r)) eqn:Hsl.
  - intros H.
    pose proof (onCommand_Effect s env ws (Some msg) (slice0 500 (c :: r))
                  Hreg Hp) as HE.
    destruct (onCommand s env ws (username p) (slice0 500 (c :: r)))
      as [s1 o1].
    simpl in HE. inversion H; subst. exact HE.
  - intros [= <- <-]. rewrite <- Htrim in *.
    apply Eff_chat; try assumption. rewrite Htrim. discriminate.
Qed.

(** The function and the case list agree. *)
Lemma step_Effect s env i s' out :
  step s env i = Normal (s', out) -> Effect s env i s' out.
Proof.
  destruct i as [ws token|ws raw|ws|token]; simpl.
  - destruct (mapHas (registered s) ws) eqn:Hh;
      [intros [= <- <-]; apply Eff_none|].
    unfold onConnection.
    destruct token as [[|c t]|]; try (intros [= <- <-]; apply Eff_reject).
    destruct (existsb (str_eqb (c :: t)) (sessions s)) eqn:He;
      intros [= <- <-]; [|apply Eff_reject].
    apply Eff_accept; [apply existsb_str_eqb; assumption | discriminate
                      | assumption].
  - destruct (mapHas (registered s) ws);
      [apply onMessage_Effect | intros [= <- <-]; apply Eff_none].
  - destruct (mapHas (registered s) ws) eqn:Hh;
      [|intros [= <- <-]; apply Eff_none].
    unfold onClose.
    destruct (mapGet (registered s) ws) as [[|]|] eqn:Hreg; simpl.
    + destruct (mapGet (clients s) ws) as [p|] eqn:Hp; simpl;
        [|discriminate].
      intros [= <- <-]. unfold withRegistered. simpl.
      apply Eff_close; assumption.
    + intros [= <- <-]. apply Eff_close_pending. rewrite Hreg. discriminate.
    + intros [= <- <-]. apply Eff_close_pending. rewrite Hreg. discriminate.
  - intros [= <- <-]. apply Eff_auth.
    + intros x Hx. destruct (existsb (str_eqb token) (sessions s));
        [assumption | apply in_or_app; left; assumption].
    + destruct (existsb (str_eqb token) (sessions s)) eqn:He.
      * apply existsb_str_eqb. assumption.
      * apply in_or_app. right. left. reflexivity.
Qed.

(* ---------------------------------------------------------------- *)
(** ** Sanitized names and recorded events *)

Lemma forallb_firstn (A : Type) (f : A -> bool) (n : nat) (l : list A) :
  forallb f l = true -> forallb f (firstn n l) = true.
Proof.
  revert n; induction l as [|a l IH]; intros [|n]; simpl; auto.
  rewrite !andb_true_iff. intros [Ha Hl]. auto.
Qed.

Lemma forallb_filter (A : Type) (f : A -> bool) (l : list A) :
  forallb f (filter f l) = true.
Proof.
  induction l as [|a l IH]; simpl; [reflexivity|].
  destruct (f a) eqn:Ha; simpl; [rewrite Ha|]; assumption.
Qed.

Lemma sanitized_valid (x : jsstring) :
  slice0 20 (stripNonName x) <> [] -> validName (slice0 20 (stripNonName x)).
Proof.
  intros Hne. split; [assumption|]. split.
  - apply slice0_length.
  - unfold slice0, stripNonName. apply forallb_firstn, forallb_filter.
Qed.

Lemma anon_valid : validName (lit "anon").
Proof. split; [discriminate|]. split; [simpl; lia | reflexivity]. Qed.

Lemma joinName_valid msg name : joinName msg = Normal name -> validName name.
Proof.
  unfold joinName.
  destruct (getProp msg (lit "username")) as [u|]; simpl; [|discriminate].
  destruct (stringReceiver (orElse u (Some (JStr (lit "anon"))))) as [x|];
    simpl; [|discriminate].
  intros [= <-].
  destruct (slice0 20 (stripNonName x)) as [|c r] eqn:Hx; simpl.
  - apply anon_valid.
  - rewrite <- Hx. apply sanitized_valid. rewrite Hx. discriminate.
Qed.

Lemma nickName_valid parts : nickName parts <> [] -> validName (nickName parts).
Proof. unfold nickName. apply sanitized_valid. Qed.

Lemma trimStart_head (s : jsstring) c r :
  trimStart s = c :: r -> isWhiteSpace c = false.
Proof.
  induction s as [|d s IH]; simpl; [discriminate|].
  destruct (isWhiteSpace d) eqn:Hd; [assumption|].
  intros [= <- _]. assumption.
Qed.

Lemma trimStart_snoc (a : jsstring) (c : char16) :
  isWhiteSpace c = false -> exists a', trimStart (a ++ [c]) = a' ++ [c].
Proof.
  intros Hc. induction a as [|d a IH]; simpl.
  - rewrite Hc. exists []. reflexivity.
  - destruct (isWhiteSpace d); [assumption|].
    exists (d :: a). reflexivity.
Qed.

(** What [trim] returns does not start with white space. *)
Lemma trim_head (x : jsstring) c r :
  trim x = c :: r -> isWhiteSpace c = false.
Proof.
  unfold trim, trimEnd.
  destruct (trimStart x) as [|d y] eqn:Hy; [discriminate|].
  pose proof (trimStart_head _ Hy) as Hd.
  simpl rev. destruct (@trimStart_snoc (rev y) d Hd) as [a' ->].
  rewrite rev_app_distr. simpl. intros [= <- _]. assumption.
Qed.

Lemma chat_text_ok (x : jsstring) :
  trim x <> [] -> startsWithSlash (trim x) = false ->
  chatTextOk (slice0 500 (trim x)).
Proof.
  intros Hne Hsl. split; [apply slice0_length|].
  destruct (trim x) as [|c r] eqn:Ht; [contradiction|].
  exists c, (firstn 499 r). split; [reflexivity|]. split.
  - eapply trim_head. eassumption.
  - exact Hsl.
Qed.

Lemma pushHistory_Forall (P : HistoryEvent -> Prop) h e :
  Forall P h -> P e -> Forall P (pushHistory h e).
Proof.
  intros Hh He. apply Forall_forall. intros x Hin.
  apply In_pushHistory in Hin. destruct Hin as [->|Hin]; [assumption|].
  rewrite Forall_forall in Hh. auto.
Qed.

Lemma WF_init : WF init.
Proof. split; [intros ws p [] | constructor]. Qed.

Lemma Effect_WF s env i s' out : WF s -> Effect s env i s' out -> WF s'.
Proof.
  intros [Hn Hh] HE.
  destruct HE as [i| | | | |ws msg name Hj Hname Ht|ws raw p action Hreg Hp Ha
                 |ws raw p parts Hreg Hp Hne Ht|ws raw p x Hreg Hp Hne Hsl
                 |ws p Hreg Hp|]; try (split; assumption).
  - split; simpl.
    + intros k q Hin. apply In_mapSet in Hin. destruct Hin as [[= _ ->]|Hin].
      * simpl. eapply joinName_valid. eassumption.
      * eauto.
    + apply pushHistory_Forall; [assumption | exact I].
  - split; simpl; [assumption|].
    apply pushHistory_Forall; [assumption|]. simpl. split.
    + eapply Hn. apply mapGet_In. eassumption.
    + exists action. auto.
  - split; simpl.
    + intros k q Hin. apply In_mapSet in Hin. destruct Hin as [[= _ ->]|Hin].
      * simpl. apply nickName_valid. assumption.
      * eauto.
    + apply pushHistory_Forall; [assumption | exact I].
  - split; simpl; [assumption|].
    apply pushHistory_Forall; [assumption|]. simpl. split.
    + eapply Hn. apply mapGet_In. eassumption.
    + apply chat_text_ok; assumption.
  - split; simpl.
    + intros k q Hin. apply In_mapDelete in Hin. eauto.
    + apply pushHistory_Forall; [assumption | exact I].
Qed.

(** What every step keeps, every run keeps. *)
Lemma run_invariant (P : State -> Prop) :
  (forall s env i s' out, P s -> step s env i = Normal (s', out) -> P s') ->
  forall tr s s' out, P s -> run s tr = Normal (s', out) -> P s'.
Proof.
  intros Hstep. induction tr as [|[env i] tr IH]; intros s s' out HP; simpl.
  - intros [= <- <-]. assumption.
  - destruct (step s env i) as [[s1 o1]|] eqn:Hs; simpl; [|discriminate].
    destruct (run s1 tr) as [[s2 o2]|] eqn:Hrun; simpl; [|discriminate].
    intros [= <- <-]. eapply IH; [|eassumption]. eapply Hstep; eassumption.
Qed.

Lemma run_WF tr s out : run init tr = Normal (s, out) -> WF s.
Proof.
  apply (run_invariant WF); [|apply WF_init].
  intros s0 env i s' o HW Hs. eapply Effect_WF; [eassumption|].
  apply step_Effect. eassumption.
Qed.

(** X1. Along any run from the initial state every display name in the
    registry is a sanitized name: between 1 and 20 characters, each a
    letter, a digit, an underscore or a hyphen. *)
Theorem registry_names_valid
  (tr : list (Env * Input)) (s : State) (out : list Output)
  (ws : conn) (p : Participant) :
  run init tr = Normal (s, out) ->
  In (ws, p) (clients s) ->
  username p <> [] /\ length (username p) <= 20
  /\ forallb isNameChar (username p) = true.
Proof.
  intros Hrun Hin. destruct (run_WF _ Hrun) as [Hn _]. exact (Hn ws p Hin).
Qed.

(** X2. Along any run from the initial state every recorded event is well
    formed: a chat event carries a sanitized user name and a text of at
    most 500 characters that starts with neither white space nor a slash (a
    command is never recorded as chat); an action event carries a sanitized
    user name and a message made of that name, a space and a non-empty
    action text. *)
Theorem history_events_wellformed
  (tr : list (Env * Input)) (s : State) (out : list Output)
  (e : HistoryEvent) :
  run init tr = Normal (s, out) ->
  In e (chatHistory s) ->
  match e with
  | SystemEv _ _ => True
  | ActionEv u m _ =>
      validName u /\ exists a, a <> [] /\ m = u ++ lit " " ++ a
  | ChatEv u t _ =>
      validName u /\ length t <= 500
      /\ exists c r, t = c :: r /\ isWhiteSpace c = false
                     /\ N.eqb c SLASH = false
  end.
Proof.
  intros Hrun Hin. destruct (run_WF _ Hrun) as [_ Hh].
  rewrite Forall_forall in Hh. specialize (Hh e Hin).
  destruct e; exact Hh.
Qed.

(* ---------------------------------------------------------------- *)
(** ** Delivery *)

Lemma In_broadcast_iff env cl f x k g :
  In (Send k g) (broadcast env cl f x)
  <-> g = f /\ mapHas cl k = true /\ readyState env k = 1%N /\ x <> Some k.
Proof.
  unfold broadcast. rewrite in_map_iff. split.
  - intros [k' [[= -> ->] Hin]]. apply filter_In in Hin.
    destruct Hin as [Hin Hc]. apply andb_true_iff in Hc.
    destruct Hc as [Hx Hr]. apply negb_true_iff in Hx. apply N.eqb_eq in Hr.
    split; [reflexivity|]. split; [apply mapHas_keys; assumption|].
    split; [assumption|].
    destruct x as [y|]; [|discriminate].
    apply Nat.eqb_neq in Hx. congruence.
  - intros [-> [Hin [Hr Hx]]]. exists k. split; [reflexivity|].
    apply filter_In. split; [apply mapHas_keys; assumption|].
    apply andb_true_iff. split; [|apply N.eqb_eq; assumption].
    apply negb_true_iff. destruct x as [y|]; [|reflexivity].
    apply Nat.eqb_neq. congruence.
Qed.

Lemma NoDup_broadcast env cl f x :
  NoDup (mapKeys cl) -> NoDup (broadcast env cl f x).
Proof.
  intros Hnd. unfold broadcast.
  assert (Hf : NoDup (filter
                        (fun k =>
                           negb (match x with
                                 | Some y => Nat.eqb k y
                                 | None => false
                                 end)
                           && N.eqb (readyState env k) 1) (mapKeys cl)))
    by (apply NoDup_filter; assumption).
  revert Hf. generalize (filter
                           (fun k =>
                              negb (match x with
                                    | Some y => Nat.eqb k y
                                    | None => false
                                    end)
                              && N.eqb (readyState env k) 1) (mapKeys cl)).
  intros ks Hks. induction Hks as [|k ks Hnotin Hks IH]; simpl;
    constructor; [|assumption].
  rewrite in_map_iff. intros [k' [[= ->] Hin]]. contradiction.
Qed.

(** X3. In every state a run from the initial state can reach, one call of
    [broadcast] sends the frame to exactly the registered connections whose
    socket is open (and that are not the excluded one), and to each of them
    once. *)
Theorem broadcast_exactly_once
  (tr : list (Env * Input)) (s : State) (out : list Output)
  (env : Env) (f : Frame) (x : option conn) :
  run init tr = Normal (s, out) ->
  NoDup (broadcast env (clients s) f x)
  /\ forall k g,
      In (Send k g) (broadcast env (clients s) f x)
      <-> g = f /\ mapHas (clients s) k = true
          /\ readyState env k = 1%N /\ x <> Some k.
Proof.
  intros Hrun. split.
  - apply NoDup_broadcast.
    assert (HI : Inv s)
      by (apply reachable_Inv; eapply run_reachable;
          [apply reach_init | eassumption]).
    exact (inv_keys HI).
  - intros k g. apply In_broadcast_iff.
Qed.

(** X4. Whatever the event, every roster frame a callback sends lists the
    display names of the registry as the callback leaves it, in registry
    order, and goes to a connection that is in that registry and whose
    socket is open: no roster still shows a connection that has left, none
    misses one that has joined. *)
Theorem roster_frames_current
  (s : State) (env : Env) (i : Input) (s' : State) (out : list Output)
  (k : conn) (l : list jsstring) :
  step s env i = Normal (s', out) ->
  In (Send k (Users l)) out ->
  l = userList (clients s')
  /\ mapHas (clients s') k = true /\ readyState env k = 1%N.
Proof.
  intros Hstep Hin. apply step_Effect in Hstep.
  destruct Hstep as [i| | | |ws raw f Hf| | | | | |]; simpl in Hin.
  - contradiction.
  - destruct Hin as [Hin|[Hin|[]]]; discriminate Hin.
  - contradiction.
  - contradiction.
  - destruct Hin as [[= _ ->]|[]]. contradiction.
  - destruct Hin as [Hin|Hin]; [discriminate Hin|].
    apply in_app_or in Hin. destruct Hin as [Hin|Hin];
      apply In_broadcast_iff in Hin; destruct Hin as [Hg [Hk [Hr _]]];
      [discriminate Hg | inversion Hg; auto].
  - apply In_broadcast_iff in Hin. destruct Hin as [Hg _]. discriminate Hg.
  - apply in_app_or in Hin. destruct Hin as [Hin|Hin];
      apply In_broadcast_iff in Hin; destruct Hin as [Hg [Hk [Hr _]]];
      [discriminate Hg | inversion Hg; auto].
  - apply In_broadcast_iff in Hin. destruct Hin as [Hg _]. discriminate Hg.
  - apply in_app_or in Hin. destruct Hin as [Hin|Hin];
      apply In_broadcast_iff in Hin; destruct Hin as [Hg [Hk [Hr _]]];
      [discriminate Hg | inversion Hg; auto].
  - contradiction.
Qed.

(** X5. The history is replayed to joiners only: a history frame is sent
    only in answer to a frame of type "join" whose requested name is free,
    only to the connection that sent it, and it holds the history as it was
    before that join. *)
Theorem history_frame_only_to_joiner
  (s : State) (env : Env) (i : Input) (s' : State) (out : list Output)
  (k : conn) (l : list HistoryEvent) :
  step s env i = Normal (s', out) ->
  In (Send k (History l)) out ->
  exists msg name,
    i = Message k (Some msg)
    /\ isJoinFrame msg
    /\ joinName msg = Normal name
    /\ taken (clients s) name = false
    /\ l = chatHistory s
    /\ mapGet (clients s') k = Some {| username := name |}.
Proof.
  intros Hstep Hin. apply step_Effect in Hstep.
  destruct Hstep as [i| | | |ws raw f Hf|ws msg name Hj Hname Ht| | | | |];
    simpl in Hin.
  - contradiction.
  - destruct Hin as [Hin|[Hin|[]]]; discriminate Hin.
  - contradiction.
  - contradiction.
  - destruct Hin as [[= _ ->]|[]]. contradiction.
  - destruct Hin as [[= <- <-]|Hin].
    + exists msg, name. simpl. rewrite mapGet_mapSet_same. auto 10.
    + apply in_app_or in Hin. destruct Hin as [Hin|Hin];
        apply In_broadcast_iff in Hin; destruct Hin as [Hg _];
        discriminate Hg.
  - apply In_broadcast_iff in Hin. destruct Hin as [Hg _]. discriminate Hg.
  - apply in_app_or in Hin. destruct Hin as [Hin|Hin];
      apply In_broadcast_iff in Hin; destruct Hin as [Hg _]; discriminate Hg.
  - apply In_broadcast_iff in Hin. destruct Hin as [Hg _]. discriminate Hg.
  - apply in_app_or in Hin. destruct Hin as [Hin|Hin];
      apply In_broadcast_iff in Hin; destruct Hin as [Hg _]; discriminate Hg.
  - contradiction.
Qed.

Lemma pushHistory_last h e : exists h', pushHistory h e = h' ++ [e].
Proof.
  unfold pushHistory.
  destruct (Nat.ltb MAX_HISTORY (length (h ++ [e]))) eqn:Hlt.
  - destruct h as [|x h]; [discriminate Hlt|]. exists h. reflexivity.
  - exists h. reflexivity.
Qed.

(** X6. An event is appended before it is broadcast: when a callback sends
    an event frame, either that frame is the callback's single reply to the
    sender and nothing was recorded, or the event is the newest entry of
    the history the callback leaves, so that a connection joining next
    finds it in its replay. *)
Theorem broadcast_events_are_newest
  (s : State) (env : Env) (i : Input) (s' : State) (out : list Output)
  (k : conn) (e : HistoryEvent) :
  step s env i = Normal (s', out) ->
  In (Send k (Event e)) out ->
  (s' = s /\ out = [Send k (Event e)]
   /\ exists raw, i = Message k raw)
  \/ exists h, chatHistory s' = h ++ [e].
Proof.
  intros Hstep Hin. apply step_Effect in Hstep.
  destruct Hstep as [i| | | |ws raw f Hf| | | | | |]; simpl in Hin.
  - contradiction.
  - destruct Hin as [Hin|[Hin|[]]]; discriminate Hin.
  - contradiction.
  - contradiction.
  - destruct Hin as [[= <- <-]|[]]. left. eauto.
  - right. destruct Hin as [Hin|Hin]; [discriminate Hin|].
    apply in_app_or in Hin. destruct Hin as [Hin|Hin];
      apply In_broadcast_iff in Hin; destruct Hin as [Hg _];
      [|discriminate Hg].
    inversion Hg; subst. simpl. apply pushHistory_last.
  - right. apply In_broadcast_iff in Hin. destruct Hin as [Hg _].
    inversion Hg; subst. simpl. apply pushHistory_last.
  - right. apply in_app_or in Hin. destruct Hin as [Hin|Hin];
      apply In_broadcast_iff in Hin; destruct Hin as [Hg _];
      [|discriminate Hg].
    inversion Hg; subst. simpl. apply pushHistory_last.
  - right. apply In_broadcast_iff in Hin. destruct Hin as [Hg _].
    inversion Hg; subst. simpl. apply pushHistory_last.
  - right. apply in_app_or in Hin. destruct Hin as [Hin|Hin];
      apply In_broadcast_iff in Hin; destruct Hin as [Hg _];
      [|discriminate Hg].
    inversion Hg; subst. simpl. apply pushHistory_last.
  - contradiction.
Qed.

(* ---------------------------------------------------------------- *)
(** ** Joining, leaving, and what comes before *)



(** X8. Of two connections that ask, one after the other, for names that
    are equal up to case, exactly the first gets it: the second join
    changes nothing at all and is answered with a single error frame that
    quotes the rejected name. *)
Theorem same_name_join_one_wins
  (s : State) (env1 env2 : Env) (ws1 ws2 : conn)
  (m1 m2 : json) (n1 n2 : jsstring) :
  mapHas (registered s) ws1 = true ->
  mapHas (registered s) ws2 = true ->
  isJoinFrame m1 -> isJoinFrame m2 ->
  joinName m1 = Normal n1 -> joinName m2 = Normal n2 ->
  toLowerCase n1 = toLowerCase n2 ->
  taken (clients s) n1 = false ->
  exists s1 out1,
    step s env1 (Message ws1 (Some m1)) = Normal (s1, out1)
    /\ mapGet (clients s1) ws1 = Some {| username := n1 |}
    /\ step s1 env2 (Message ws2 (Some m2))
       = Normal (s1, [Send ws2 (Error (lit "Username " ++ [DQUOTE] ++ n2
                                         ++ [DQUOTE]
                                         ++ lit " is already taken."))]).
Proof.
  intros Hh1 Hh2 Hj1 Hj2 Hn1 Hn2 Hlow Hfree.
  rewrite (step_join s env1 ws1 Hh1 Hj1). unfold onJoin at 1.
  rewrite Hn1. unfold bind at 1. rewrite Hfree.
  eexists. eexists. split; [reflexivity|].
  split; [simpl; apply mapGet_mapSet_same|].
  rewrite step_join; [|simpl|assumption].
  - unfold onJoin. rewrite Hn2. unfold bind. cbn [clients].
    assert (Ht : taken (mapSet (clients s) ws1 {| username := n1 |}) n2
                 = true).
    { apply taken_holder. exists ws1, {| username := n1 |}.
      split; [apply mapGet_In, mapGet_mapSet_same | exact Hlow]. }
    rewrite Ht. reflexivity.
  - destruct (Nat.eq_dec ws2 ws1) as [->|Hne].
    + apply mapHas_mapSet_same.
    + rewrite mapHas_mapSet_other by assumption. assumption.
Qed.

Lemma In_mapDelete_key (V : Type) (m : omap V) k k' v' :
  In (k', v') (mapDelete m k) -> k' <> k.
Proof.
  induction m as [|[k0 v0] m IH]; simpl; [tauto|].
  destruct (Nat.eqb_spec k0 k) as [->|Hne]; simpl; [assumption|].
  intros [[= <- _]|Hin]; auto.
Qed.

(** X9. When an active connection closes, in a state a run from the
    initial state can reach, exactly its own registry entry goes: the other
    entries stay as they are, the leave announcement is appended, nothing
    is sent to the closed socket, its listeners are gone, and its display
    name is free again for anybody to take. *)
Theorem close_releases_name
  (tr : list (Env * Input)) (s : State) (out0 : list Output)
  (env : Env) (ws : conn) (p : Participant) :
  run init tr = Normal (s, out0) ->
  mapGet (registered s) ws = Some true ->
  mapGet (clients s) ws = Some p ->
  exists s' out,
    step s env (Close ws) = Normal (s', out)
    /\ clients s' = mapDelete (clients s) ws
    /\ mapHas (clients s') ws = false
    /\ (forall k, k <> ws -> mapGet (clients s') k = mapGet (clients s) k)
    /\ mapHas (registered s') ws = false
    /\ chatHistory s'
       = pushHistory (chatHistory s)
           (SystemEv (username p ++ lit " left the room") (timestamp env))
    /\ (forall f, ~ In (Send ws f) out)
    /\ taken (clients s') (username p) = false.
Proof.
  intros Hrun Hreg Hp.
  assert (HI : Inv s)
    by (apply reachable_Inv; eapply run_reachable;
        [apply reach_init | eassumption]).
  unfold step, mapHas. rewrite Hreg. unfold onClose. rewrite Hreg, Hp.
  unfold bind. cbn [fst snd].
  eexists. eexists. split; [reflexivity|]. cbn.
  split; [reflexivity|].
  split; [apply mapHas_mapDelete_same|].
  split; [intros k Hne; apply mapGet_mapDelete_other; assumption|].
  split; [apply mapHas_mapDelete_same|].
  split; [reflexivity|]. split.
  - intros f Hin. apply in_app_or in Hin.
    destruct Hin as [Hin|Hin]; apply In_broadcast_iff in Hin;
      destruct Hin as [_ [Hk _]]; rewrite mapHas_mapDelete_same in Hk;
      discriminate Hk.
  - apply taken_false. unfold loweredNames, mapValues.
    rewrite map_map, in_map_iff. intros [[k q] [Heq Hin]]. simpl in Heq.
    assert (Hne : k <> ws) by (eapply In_mapDelete_key; eassumption).
    apply In_mapDelete in Hin.
    apply mapGet_In in Hp.
    eapply (NoDup_view_distinct (fun r => toLowerCase (username r)));
      [exact (inv_names HI) | exact Hin | exact Hp | exact Hne | exact Heq].
Qed.

(** X10. No run of well-typed traffic stops the server: starting from the
    initial state, any sequence of connections, closes, token issues,
    unparseable frames and parsed frames that are not [null] and whose
    [username] and [text] fields are absent, falsy or strings runs to
    completion, no handler throwing. *)
Theorem run_completes (tr : list (Env * Input)) :
  (forall env ws msg, In (env, Message ws (Some msg)) tr -> wellTyped msg) ->
  exists s out, run init tr = Normal (s, out).
Proof.
  assert (H : forall tr s, Inv s ->
              (forall env ws msg,
                  In (env, Message ws (Some msg)) tr -> wellTyped msg) ->
              exists s' out, run s tr = Normal (s', out)).
  { clear tr. induction tr as [|[env i] tr IH]; intros s HI Hwt; simpl.
    - eauto.
    - destruct (@step_completes s env i HI) as [[s1 o1] Hs].
      { intros ws msg ->. apply (Hwt env ws msg). left. reflexivity. }
      rewrite Hs. simpl.
      destruct (step_preserves _ _ HI Hs) as [HI1 _].
      destruct (IH s1 HI1) as [s2 [o2 Hr]].
      { intros env' ws msg Hin. apply (Hwt env' ws msg). right. assumption. }
      rewrite Hr. simpl. eauto. }
  intros Hwt. apply H; [apply Inv_init | assumption].
Qed.

Lemma step_sessions_mono s env i s' out t :
  step s env i = Normal (s', out) -> In t (sessions s) -> In t (sessions s').
Proof.
  intros Hstep Hin. apply step_Effect in Hstep.
  destruct Hstep; simpl; auto.
Qed.

(** X11. A token, once issued, is never used up: after any further run,
    with joins, chat, closes and rejected handshakes in it, every new
    connection that presents the token is accepted, silently, and starts
    out unregistered. *)
Theorem issued_token_admits
  (s : State) (env0 : Env) (t : jsstring) (tr : list (Env * Input))
  (s' : State) (out : list Output) (env : Env) (ws : conn) :
  t <> [] ->
  run s ((env0, Auth t) :: tr) = Normal (s', out) ->
  mapHas (registered s') ws = false ->
  step s' env (Connection ws (Some t))
  = Normal (withRegistered s' (mapSet (registered s') ws false), []).
Proof.
  intros Hne Hrun Hfresh.
  assert (Hin : In t (sessions s')).
  { simpl in Hrun.
    destruct (run _ tr) as [[s2 o2]|] eqn:Hr; simpl in Hrun; [|discriminate].
    inversion Hrun; subst.
    revert Hr. apply (run_invariant (fun st => In t (sessions st))).
    - intros s0 e i s1 o Ht Hs. eapply step_sessions_mono; eassumption.
    - simpl. destruct (existsb (str_eqb t) (sessions s)) eqn:He.
      + apply existsb_str_eqb. assumption.
      + apply in_or_app. right. left. reflexivity. }
  unfold step. rewrite Hfresh. unfold onConnection.
  destruct t as [|c t]; [congruence|].
  assert (He : existsb (str_eqb (c :: t)) (sessions s') = true)
    by (apply existsb_str_eqb; assumption).
  rewrite He. reflexivity.
Qed.

(* ---------------------------------------------------------------- *)
(** ** Commands and chat on an active connection *)

Lemma mapKeys_mapSet_present (V : Type) (m : omap V) k v v0 :
  mapGet m k = Some v0 -> mapKeys (mapSet m k v) = mapKeys m.
Proof.
  induction m as [|[k0 w] m IH]; simpl; [discriminate|].
  destruct (Nat.eqb_spec k0 k) as [->|Hne]; simpl; [reflexivity|].
  intros H. f_equal. auto.
Qed.

Lemma mapSet_fresh (V : Type) (m : omap V) k v :
  mapGet m k = None -> mapSet m k v = m ++ [(k, v)].
Proof.
  induction m as [|[k0 w] m IH]; simpl; [reflexivity|].
  destruct (Nat.eqb_spec k0 k) as [->|Hne]; [discriminate|].
  intros H. f_equal. auto.
Qed.

(** X12. A successful [/nick], in a state a run from the initial state can
    reach, renames the sender in place: the registry keeps its connections
    in the same order, every other entry and every connection flag is
    untouched, the rename announcement and then the new roster are
    broadcast to the open sockets of the registry, and the old name is free
    again. *)
Theorem nick_renames_in_place
  (tr : list (Env * Input)) (s : State) (out0 : list Output)
  (env : Env) (ws : conn) (p : Participant) (msg : json) (x : jsstring) :
  run init tr = Normal (s, out0) ->
  mapGet (registered s) ws = Some true ->
  mapGet (clients s) ws = Some p ->
  isChatFrame msg x ->
  startsWithSlash (trim x) = true ->
  toLowerCase (nth 0 (split (slice0 500 (trim x))) []) = lit "/nick" ->
  nickName (split (slice0 500 (trim x))) <> [] ->
  taken (clients s) (nickName (split (slice0 500 (trim x)))) = false ->
  let newName := nickName (split (slice0 500 (trim x))) in
  let nickMsg :=
    SystemEv (username p ++ lit " is now known as " ++ newName)
      (timestamp env) in
  exists s',
    step s env (Message ws (Some msg))
    = Normal (s', broadcast env (clients s') (Event nickMsg) None
                  ++ broadcast env (clients s')
                       (Users (userList (clients s'))) None)
    /\ mapKeys (clients s') = mapKeys (clients s)
    /\ mapGet (clients s') ws = Some {| username := newName |}
    /\ (forall k, k <> ws -> mapGet (clients s') k = mapGet (clients s) k)
    /\ registered s' = registered s
    /\ taken (clients s') (username p) = false.
Proof.
  intros Hrun Hreg Hp Hmsg Hsl Hcmd Hne Hfree newName nickMsg.
  subst newName nickMsg.
  assert (HI : Inv s)
    by (apply reachable_Inv; eapply run_reachable;
        [apply reach_init | eassumption]).
  rewrite (step_chat s env ws Hreg Hmsg).
  destruct (trim x) as [|c r] eqn:Htrim; [discriminate Hsl|].
  rewrite (onChat_command s env ws (c :: r) Hp Hsl).
  rewrite (onCommand_nick s env ws (username p) _ Hcmd).
  unfold onNick.
  destruct (nickName (split (slice0 500 (c :: r)))) as [|n0 nm] eqn:Hnew;
    [contradiction|].
  rewrite Hfree.
  match goal with
  | |- exists s', Normal (?st, _) = _ /\ _ => exists st
  end.
  split; [reflexivity|]. cbn [clients registered].
  split; [eapply mapKeys_mapSet_present; eassumption|].
  split; [apply mapGet_mapSet_same|].
  split; [intros k Hk; apply mapGet_mapSet_other; assumption|].
  split; [reflexivity|].
  apply taken_false. unfold loweredNames, mapValues.
  rewrite map_map, in_map_iff. intros [[k q] [Heq Hin]]. simpl in Heq.
  assert (Hnd : NoDup (mapKeys (mapSet (clients s) ws
                                  {| username := n0 :: nm |})))
    by (apply NoDup_mapKeys_mapSet; exact (inv_keys HI)).
  apply (In_mapGet _ _ _ Hnd) in Hin.
  assert (Hown : In (ws, p) (clients s)) by (apply mapGet_In; assumption).
  destruct (Nat.eq_dec k ws) as [->|Hk].
  - rewrite mapGet_mapSet_same in Hin. inversion Hin; subst q. simpl in Heq.
    apply taken_false in Hfree. apply Hfree.
    unfold loweredNames, mapValues. rewrite map_map, in_map_iff.
    exists (ws, p). split; [symmetry; exact Heq | exact Hown].
  - rewrite mapGet_mapSet_other in Hin by assumption.
    apply mapGet_In in Hin.
    eapply (NoDup_view_distinct (fun r => toLowerCase (username r)));
      [exact (inv_names HI) | exact Hin | exact Hown | exact Hk | exact Heq].
Qed.

(** X13. Only [/me] and a well-formed [/nick] ever reach beyond the sender:
    for any other text that starts with a slash ([/help], [/users],
    [/clear], an unknown command, or a [/nick] whose argument is missing or
    sanitizes to nothing) the state is unchanged and the single frame sent
    goes to the sender, and is an error, a system text or the clear
    instruction. *)
Theorem reply_only_commands
  (s : State) (env : Env) (ws : conn) (p : Participant)
  (msg : json) (x : jsstring) :
  mapGet (registered s) ws = Some true ->
  mapGet (clients s) ws = Some p ->
  isChatFrame msg x ->
  startsWithSlash (trim x) = true ->
  toLowerCase (nth 0 (split (slice0 500 (trim x))) []) <> lit "/me" ->
  (toLowerCase (nth 0 (split (slice0 500 (trim x))) []) = lit "/nick" ->
   nickName (split (slice0 500 (trim x))) = []) ->
  exists f,
    step s env (Message ws (Some msg)) = Normal (s, [Send ws f])
    /\ replyFrame f.
Proof.
  intros Hreg Hp Hmsg Hsl Hme Hnick.
  rewrite (step_chat s env ws Hreg Hmsg).
  destruct (trim x) as [|c r] eqn:Htrim; [discriminate Hsl|].
  rewrite (onChat_command s env ws (c :: r) Hp Hsl).
  unfold onCommand. cbv zeta.
  destruct (str_eqb _ (lit "/help")); [eexists; split; [reflexivity|exact I]|].
  destruct (str_eqb _ (lit "/users")); [eexists; split; [reflexivity|exact I]|].
  destruct (str_eqb _ (lit "/me")) eqn:E;
    [apply str_eqb_eq in E; contradiction|].
  destruct (str_eqb _ (lit "/nick")) eqn:En.
  - apply str_eqb_eq in En. unfold onNick. rewrite (Hnick En).
    eexists; split; [reflexivity|exact I].
  - destruct (str_eqb _ (lit "/clear"));
      eexists; split; try reflexivity; exact I.
Qed.

Lemma filter_id (A : Type) (f : A -> bool) (l : list A) :
  forallb f l = true -> filter f l = l.
Proof.
  induction l as [|a l IH]; simpl; [reflexivity|].
  rewrite andb_true_iff. intros [Ha Hl]. rewrite Ha. f_equal. auto.
Qed.

Lemma sanitize_id (n : jsstring) :
  validName n -> slice0 20 (stripNonName n) = n.
Proof.
  intros [_ [Hlen Hc]]. unfold slice0, stripNonName.
  rewrite filter_id by assumption. apply firstn_all2. assumption.
Qed.

(** X14. Sanitizing is idempotent: a name that already is a sanitized name
    (1 to 20 characters of the allowed set), as every name in a roster is,
    comes back unchanged both from the join sanitizer and from the [/nick]
    sanitizer. *)
Theorem sanitized_name_roundtrip
  (n : jsstring) (msg : json) (cmd : jsstring) (more : list jsstring) :
  validName n ->
  getProp msg (lit "username") = Normal (Some (JStr n)) ->
  joinName msg = Normal n /\ nickName (cmd :: n :: more) = n.
Proof.
  intros Hv Hu. pose proof (sanitize_id Hv) as Hid.
  destruct Hv as [Hne _]. split.
  - destruct n as [|c r]; [contradiction|].
    unfold joinName. rewrite Hu. cbn [bind orElse truthy stringReceiver].
    rewrite Hid. reflexivity.
  - unfold nickName. simpl nth.
    destruct n as [|c r]; [contradiction|]. simpl orStr. exact Hid.
Qed.

(** X15. A first join appends to the roster: when a connection that is not
    in the registry joins under a free name, the registry gains exactly one
    entry, at its end, and every registered connection whose socket is
    open, the joiner included, is sent the join announcement and the roster
    made of the earlier names followed by the new one. *)
Theorem join_extends_roster
  (s : State) (env : Env) (ws : conn) (msg : json) (name : jsstring) :
  mapHas (registered s) ws = true ->
  mapHas (clients s) ws = false ->
  isJoinFrame msg ->
  joinName msg = Normal name ->
  taken (clients s) name = false ->
  exists s' out,
    step s env (Message ws (Some msg)) = Normal (s', out)
    /\ clients s' = clients s ++ [(ws, {| username := name |})]
    /\ userList (clients s') = userList (clients s) ++ [name]
    /\ mapGet (registered s') ws = Some true
    /\ forall k,
        mapHas (clients s') k = true -> readyState env k = 1%N ->
        In (Send k (Event (SystemEv (name ++ lit " joined the room")
                             (timestamp env)))) out
        /\ In (Send k (Users (userList (clients s) ++ [name]))) out.
Proof.
  intros Hh Hnew Hj Hname Hfree.
  rewrite (step_join s env ws Hh Hj). unfold onJoin.
  rewrite Hname. unfold bind. rewrite Hfree.
  apply mapHas_false in Hnew.
  rewrite (mapSet_fresh _ _ _ Hnew).
  assert (Hul : userList (clients s ++ [(ws, {| username := name |})])
                = userList (clients s) ++ [name]).
  { unfold userList, mapValues. rewrite !map_app. reflexivity. }
  eexists. eexists. split; [reflexivity|]. cbn [clients registered].
  split; [reflexivity|]. split; [exact Hul|].
  split; [apply mapGet_mapSet_same|].
  intros k Hk Hr. rewrite Hul. split; right; apply in_or_app.
  - left. apply In_broadcast_iff. repeat split; auto. discriminate.
  - right. apply In_broadcast_iff. repeat split; auto. discriminate.
Qed.

Lemma split_nonempty (s : jsstring) : split s <> [].
Proof.
  destruct s as [|c s]; simpl; [discriminate|].
  destruct (N.eqb c SPACE); [discriminate|].
  destruct (split s); discriminate.
Qed.

(** Splitting at spaces and joining with spaces gives the text back. *)
Lemma join_split (s : jsstring) : join [SPACE] (split s) = s.
Proof.
  induction s as [|c s IH]; simpl; [reflexivity|].
  destruct (N.eqb_spec c SPACE) as [->|Hne].
  - pose proof (split_nonempty s) as Hs.
    destruct (split s) as [|q qs]; [contradiction|].
    simpl in *. rewrite IH. reflexivity.
  - destruct (split s) as [|q qs] eqn:Hs.
    + exfalso. eapply split_nonempty. eassumption.
    + destruct qs as [|q' qs]; simpl in *; rewrite <- IH; reflexivity.
Qed.

Lemma split_token (tok tail : jsstring) :
  forallb (fun c => negb (N.eqb c SPACE)) tok = true ->
  (tail = [] \/ exists rest, tail = SPACE :: rest) ->
  nth 0 (split (tok ++ tail)) [] = tok
  /\ join [SPACE] (tl (split (tok ++ tail))) = tl tail.
Proof.
  intros Htok Htail. induction tok as [|c tok IH]; simpl in *.
  - destruct Htail as [->|[rest ->]]; simpl; [auto|].
    split; [reflexivity | apply join_split].
  - apply andb_true_iff in Htok. destruct Htok as [Hc Htok].
    apply negb_true_iff in Hc. rewrite Hc.
    destruct (IH Htok) as [Hhd Htl].
    destruct (split (tok ++ tail)) as [|q qs]; simpl in *.
    + subst tok. split; [reflexivity | assumption].
    + subst q. split; [reflexivity | assumption].
Qed.

(** X16. [/me] records what the sender typed, verbatim: when the text is a
    token that lower-cases to [/me], alone or followed by a space and the
    rest, an action event whose message is the sender's display name, a
    space and that rest (inner spaces kept as typed; three dots when the
    rest is missing or empty) is appended to the history and broadcast to
    the registry, and nothing else changes. *)
Theorem me_action_verbatim
  (s : State) (env : Env) (ws : conn) (p : Participant)
  (msg : json) (x tok tail : jsstring) :
  mapGet (registered s) ws = Some true ->
  mapGet (clients s) ws = Some p ->
  isChatFrame msg x ->
  slice0 500 (trim x) = tok ++ tail ->
  (tail = [] \/ exists rest, tail = SPACE :: rest) ->
  forallb (fun c => negb (N.eqb c SPACE)) tok = true ->
  startsWithSlash tok = true ->
  toLowerCase tok = lit "/me" ->
  let actionMsg :=
    ActionEv (username p)
      (username p ++ lit " " ++ orStr (tl tail) (lit "..."))
      (timestamp env) in
  step s env (Message ws (Some msg))
  = Normal (withHistory s (pushHistory (chatHistory s) actionMsg),
            broadcast env (clients s) (Event actionMsg) None).
Proof.
  intros Hreg Hp Hmsg Htext Htail Htok Hsl Hlow actionMsg.
  subst actionMsg.
  assert (Hsl' : startsWithSlash (trim x) = true).
  { change 500 with (S 499) in Htext.
    rewrite <- (startsWithSlash_slice0 499), Htext.
    destruct tok as [|c tok]; [discriminate Hsl | exact Hsl]. }
  rewrite (step_chat s env ws Hreg Hmsg).
  destruct (trim x) as [|c r] eqn:Htrim; [discriminate Hsl'|].
  rewrite (onChat_command s env ws (c :: r) Hp Hsl').
  destruct (@split_token tok tail Htok Htail) as [Hhd Htl].
  unfold onCommand. cbv zeta. rewrite Htext, Hhd, Hlow.
  replace (str_eqb (lit "/me") (lit "/help")) with false by reflexivity.
  replace (str_eqb (lit "/me") (lit "/users")) with false by reflexivity.
  replace (str_eqb (lit "/me") (lit "/me")) with true by reflexivity.
  change (lit " ") with [SPACE]. rewrite Htl. reflexivity.
Qed.

(** X17. Plain chat: on an active connection a text that is not blank and
    does not start with a slash is recorded and broadcast as one chat
    event, under the sender's registered display name (not under anything
    the frame says) and with the trimmed text cut to 500 characters, which
    is the whole trimmed text when that is no longer.  Registry, token
    store and connection flags are unchanged, and the sender, when its
    socket is open, is among the receivers. *)
Theorem plain_chat_broadcast
  (s : State) (env : Env) (ws : conn) (p : Participant)
  (msg : json) (x : jsstring) :
  mapGet (registered s) ws = Some true ->
  mapGet (clients s) ws = Some p ->
  isChatFrame msg x ->
  trim x <> [] ->
  startsWithSlash (trim x) = false ->
  let chatMsg :=
    ChatEv (username p) (slice0 500 (trim x)) (timestamp env) in
  step s env (Message ws (Some msg))
  = Normal (withHistory s (pushHistory (chatHistory s) chatMsg),
            broadcast env (clients s) (Event chatMsg) None)
  /\ (length (trim x) <= 500 -> slice0 500 (trim x) = trim x)
  /\ (readyState env ws = 1%N ->
      In (Send ws (Event chatMsg))
        (broadcast env (clients s) (Event chatMsg) None)).
Proof.
  intros Hreg Hp Hmsg Hne Hsl chatMsg. subst chatMsg.
  split; [|split].
  - rewrite (step_chat s env ws Hreg Hmsg).
    destruct (trim x) as [|c r] eqn:Htrim; [contradiction|].
    rewrite (onChat_plain s env ws (c :: r) Hp Hsl). reflexivity.
  - intros Hlen. unfold slice0. apply firstn_all2. assumption.
  - intros Hr. apply In_broadcast_iff.
    split; [reflexivity|]. split; [|split; [assumption | discriminate]].
    unfold mapHas. rewrite Hp. reflexivity.
Qed.

(* ---------------------------------------------------------------- *)
(** ** The HTTP gate *)

Lemma orInvalid_room (g : Gate) (c : completion GateResult) :
  (forall r, c = Normal r -> room (fst (fst r)) = room g) ->
  room (fst (fst (orInvalid g c))) = room g.
Proof. destruct c as [r|]; simpl; auto. Qed.

Lemma onRegister_room L g env req :
  room (fst (fst (onRegister L g env req))) = room g.
Proof.
  unfold onRegister. apply orInvalid_room. intros r.
  destruct (body req) as [obj|]; [|discriminate].
  destruct (fieldString L obj (lit "username")) as [u|]; simpl;
    [|discriminate].
  destruct (fieldString L obj (lit "password")) as [pw|]; simpl;
    [|discriminate].
  repeat match goal with
         | |- context [if ?b then _ else _] => destruct b
         end; intros [= <-]; reflexivity.
Qed.

Lemma onLogin_same L g env req : fst (fst (onLogin L g env req)) = g.
Proof.
  unfold onLogin.
  destruct (body req) as [obj|]; [|reflexivity].
  destruct (fieldString L obj (lit "username")) as [u|]; simpl;
    [|reflexivity].
  destruct (fieldString L obj (lit "password")) as [pw|]; simpl;
    [|reflexivity].
  destruct (isEmpty u || isEmpty pw); [reflexivity|].
  destruct (negb (lookupTruthy (usersGet (users g) u))); [reflexivity|].
  destruct (passwordHashOf (usersGet (users g) u)) as [h|]; simpl;
    [|reflexivity].
  destruct (stringReceiver h) as [hash|]; simpl; [|reflexivity].
  destruct (compareSync L pw hash); reflexivity.
Qed.

(** X18. The gate creates a join token only for a verified bearer: a
    request changes the token store only when it is a [POST /auth] whose
    [authorization] header has the bearer form and whose token [jwt.verify]
    accepts; then exactly one key, the hex form of the fresh random bytes,
    is added and returned with status 200.  No request ever touches the
    registry, the history or the connection flags. *)
Theorem session_needs_verified_bearer
  (L : Libraries) (g : Gate) (env : GateEnv) (req : Request)
  (g' : Gate) (resp : Response) (w : option UserStore) :
  handleRequest L g env req = (g', resp, w) ->
  clients (room g') = clients (room g)
  /\ chatHistory (room g') = chatHistory (room g)
  /\ registered (room g') = registered (room g)
  /\ (sessions (room g') <> sessions (room g) ->
      exists h t,
        method req = lit "POST" /\ url req = lit "/auth"
        /\ authorization req = Some h /\ bearerToken h = Some t
        /\ jwtVerify L (clock env) t = true
        /\ resp = jsonReply 200 (JsonToken (toHex (randomBytes env)))
        /\ sessions (room g')
           = sessions (room g) ++ [toHex (randomBytes env)]).
Proof.
  unfold handleRequest. cbv zeta.
  destruct (str_eqb (method req) (lit "POST")) eqn:Hm; simpl.
  - destruct (str_eqb (url req) (lit "/register")).
    { intros H. pose proof (onRegister_room L g env req) as Hr.
      rewrite H in Hr. simpl in Hr. rewrite Hr.
      repeat split; try reflexivity. intros Hne. contradiction. }
    destruct (str_eqb (url req) (lit "/login")).
    { intros H. pose proof (onLogin_same L g env req) as Hr.
      rewrite H in Hr. simpl in Hr. subst g'.
      repeat split; try reflexivity. intros Hne. contradiction. }
    destruct (str_eqb (url req) (lit "/auth")) eqn:Hu.
    { apply str_eqb_eq in Hm. apply str_eqb_eq in Hu.
      unfold onAuth.
      destruct (authorization req) as [h|] eqn:Hh.
      - destruct (bearerToken (orStr h [])) as [t|] eqn:Hb.
        + assert (Hb' : bearerToken h = Some t).
          { destruct h as [|c h]; [discriminate Hb | exact Hb]. }
          destruct (jwtVerify L (clock env) t) eqn:Hv; simpl.
          * destruct (body req) as [obj|]; simpl.
            -- destruct (fieldString L obj (lit "pcName")) as [pc|]; simpl.
               ++ destruct (isEmpty (slice0 64 pc)).
                  ** intros [= <- <- <-]. repeat split; try reflexivity.
                     intros Hne. contradiction.
                  ** intros [= <- <- <-]. simpl.
                     repeat split; try reflexivity.
                     intros Hne. exists h, t.
                     repeat split; try assumption; try reflexivity.
                     unfold sessionsSet in *.
                     destruct (existsb _ (sessions (room g)));
                       [contradiction | reflexivity].
               ++ intros [= <- <- <-]. repeat split; try reflexivity.
                  intros Hne. contradiction.
            -- intros [= <- <- <-]. repeat split; try reflexivity.
               intros Hne. contradiction.
          * intros [= <- <- <-]. repeat split; try reflexivity.
            intros Hne. contradiction.
        + intros [= <- <- <-]. repeat split; try reflexivity.
          intros Hne. contradiction.
      - simpl. intros [= <- <- <-]. repeat split; try reflexivity.
        intros Hne. contradiction. }
    destruct (str_eqb (url req) (lit "/") || str_eqb (url req) (lit "/index.html"));
      [destruct (indexHtml env)|]; intros [= <- <- <-];
      repeat split; try reflexivity; intros Hne; contradiction.
  - destruct (str_eqb (url req) (lit "/") || str_eqb (url req) (lit "/index.html"));
      [destruct (indexHtml env)|]; intros [= <- <- <-];
      repeat split; try reflexivity; intros Hne; contradiction.
Qed.

Lemma hexOfByte_digits (b : Byte.byte) :
  forallb isHexDigit (hexOfByte b) = true.
Proof. destruct b; reflexivity. Qed.

Lemma toHex_length (bs : list Byte.byte) :
  length (toHex bs) = 2 * length bs.
Proof.
  induction bs as [|b bs IH]; simpl; [reflexivity|]. rewrite IH. lia.
Qed.

Lemma toHex_digits (bs : list Byte.byte) :
  forallb isHexDigit (toHex bs) = true.
Proof.
  induction bs as [|b bs IH]; [reflexivity|].
  change (toHex (b :: bs)) with (hexOfByte b ++ toHex bs).
  rewrite forallb_app, hexOfByte_digits. exact IH.
Qed.

Lemma fieldString_str L obj k x :
  getProp obj k = Normal (Some (JStr x)) -> fieldString L obj k = Normal x.
Proof.
  intros H. unfold fieldString. rewrite H. unfold bind, orElse.
  destruct x as [|c x]; reflexivity.
Qed.

(** X19. A join token issued by the gate opens the socket: a [POST /auth]
    with a verified bearer and a non-empty [pcName] answers 200 with a
    token of two hex digits per random byte, leaves the account store
    alone, and from then on the handshake accepts any new connection that
    presents that token. *)
Theorem join_token_opens_socket
  (L : Libraries) (g : Gate) (env : GateEnv) (req : Request)
  (h t pc : jsstring) (obj : json) :
  method req = lit "POST" -> url req = lit "/auth" ->
  authorization req = Some h -> bearerToken h = Some t ->
  jwtVerify L (clock env) t = true ->
  body req = Some obj ->
  fieldString L obj (lit "pcName") = Normal pc ->
  slice0 64 pc <> [] ->
  randomBytes env <> [] ->
  exists g',
    handleRequest L g env req
    = (g', jsonReply 200 (JsonToken (toHex (randomBytes env))), None)
    /\ users g' = users g
    /\ length (toHex (randomBytes env)) = 2 * length (randomBytes env)
    /\ forallb isHexDigit (toHex (randomBytes env)) = true
    /\ forall e ws,
        mapHas (registered (room g')) ws = false ->
        step (room g') e (Connection ws (Some (toHex (randomBytes env))))
        = Normal (withRegistered (room g')
                    (mapSet (registered (room g')) ws false), []).
Proof.
  intros Hm Hu Hh Hb Hv Hbody Hpc Hne Hbytes.
  unfold handleRequest. cbv zeta. rewrite Hm, Hu.
  replace (str_eqb (lit "POST") (lit "POST")) with true by reflexivity.
  replace (str_eqb (lit "/auth") (lit "/register")) with false by reflexivity.
  replace (str_eqb (lit "/auth") (lit "/login")) with false by reflexivity.
  replace (str_eqb (lit "/auth") (lit "/auth")) with true by reflexivity.
  cbn [andb]. unfold onAuth. rewrite Hh.
  assert (Hb' : bearerToken (orStr h []) = Some t).
  { destruct h as [|c h]; [discriminate Hb | exact Hb]. }
  rewrite Hb', Hv, Hbody. cbn [negb orInvalid]. rewrite Hpc. unfold bind.
  destruct (slice0 64 pc) as [|c0 r0] eqn:Hs; [contradiction|].
  cbn [isEmpty]. eexists. split; [reflexivity|]. cbn [users room].
  split; [reflexivity|]. split; [apply toHex_length|].
  split; [apply toHex_digits|].
  intros e ws Hfresh. cbn [registered withSessions] in Hfresh.
  unfold step. cbn [registered withSessions]. rewrite Hfresh.
  unfold onConnection. cbn [sessions withSessions].
  assert (Hin : existsb (str_eqb (toHex (randomBytes env)))
                  (sessionsSet (sessions (room g))
                     (toHex (randomBytes env))) = true).
  { apply existsb_str_eqb. unfold sessionsSet.
    destruct (existsb _ (sessions (room g))) eqn:He.
    - apply existsb_str_eqb. assumption.
    - apply in_or_app. right. left. reflexivity. }
  assert (Hnz : toHex (randomBytes env) <> []).
  { intros Hz. apply (f_equal (@length _)) in Hz.
    rewrite toHex_length in Hz. simpl in Hz.
    destruct (randomBytes env); [contradiction | discriminate]. }
  destruct (toHex (randomBytes env)) as [|d ds]; [contradiction|].
  rewrite Hin. reflexivity.
Qed.

Lemma ownProperty_app_last k v (u : list (jsstring * json)) :
  ownProperty k (u ++ [(k, v)]) = Some v.
Proof.
  induction u as [|[k0 v0] u IH]; simpl.
  - rewrite str_eqb_refl. reflexivity.
  - rewrite IH. reflexivity.
Qed.

Lemma usersGet_usersSet u name hash :
  usersGet (usersSet u name hash) name
  = Own (JObj [(lit "passwordHash", JStr hash)]).
Proof. unfold usersGet, usersSet. rewrite ownProperty_app_last. reflexivity. Qed.

Lemma handle_register L g env req :
  method req = lit "POST" -> url req = lit "/register" ->
  handleRequest L g env req = onRegister L g env req.
Proof.
  intros Hm Hu. unfold handleRequest. cbv zeta. rewrite Hm, Hu. reflexivity.
Qed.

Lemma handle_login L g env req :
  method req = lit "POST" -> url req = lit "/login" ->
  handleRequest L g env req = onLogin L g env req.
Proof.
  intros Hm Hu. unfold handleRequest. cbv zeta. rewrite Hm, Hu. reflexivity.
Qed.

(** A registration that passes every check. *)
Lemma onRegister_fresh L g env req obj u p :
  body req = Some obj ->
  getProp obj (lit "username") = Normal (Some (JStr u)) ->
  getProp obj (lit "password") = Normal (Some (JStr p)) ->
  slice0 40 (trim u) <> [] -> p <> [] ->
  lookupTruthy (usersGet (users g) (slice0 40 (trim u))) = false ->
  onRegister L g env req
  = let users' :=
      usersSet (users g) (slice0 40 (trim u)) (hashSync L p (salt env)) in
    if writeOk env
    then ({| users := users'; room := room g |}, jsonReply 200 JsonOk,
          Some users')
    else ({| users := users'; room := room g |}, invalidRequest, None).
Proof.
  intros Hbody Hu Hp Hname Hpw Hfree. unfold onRegister.
  rewrite Hbody, (@fieldString_str L _ _ _ Hu), (@fieldString_str L _ _ _ Hp).
  unfold bind. cbv zeta.
  destruct (slice0 40 (trim u)) as [|c r] eqn:Hn; [contradiction|].
  destruct p as [|d q]; [contradiction|]. cbn [isEmpty orb].
  rewrite Hfree. destruct (writeOk env); reflexivity.
Qed.

(** X20. Register, then log in: after a registration that answers 200, a
    login with the stored user name (the submitted one, trimmed and cut to
    40 characters) and the same password answers 200 with a signed token,
    provided [compareSync] accepts a password against its own hash.  The
    registration writes the new store to disk and touches nothing of the
    chat room. *)
Theorem register_then_login
  (L : Libraries) (g : Gate) (env env' : GateEnv) (reg login : Request)
  (obj obj' : json) (u p : jsstring) :
  (forall pw s, compareSync L pw (hashSync L pw s) = true) ->
  method reg = lit "POST" -> url reg = lit "/register" ->
  body reg = Some obj ->
  getProp obj (lit "username") = Normal (Some (JStr u)) ->
  getProp obj (lit "password") = Normal (Some (JStr p)) ->
  slice0 40 (trim u) <> [] -> p <> [] ->
  lookupTruthy (usersGet (users g) (slice0 40 (trim u))) = false ->
  writeOk env = true ->
  method login = lit "POST" -> url login = lit "/login" ->
  body login = Some obj' ->
  getProp obj' (lit "username") = Normal (Some (JStr (slice0 40 (trim u)))) ->
  getProp obj' (lit "password") = Normal (Some (JStr p)) ->
  exists g',
    handleRequest L g env reg = (g', jsonReply 200 JsonOk, Some (users g'))
    /\ room g' = room g
    /\ handleRequest L g' env' login
       = (g', jsonReply 200
                (JsonToken (jwtSign L (clock env') (slice0 40 (trim u)))),
          None).
Proof.
  intros Hbc Hm Hu Hbody Hun Hpw Hname Hp Hfree Hw Hm' Hu' Hbody' Hun' Hpw'.
  rewrite (@handle_register L g env reg Hm Hu).
  rewrite (@onRegister_fresh L g env reg obj u p Hbody Hun Hpw Hname Hp Hfree).
  cbv zeta. rewrite Hw.
  exists {| users := usersSet (users g) (slice0 40 (trim u))
                       (hashSync L p (salt env));
            room := room g |}.
  split; [reflexivity|]. cbn [users room].
  split; [reflexivity|].
  rewrite handle_login by assumption. unfold onLogin.
  rewrite Hbody', (@fieldString_str L _ _ _ Hun'), (@fieldString_str L _ _ _ Hpw').
  unfold bind. cbn [users].
  destruct (slice0 40 (trim u)) as [|c r] eqn:Hn; [contradiction|].
  destruct p as [|d q]; [contradiction|]. cbn [isEmpty orb].
  rewrite usersGet_usersSet. cbn [lookupTruthy truthy negb passwordHashOf].
  replace (getProp (JObj [(lit "passwordHash",
                           JStr (hashSync L (d :: q) (salt env)))])
             (lit "passwordHash"))
    with (Normal (Some (JStr (hashSync L (d :: q) (salt env)))))
    by reflexivity.
  cbn [stringReceiver orInvalid]. rewrite Hbc. reflexivity.
Qed.

Lemma onRegister_held L g env req obj u p :
  body req = Some obj ->
  getProp obj (lit "username") = Normal (Some (JStr u)) ->
  getProp obj (lit "password") = Normal (Some (JStr p)) ->
  slice0 40 (trim u) <> [] -> p <> [] ->
  lookupTruthy (usersGet (users g) (slice0 40 (trim u))) = true ->
  onRegister L g env req
  = (g, jsonReply 409 (JsonError (lit "username exists")), None).
Proof.
  intros Hbody Hu Hp Hname Hpw Hheld. unfold onRegister.
  rewrite Hbody, (@fieldString_str L _ _ _ Hu), (@fieldString_str L _ _ _ Hp).
  unfold bind. cbv zeta.
  destruct (slice0 40 (trim u)) as [|c r] eqn:Hn; [contradiction|].
  destruct p as [|d q]; [contradiction|]. cbn [isEmpty orb].
  rewrite Hheld. reflexivity.
Qed.

(** X21. A user name that is held cannot be registered again: the request
    is answered with 409, the stored password hash stays, and nothing is
    written.  A name is held when the store has a truthy entry for it, and
    also, whatever the store, when it is the name of a member that every
    object inherits, such as [constructor] or [toString]. *)
Theorem register_conflict_keeps_store
  (L : Libraries) (g : Gate) (env : GateEnv) (req : Request)
  (obj : json) (u p : jsstring) :
  method req = lit "POST" -> url req = lit "/register" ->
  body req = Some obj ->
  getProp obj (lit "username") = Normal (Some (JStr u)) ->
  getProp obj (lit "password") = Normal (Some (JStr p)) ->
  slice0 40 (trim u) <> [] -> p <> [] ->
  ((exists v, ownProperty (slice0 40 (trim u)) (users g) = Some v
              /\ truthy (Some v) = true)
   \/ (ownProperty (slice0 40 (trim u)) (users g) = None
       /\ In (slice0 40 (trim u)) objectPrototypeKeys)) ->
  handleRequest L g env req
  = (g, jsonReply 409 (JsonError (lit "username exists")), None).
Proof.
  intros Hm Hu Hbody Hun Hpw Hname Hp Hheld.
  rewrite (@handle_register L g env req Hm Hu).
  apply (@onRegister_held L g env req obj u p); try assumption.
  unfold usersGet. destruct Hheld as [[v [Hown Hv]]|[Hown Hin]].
  - rewrite Hown. exact Hv.
  - rewrite Hown. apply existsb_str_eqb in Hin. rewrite Hin. reflexivity.
Qed.

(** X22. When writing the store to disk fails, the registration is answered
    with the plain 400 of the catch block although the account has been
    created in memory: nothing is reported as written, the chat room is
    untouched, and the same registration sent again is refused with 409. *)
Theorem failed_save_still_registers
  (L : Libraries) (g : Gate) (env env2 : GateEnv) (req : Request)
  (obj : json) (u p : jsstring) :
  method req = lit "POST" -> url req = lit "/register" ->
  body req = Some obj ->
  getProp obj (lit "username") = Normal (Some (JStr u)) ->
  getProp obj (lit "password") = Normal (Some (JStr p)) ->
  slice0 40 (trim u) <> [] -> p <> [] ->
  lookupTruthy (usersGet (users g) (slice0 40 (trim u))) = false ->
  writeOk env = false ->
  exists g',
    handleRequest L g env req = (g', invalidRequest, None)
    /\ room g' = room g
    /\ usersGet (users g') (slice0 40 (trim u))
       = Own (JObj [(lit "passwordHash", JStr (hashSync L p (salt env)))])
    /\ handleRequest L g' env2 req
       = (g', jsonReply 409 (JsonError (lit "username exists")), None).
Proof.
  intros Hm Hu Hbody Hun Hpw Hname Hp Hfree Hw.
  rewrite (@handle_register L g env req Hm Hu).
  rewrite (@onRegister_fresh L g env req obj u p Hbody Hun Hpw Hname Hp Hfree).
  cbv zeta. rewrite Hw.
  exists {| users := usersSet (users g) (slice0 40 (trim u))
                       (hashSync L p (salt env));
            room := room g |}.
  split; [reflexivity|]. cbn [users room]. split; [reflexivity|].
  split; [apply usersGet_usersSet|].
  rewrite handle_register by assumption.
  apply (@onRegister_held L _ env2 req obj u p); try assumption.
  cbn [users]. rewrite usersGet_usersSet. reflexivity.
Qed.

Lemma trimStart_gap (gap : jsstring) c r :
  forallb isWhiteSpace gap = true -> isWhiteSpace c = false ->
  trimStart (gap ++ c :: r) = c :: r.
Proof.
  intros Hg Hc. induction gap as [|d gap IH]; simpl in *.
  - rewrite Hc. reflexivity.
  - apply andb_true_iff in Hg. destruct Hg as [Hd Hg]. rewrite Hd. auto.
Qed.

(** X23. The bearer pattern gives the token back: for the word [Bearer] in
    any mix of upper and lower case, then at least one white-space
    character, then a token that is not empty, does not start with white
    space and holds no line terminator, the match yields exactly that
    token; and an absent or empty header yields no match, so the request is
    answered with 401 and nothing changes. *)
Theorem bearer_roundtrip
  (word gap t : jsstring) :
  asciiToLowerCase word = lit "bearer" ->
  gap <> [] -> forallb isWhiteSpace gap = true ->
  isWhiteSpace (hd 0%N t) = false -> t <> [] ->
  forallb (fun x => negb (isLineTerminator x)) t = true ->
  bearerToken (word ++ gap ++ t) = Some t
  /\ bearerToken [] = None
  /\ forall L g env req,
      method req = lit "POST" -> url req = lit "/auth" ->
      (authorization req = None \/ authorization req = Some []) ->
      handleRequest L g env req
      = (g, jsonReply 401 (JsonError (lit "missing auth token")), None).
Proof.
  intros Hword Hgap Hws Hhd Hne Hlt. split; [|split].
  - assert (Hlen : length word = 6).
    { apply (f_equal (@length _)) in Hword. unfold asciiToLowerCase in Hword.
      rewrite length_map in Hword. exact Hword. }
    assert (Hf : firstn 6 (word ++ gap ++ t) = word).
    { rewrite firstn_app, firstn_all2 by lia.
      replace (6 - length word) with 0 by lia. simpl. apply app_nil_r. }
    assert (Hs : skipn 6 (word ++ gap ++ t) = gap ++ t).
    { rewrite skipn_app, skipn_all2 by lia.
      replace (6 - length word) with 0 by lia. reflexivity. }
    unfold bearerToken. rewrite Hf, Hs, Hword.
    replace (str_eqb (lit "bearer") (lit "bearer")) with true by reflexivity.
    destruct gap as [|d gap]; [contradiction|].
    destruct t as [|c r]; [contradiction|]. simpl in Hhd.
    assert (Ht : trimStart ((d :: gap) ++ c :: r) = c :: r)
      by (apply trimStart_gap; assumption).
    simpl in Hws. apply andb_true_iff in Hws. destruct Hws as [Hd Hws].
    cbn [app] in *. cbv beta iota. rewrite Hd, Ht.
    rewrite Hlt. reflexivity.
  - reflexivity.
  - intros L g env req Hm Hu Hauth.
    unfold handleRequest. cbv zeta. rewrite Hm, Hu.
    replace (str_eqb (lit "POST") (lit "POST")) with true by reflexivity.
    replace (str_eqb (lit "/auth") (lit "/register")) with false
      by reflexivity.
    replace (str_eqb (lit "/auth") (lit "/login")) with false by reflexivity.
    replace (str_eqb (lit "/auth") (lit "/auth")) with true by reflexivity.
    cbn [andb]. unfold onAuth.
    destruct Hauth as [-> | ->]; reflexivity.
Qed.

(** X24. The login endpoint signs a token only for a matching password:
    whatever the request body, a [POST /login] leaves the store and the
    chat room as they are and writes nothing, and when the response carries
    a token, the store has an own entry for the submitted user name whose
    [passwordHash] is a string that [compareSync] accepts for the submitted
    password; the token is the one signed for that user name. *)
Theorem login_token_needs_matching_password
  (L : Libraries) (g : Gate) (env : GateEnv) (req : Request)
  (g' : Gate) (resp : Response) (w : option UserStore) (t : jsstring) :
  method req = lit "POST" -> url req = lit "/login" ->
  handleRequest L g env req = (g', resp, w) ->
  g' = g /\ w = None
  /\ (payload resp = JsonToken t ->
      exists obj name pw v hash,
        body req = Some obj
        /\ fieldString L obj (lit "username") = Normal name
        /\ fieldString L obj (lit "password") = Normal pw
        /\ ownProperty name (users g) = Some v
        /\ getProp v (lit "passwordHash") = Normal (Some (JStr hash))
        /\ compareSync L pw hash = true
        /\ t = jwtSign L (clock env) name).
Proof.
  intros Hm Hu. rewrite (@handle_login L g env req Hm Hu). unfold onLogin.
  destruct (body req) as [obj|];
    [|intros [= <- <- <-]; repeat split; discriminate].
  destruct (fieldString L obj (lit "username")) as [name|] eqn:Hn; simpl;
    [|intros [= <- <- <-]; repeat split; discriminate].
  destruct (fieldString L obj (lit "password")) as [pw|] eqn:Hp; simpl;
    [|intros [= <- <- <-]; repeat split; discriminate].
  destruct (isEmpty name || isEmpty pw);
    [intros [= <- <- <-]; repeat split; discriminate|].
  destruct (lookupTruthy (usersGet (users g) name)) eqn:Hl; simpl;
    [|intros [= <- <- <-]; repeat split; discriminate].
  unfold usersGet in *.
  destruct (ownProperty name (users g)) as [v|] eqn:Hown.
  - simpl. destruct (getProp v (lit "passwordHash")) as [h|] eqn:Hh; simpl;
      [|intros [= <- <- <-]; repeat split; discriminate].
    destruct h as [[| | |hash| |]|]; simpl;
      try (intros [= <- <- <-]; repeat split; discriminate).
    destruct (compareSync L pw hash) eqn:Hc;
      intros [= <- <- <-]; repeat split; try discriminate.
    simpl. intros [= <-]. exists obj, name, pw, v, hash. auto 10.
  - destruct (existsb (str_eqb name) objectPrototypeKeys); simpl;
      intros [= <- <- <-]; repeat split; discriminate.
Qed.

(** X25. A join frame without a usable user name asks for "anon": when the
    [username] field is absent or falsy, or is a string with no allowed
    character in it, the requested name is "anon"; the join succeeds under
    that name if nobody holds it and is refused with the taken error
    otherwise, so at most one anonymous participant is in the room. *)
Theorem join_defaults_to_anon
  (s : State) (env : Env) (ws : conn) (msg : json) (v : value) :
  mapHas (registered s) ws = true ->
  isJoinFrame msg ->
  getProp msg (lit "username") = Normal v ->
  (truthy v = false \/ exists x, v = Some (JStr x) /\ stripNonName x = []) ->
  joinName msg = Normal (lit "anon")
  /\ (taken (clients s) (lit "anon") = true ->
      step s env (Message ws (Some msg))
      = Normal (s, [Send ws (Error (lit "Username " ++ [DQUOTE]
                                      ++ lit "anon" ++ [DQUOTE]
                                      ++ lit " is already taken."))]))
  /\ (taken (clients s) (lit "anon") = false ->
      exists s' out,
        step s env (Message ws (Some msg)) = Normal (s', out)
        /\ mapGet (clients s') ws = Some {| username := lit "anon" |}).
Proof.
  intros Hh Hj Hu Hv.
  assert (Hname : joinName msg = Normal (lit "anon")).
  { unfold joinName. rewrite Hu. unfold bind, orElse.
    destruct Hv as [Hf|[x [-> Hx]]].
    - rewrite Hf. reflexivity.
    - destruct (truthy (Some (JStr x))); simpl; [rewrite Hx|]; reflexivity. }
  split; [exact Hname|].
  rewrite (step_join s env ws Hh Hj). unfold onJoin. rewrite Hname.
  unfold bind. split; intros Ht; rewrite Ht.
  - reflexivity.
  - eexists. eexists. split; [reflexivity|]. simpl.
    apply mapGet_mapSet_same.
Qed.

(** X26. The registry and the connection flags agree along any run from the
    initial state: a connection has a registry entry exactly when its
    [registered] flag is set (so the entry the chat and close handlers
    destructure is always there), and no connection has two entries. *)
Theorem registry_matches_registered_flag
  (tr : list (Env * Input)) (s : State) (out : list Output) (ws : conn) :
  run init tr = Normal (s, out) ->
  (mapHas (clients s) ws = true <-> mapGet (registered s) ws = Some true)
  /\ NoDup (mapKeys (clients s)).
Proof.
  intros Hrun.
  assert (HI : Inv s)
    by (apply reachable_Inv; eapply run_reachable;
        [apply reach_init | eassumption]).
  split; [apply (inv_active HI) | apply (inv_keys HI)].
Qed.

(* ---------------------------------------------------------------- *)
(** ** The buffer and the log of appended events *)

Lemma onCommand_history s env ws p text :
  chatHistory (fst (onCommand s env ws (username p) text))
  = match commandEvent s env p text with
    | Some e => pushHistory (chatHistory s) e
    | None => chatHistory s
    end.
Proof.
  unfold onCommand, commandEvent. cbv zeta.
  remember (toLowerCase (nth 0 (split text) [])) as cmd eqn:Hc. clear Hc.
  destruct (str_eqb cmd (lit "/help")) eqn:E1.
  { apply str_eqb_eq in E1. subst cmd. reflexivity. }
  destruct (str_eqb cmd (lit "/users")) eqn:E2.
  { apply str_eqb_eq in E2. subst cmd. reflexivity. }
  destruct (str_eqb cmd (lit "/me")) eqn:E3; [reflexivity|].
  destruct (str_eqb cmd (lit "/nick")) eqn:E4.
  { unfold onNick. cbv zeta.
    destruct (nickName (split text)) as [|c l]; [reflexivity|].
    destruct (taken (clients s) (c :: l)); reflexivity. }
  destruct (str_eqb cmd (lit "/clear")); reflexivity.
Qed.

(** Every callback changes the buffer by exactly the push of the event it
    appends, and not at all when it appends none. *)
Lemma step_history s env i s' out :
  step s env i = Normal (s', out) ->
  chatHistory s'
  = match appendedEvent s env i with
    | Some e => pushHistory (chatHistory s) e
    | None => chatHistory s
    end.
Proof.
  destruct i as [ws token|ws raw|ws|token].
  - simpl. destruct (mapHas (registered s) ws);
      [intros [= <- <-]; reflexivity|].
    unfold onConnection.
    match goal with |- context [if ?b then _ else _] => destruct b end;
      intros [= <- <-]; reflexivity.
  - destruct raw as [msg|].
    2:{ simpl. destruct (mapHas (registered s) ws);
          intros [= <- <-]; reflexivity. }
    unfold step, appendedEvent.
    destruct (mapHas (registered s) ws) eqn:Hh;
      [|intros [= <- <-]; reflexivity].
    unfold onMessage.
    destruct (getProp msg (lit "type")) as [ty|]; simpl; [|discriminate].
    destruct (strictEqStr ty (lit "join")).
    { unfold onJoin, joinAnnouncement.
      destruct (joinName msg) as [name|]; simpl; [|discriminate].
      destruct (taken (clients s) name); intros [= <- <-]; reflexivity. }
    destruct (mapGet (registered s) ws) as [[|]|] eqn:Hreg.
    + destruct (strictEqStr ty (lit "chat"));
        [|intros [= <- <-]; reflexivity].
      destruct (getProp msg (lit "text")) as [t|]; simpl; [|discriminate].
      destruct (truthy t) eqn:Htr.
      * destruct t as [[| | |x| |]|]; simpl; try discriminate.
        destruct (trim x) as [|c r] eqn:Htrim.
        { intros [= <- <-]. unfold chatEvent. rewrite Htrim.
          destruct (mapGet (clients s) ws); reflexivity. }
        unfold onChat.
        destruct (mapGet (clients s) ws) as [p|]; [|discriminate].
        unfold chatEvent. rewrite Htrim.
        destruct (startsWithSlash (slice0 500 (c :: r))).
        -- pose proof (onCommand_history s env ws p (slice0 500 (c :: r)))
             as Hc.
           destruct (onCommand s env ws (username p) (slice0 500 (c :: r)))
             as [s1 o1].
           simpl in Hc. intros [= <- <-]. exact Hc.
        -- intros [= <- <-]. reflexivity.
      * intros [= <- <-].
        destruct (mapGet (clients s) ws) as [p|]; [|reflexivity].
        destruct t as [[| | |x| |]|]; try reflexivity.
        destruct x as [|c x]; [reflexivity | discriminate Htr].
    + destruct (strictEqStr ty (lit "chat")); intros [= <- <-]; reflexivity.
    + destruct (strictEqStr ty (lit "chat")); intros [= <- <-]; reflexivity.
  - unfold step, appendedEvent.
    destruct (mapHas (registered s) ws) eqn:Hh.
    + unfold onClose.
      destruct (mapGet (registered s) ws) as [[|]|]; simpl.
      * destruct (mapGet (clients s) ws) as [p|]; simpl; [|discriminate].
        intros [= <- <-]. reflexivity.
      * intros [= <- <-]. reflexivity.
      * intros [= <- <-]. reflexivity.
    + apply mapHas_false in Hh. rewrite Hh. intros [= <- <-]. reflexivity.
  - simpl. intros [= <- <-]. reflexivity.
Qed.

(** Along a run the buffer is the fold of the pushes of the logged events. *)
Lemma run_history tr : forall s s' out,
  run s tr = Normal (s', out) ->
  chatHistory s' = fold_left pushHistory (appendLog s tr) (chatHistory s).
Proof.
  induction tr as [|[env i] tr IH]; intros s s' out; simpl.
  - intros [= <- <-]. reflexivity.
  - destruct (step s env i) as [[s1 o1]|] eqn:Hs; simpl; [|discriminate].
    destruct (run s1 tr) as [[s2 o2]|] eqn:Hrun; simpl; [|discriminate].
    intros [= <- <-]. rewrite (IH _ _ _ Hrun).
    rewrite (step_history _ _ _ Hs).
    destruct (appendedEvent s env i); reflexivity.
Qed.

(** C2. The history buffer is a bounded FIFO, and every append of the
    handlers goes through it.  After any run from the initial state the
    buffer holds at most 200 entries; one push keeps the bound; a push onto
    200 entries drops exactly the entry at index 0 and keeps the others in
    order; 201 pushes onto the empty buffer leave the 2nd to 201st.  Each
    of the five appending operations (join, leave and rename announcement,
    [/me] action, plain chat) appends its event, and a callback that
    completes changes the buffer by exactly the push of the event it
    appends: below 200 entries the event is added at the end, at 200 the
    oldest entry goes and the event is added at the end.  So after any run
    from the initial state the buffer is the last 200 events of the log of
    appended events, in order: the whole log when it has at most 200
    events, and the log without its first event when it has 201. *)
Theorem history_bounded_fifo :
  (forall tr s out,
      run init tr = Normal (s, out) -> length (chatHistory s) <= 200)
  /\ (forall h e, length h <= 200 -> length (pushHistory h e) <= 200)
  /\ (forall h e, length h = 200 -> pushHistory h e = tl h ++ [e])
  /\ (forall es, length es = 201 -> fold_left pushHistory es [] = tl es)
  /\ (forall s env i s' out,
         step s env i = Normal (s', out) ->
         chatHistory s'
         = match appendedEvent s env i with
           | Some e => pushHistory (chatHistory s) e
           | None => chatHistory s
           end)
  /\ (forall s env i s' out e,
         step s env i = Normal (s', out) ->
         appendedEvent s env i = Some e ->
         (length (chatHistory s) < 200 ->
          chatHistory s' = chatHistory s ++ [e])
         /\ (length (chatHistory s) = 200 ->
             chatHistory s' = tl (chatHistory s) ++ [e]))
  /\ ((forall s env ws msg name,
          mapHas (registered s) ws = true -> isJoinFrame msg ->
          joinName msg = Normal name -> taken (clients s) name = false ->
          appendedEvent s env (Message ws (Some msg))
          = Some (SystemEv (name ++ lit " joined the room")
                    (timestamp env)))
      /\ (forall s env ws p,
             mapGet (registered s) ws = Some true ->
             mapGet (clients s) ws = Some p ->
             appendedEvent s env (Close ws)
             = Some (SystemEv (username p ++ lit " left the room")
                       (timestamp env)))
      /\ (forall s env ws p msg x,
             mapGet (registered s) ws = Some true ->
             mapGet (clients s) ws = Some p ->
             isChatFrame msg x -> startsWithSlash (trim x) = true ->
             toLowerCase (nth 0 (split (slice0 500 (trim x))) [])
             = lit "/nick" ->
             nickName (split (slice0 500 (trim x))) <> [] ->
             taken (clients s) (nickName (split (slice0 500 (trim x))))
             = false ->
             appendedEvent s env (Message ws (Some msg))
             = Some (SystemEv
                       (username p ++ lit " is now known as "
                          ++ nickName (split (slice0 500 (trim x))))
                       (timestamp env)))
      /\ (forall s env ws p msg x,
             mapGet (registered s) ws = Some true ->
             mapGet (clients s) ws = Some p ->
             isChatFrame msg x -> startsWithSlash (trim x) = true ->
             toLowerCase (nth 0 (split (slice0 500 (trim x))) [])
             = lit "/me" ->
             appendedEvent s env (Message ws (Some msg))
             = Some (ActionEv (username p)
                       (username p ++ lit " "
                          ++ orStr (join (lit " ")
                                      (tl (split (slice0 500 (trim x)))))
                               (lit "..."))
                       (timestamp env)))
      /\ (forall s env ws p msg x,
             mapGet (registered s) ws = Some true ->
             mapGet (clients s) ws = Some p ->
             isChatFrame msg x -> trim x <> [] ->
             startsWithSlash (trim x) = false ->
             appendedEvent s env (Message ws (Some msg))
             = Some (ChatEv (username p) (slice0 500 (trim x))
                       (timestamp env))))
  /\ (forall tr s out,
         run init tr = Normal (s, out) ->
         chatHistory s
         = skipn (length (appendLog init tr) - 200) (appendLog init tr)
         /\ (length (appendLog init tr) <= 200 ->
             chatHistory s = appendLog init tr)
         /\ (length (appendLog init tr) = 201 ->
             chatHistory s = tl (appendLog init tr))).
Proof.
  assert (Hchat : forall s env ws p msg x,
             mapGet (registered s) ws = Some true ->
             mapGet (clients s) ws = Some p ->
             isChatFrame msg x -> trim x <> [] ->
             appendedEvent s env (Message ws (Some msg))
             = if startsWithSlash (trim x)
               then commandEvent s env p (slice0 500 (trim x))
               else Some (ChatEv (username p) (slice0 500 (trim x))
                            (timestamp env))).
  { intros s env ws p msg x Hreg Hp [Hty Htx] Hne.
    unfold appendedEvent, mapHas. rewrite Hreg, Hty.
    replace (strictEqStr (Some (JStr (lit "chat"))) (lit "join")) with false
      by reflexivity.
    replace (strictEqStr (Some (JStr (lit "chat"))) (lit "chat")) with true
      by reflexivity.
    rewrite Hp, Htx. unfold chatEvent.
    destruct (trim x) as [|c r] eqn:Htrim; [contradiction|].
    change 500 with (S 499) at 1. rewrite startsWithSlash_slice0.
    reflexivity. }
  split; [|split; [|split; [|split; [|split; [|split; [|split]]]]]].
  - intros tr s out Hrun.
    apply (@inv_history s). apply reachable_Inv.
    eapply run_reachable; [apply reach_init | eassumption].
  - intros h e. apply pushHistory_length.
  - intros h e. apply pushHistory_full.
  - intros es Hlen. rewrite fold_pushHistory by (simpl; lia).
    simpl app. rewrite Hlen.
    destruct es as [|x es]; [discriminate Hlen | reflexivity].
  - apply step_history.
  - intros s env i s' out e Hstep He.
    rewrite (step_history _ _ _ Hstep), He. split; intros Hlen.
    + apply pushHistory_room. exact Hlen.
    + apply pushHistory_full. exact Hlen.
  - split; [|split; [|split; [|split]]].
    + intros s env ws msg name Hh Hj Hname Hfree.
      unfold appendedEvent. rewrite Hh, Hj.
      replace (strictEqStr (Some (JStr (lit "join"))) (lit "join")) with true
        by reflexivity.
      unfold joinAnnouncement. rewrite Hname, Hfree. reflexivity.
    + intros s env ws p Hreg Hp. unfold appendedEvent.
      rewrite Hreg, Hp. reflexivity.
    + intros s env ws p msg x Hreg Hp Hmsg Hsl Hcmd Hne Hfree.
      assert (Hnb : trim x <> [])
        by (intros Hz; rewrite Hz in Hsl; discriminate Hsl).
      rewrite (Hchat s env ws p msg x Hreg Hp Hmsg Hnb), Hsl.
      unfold commandEvent. cbv zeta. rewrite Hcmd.
      replace (str_eqb (lit "/nick") (lit "/me")) with false by reflexivity.
      replace (str_eqb (lit "/nick") (lit "/nick")) with true by reflexivity.
      destruct (nickName (split (slice0 500 (trim x)))) as [|c r];
        [contradiction|].
      rewrite Hfree. reflexivity.
    + intros s env ws p msg x Hreg Hp Hmsg Hsl Hcmd.
      assert (Hnb : trim x <> [])
        by (intros Hz; rewrite Hz in Hsl; discriminate Hsl).
      rewrite (Hchat s env ws p msg x Hreg Hp Hmsg Hnb), Hsl.
      unfold commandEvent. cbv zeta. rewrite Hcmd. reflexivity.
    + intros s env ws p msg x Hreg Hp Hmsg Hnb Hsl.
      rewrite (Hchat s env ws p msg x Hreg Hp Hmsg Hnb), Hsl. reflexivity.
  - intros tr s out Hrun.
    assert (Hfold : chatHistory s
                    = skipn (length (appendLog init tr) - 200)
                        (appendLog init tr)).
    { rewrite (run_history _ _ Hrun).
      rewrite fold_pushHistory by (simpl; lia). reflexivity. }
    split; [exact Hfold|]. split; intros Hlen; rewrite Hfold.
    + replace (length (appendLog init tr) - 200) with 0 by lia. reflexivity.
    + rewrite Hlen.
      destruct (appendLog init tr) as [|e es]; [discriminate Hlen|].
      reflexivity.
Qed.

End Server.

(* ------------------------------------------------------------------ *)
(** * Runs on the sample inputs

    The names that reach the registry are ASCII, so the built-in
    [toLowerCase] is instantiated with [asciiToLowerCase]. *)

Lemma aliceJoins_run :
  run asciiToLowerCase init aliceJoins
  = Normal (aliceOnline,
            [Send 1 (History []);
             Send 1 (Event (SystemEv (lit "alice joined the room")
                              (lit "12:00:00")));
             Send 1 (Users [lit "alice"])]).
Proof. reflexivity. Qed.

Lemma bobConnected_run :
  run asciiToLowerCase aliceOnline [(env0, Connection 2 (Some tok0))]
  = Normal (bobConnected, []).
Proof. reflexivity. Qed.

Lemma bothOnline_run :
  exists out,
    run asciiToLowerCase init (aliceJoins ++ bobJoins)
    = Normal (bothOnline, out).
Proof. eexists. reflexivity. Qed.

Lemma displayName_unique_invariant_witness :
  asciiToLowerCase (username {| username := lit "alice" |})
  <> asciiToLowerCase (username {| username := lit "bob" |}).
Proof.
  apply (@displayName_unique_invariant asciiToLowerCase
           (aliceJoins ++ bobJoins) bothOnline
           [Send 1 (History []);
            Send 1 (Event (SystemEv (lit "alice joined the room")
                             (lit "12:00:00")));
            Send 1 (Users [lit "alice"]);
            Send 2 (History [SystemEv (lit "alice joined the room")
                               (lit "12:00:00")]);
            Send 1 (Event (SystemEv (lit "bob joined the room")
                             (lit "12:00:00")));
            Send 2 (Event (SystemEv (lit "bob joined the room")
                             (lit "12:00:00")));
            Send 1 (Users [lit "alice"; lit "bob"]);
            Send 2 (Users [lit "alice"; lit "bob"])]
           1 2).
  - reflexivity.
  - simpl. left. reflexivity.
  - simpl. right. left. reflexivity.
  - discriminate.
Defined.

Lemma history_bounded_fifo_witness :
  length (chatHistory bothOnline) <= 200
  /\ length (pushHistory (map tick (seq 0 200)) (tick 200)) <= 200
  /\ pushHistory (map tick (seq 0 200)) (tick 200)
     = tl (map tick (seq 0 200)) ++ [tick 200]
  /\ fold_left pushHistory (map tick (seq 0 201)) []
     = tl (map tick (seq 0 201))
  /\ (exists s' out,
         step asciiToLowerCase aliceOnline env0
           (Message 1 (Some (chatFrame (lit "hello"))))
         = Normal (s', out)
         /\ chatHistory s'
            = pushHistory (chatHistory aliceOnline)
                (ChatEv (lit "alice") (lit "hello") (lit "12:00:00"))
         /\ chatHistory s'
            = chatHistory aliceOnline
                ++ [ChatEv (lit "alice") (lit "hello") (lit "12:00:00")])
  /\ (appendedEvent asciiToLowerCase bobConnected env0
        (Message 2 (Some (joinFrame (lit "bob"))))
      = Some (SystemEv (lit "bob joined the room") (lit "12:00:00"))
      /\ appendedEvent asciiToLowerCase bothOnline env0 (Close 2)
         = Some (SystemEv (lit "bob left the room") (lit "12:00:00"))
      /\ appendedEvent asciiToLowerCase aliceOnline env0
           (Message 1 (Some (chatFrame (lit "/nick carol"))))
         = Some (SystemEv (lit "alice is now known as carol")
                   (lit "12:00:00"))
      /\ appendedEvent asciiToLowerCase aliceOnline env0
           (Message 1 (Some (chatFrame (lit "/me waves"))))
         = Some (ActionEv (lit "alice") (lit "alice waves") (lit "12:00:00"))
      /\ appendedEvent asciiToLowerCase aliceOnline env0
           (Message 1 (Some (chatFrame (lit "hello"))))
         = Some (ChatEv (lit "alice") (lit "hello") (lit "12:00:00")))
  /\ (exists s out,
         run asciiToLowerCase init chatBurst = Normal (s, out)
         /\ length (appendLog asciiToLowerCase init chatBurst) = 201
         /\ hd_error (appendLog asciiToLowerCase init chatBurst)
            = Some (SystemEv (lit "alice joined the room") (lit "12:00:00"))
         /\ chatHistory s = tl (appendLog asciiToLowerCase init chatBurst)
         /\ chatHistory s
            = map (fun n => ChatEv (lit "alice") (numberToString n)
                              (lit "12:00:00"))
                (seq 1 200)).
Proof.
  destruct (history_bounded_fifo asciiToLowerCase)
    as (H1 & H2 & H3 & H4 & H5 & H6 & (J1 & J2 & J3 & J4 & J5) & H8).
  split; [|split; [|split; [|split; [|split; [|split]]]]].
  - eapply (H1 (aliceJoins ++ bobJoins)). reflexivity.
  - apply H2. rewrite length_map, length_seq. apply le_n.
  - apply H3. reflexivity.
  - apply H4. reflexivity.
  - destruct (step asciiToLowerCase aliceOnline env0
                (Message 1 (Some (chatFrame (lit "hello")))))
      as [[s' out]|] eqn:Hstep; [|discriminate Hstep].
    exists s', out. split; [reflexivity|]. split.
    + exact (H5 _ _ _ _ _ Hstep).
    + refine (proj1 (H6 _ _ _ _ _ _ Hstep _) _).
      * vm_compute. reflexivity.
      * simpl. lia.
  - split; [|split; [|split; [|split]]].
    + apply (J1 bobConnected env0 2 (joinFrame (lit "bob")) (lit "bob"));
        reflexivity.
    + apply (J2 bothOnline env0 2 {| username := lit "bob" |}); reflexivity.
    + apply (J3 aliceOnline env0 1 {| username := lit "alice" |}
               (chatFrame (lit "/nick carol")) (lit "/nick carol"));
        try reflexivity.
      * split; reflexivity.
      * vm_compute. discriminate.
    + apply (J4 aliceOnline env0 1 {| username := lit "alice" |}
               (chatFrame (lit "/me waves")) (lit "/me waves"));
        try reflexivity.
      split; reflexivity.
    + apply (J5 aliceOnline env0 1 {| username := lit "alice" |}
               (chatFrame (lit "hello")) (lit "hello"));
        try reflexivity.
      * split; reflexivity.
      * vm_compute. discriminate.
  - destruct (run asciiToLowerCase init chatBurst) as [[s out]|] eqn:Hrun;
      [|vm_compute in Hrun; discriminate Hrun].
    exists s, out. split; [reflexivity|].
    destruct (H8 _ _ _ Hrun) as (_ & _ & Htl).
    assert (Hlen : length (appendLog asciiToLowerCase init chatBurst) = 201)
      by (vm_compute; reflexivity).
    split; [exact Hlen|]. split; [vm_compute; reflexivity|].
    split; [exact (Htl Hlen)|].
    rewrite (Htl Hlen). vm_compute. reflexivity.
Defined.

Lemma join_history_replay_witness :
  exists s' rest,
    step asciiToLowerCase bobConnected env0
      (Message 2 (Some (joinFrame (lit "bob"))))
    = Normal (s', Send 2 (History (chatHistory aliceOnline)) :: rest)
    /\ mapGet (clients s') 2 = Some {| username := lit "bob" |}.
Proof.
  destruct (@join_history_replay asciiToLowerCase
              (chatHistory aliceOnline) bobConnected env0 2
              (joinFrame (lit "bob")) (lit "bob"))
    as (s' & rest & Hstep & _ & Hclient & _).
  - simpl. lia.
  - reflexivity.
  - reflexivity.
  - reflexivity.
  - reflexivity.
  - reflexivity.
  - exists s', rest. split; assumption.
Defined.

(** C4, as stated, fails: alice, alone in the room, asks for [/nick alice]
    (and likewise [/nick Alice]).  Nobody else holds the name, yet the
    taken error is what she gets. *)
Lemma nick_own_name_rejected :
  step asciiToLowerCase aliceOnline env0
    (Message 1 (Some (chatFrame (lit "/nick alice"))))
  = Normal (aliceOnline,
            [Send 1 (Error ([DQUOTE] ++ lit "alice" ++ [DQUOTE]
                              ++ lit " is already taken."))])
  /\ step asciiToLowerCase aliceOnline env0
       (Message 1 (Some (chatFrame (lit "/nick Alice"))))
     = Normal (aliceOnline,
               [Send 1 (Error ([DQUOTE] ++ lit "Alice" ++ [DQUOTE]
                                 ++ lit " is already taken."))])
  /\ ~ (exists ws' p',
           ws' <> 1 /\ In (ws', p') (clients aliceOnline)
           /\ asciiToLowerCase (username p') = asciiToLowerCase (lit "alice")).
Proof.
  split; [reflexivity|]. split; [reflexivity|].
  intros [ws' [p' [Hne [Hin _]]]]. simpl in Hin.
  destruct Hin as [Hin|[]]. inversion Hin. congruence.
Qed.

Lemma nick_taken_iff_held_witness :
  exists s' out,
    step asciiToLowerCase bothOnline env0
      (Message 2 (Some (chatFrame (lit "/nick Alice"))))
    = Normal (s', out)
    /\ s' = bothOnline.
Proof.
  destruct (@nick_taken_iff_held asciiToLowerCase bothOnline env0 2
              {| username := lit "bob" |}
              (chatFrame (lit "/nick Alice")) (lit "/nick Alice"))
    as (s' & out & Hstep & Hiff & Htaken & _).
  - reflexivity.
  - reflexivity.
  - split; reflexivity.
  - reflexivity.
  - reflexivity.
  - discriminate.
  - exists s', out. split; [assumption|].
    apply Htaken. apply Hiff.
    exists 1, {| username := lit "alice" |}.
    split; [left; reflexivity | reflexivity].
Defined.

(** C5, failing input: alice is active on connection 1 and sends a second
    join frame asking for "bob".  The handler runs the join branch again,
    replaces her registry entry by one named "bob", replays the history and
    announces that bob joined; no [/nick] was involved. *)
Lemma second_join_replaces_participant :
  mapGet (clients aliceOnline) 1 = Some {| username := lit "alice" |}
  /\ step asciiToLowerCase aliceOnline env0
       (Message 1 (Some (joinFrame (lit "bob"))))
     = Normal
         ({| clients := [(1, {| username := lit "bob" |})];
             chatHistory :=
               [SystemEv (lit "alice joined the room") (lit "12:00:00");
                SystemEv (lit "bob joined the room") (lit "12:00:00")];
             sessions := [tok0];
             registered := [(1, true)] |},
          [Send 1 (History [SystemEv (lit "alice joined the room")
                              (lit "12:00:00")]);
           Send 1 (Event (SystemEv (lit "bob joined the room")
                            (lit "12:00:00")));
           Send 1 (Users [lit "bob"])]).
Proof. split; reflexivity. Qed.

(** C6, failing inputs: a join frame whose username is the number 123, a
    chat frame on an active connection whose text is the number 123, and
    the frame [null] all parse, and each makes the handler throw an
    exception that nothing catches. *)
Lemma ill_typed_frame_throws :
  step asciiToLowerCase aliceOnline env0
    (Message 1 (Some (JObj [(lit "type", JStr (lit "join"));
                            (lit "username", JNum 123)])))
  = Throw
  /\ step asciiToLowerCase aliceOnline env0
       (Message 1 (Some (JObj [(lit "type", JStr (lit "chat"));
                               (lit "text", JNum 123)])))
     = Throw
  /\ step asciiToLowerCase aliceOnline env0 (Message 1 (Some JNull)) = Throw.
Proof. repeat split; reflexivity. Qed.

Lemma bad_token_rejected_witness :
  step asciiToLowerCase aliceOnline env0 (Connection 2 (Some (lit "guess")))
  = Normal (aliceOnline, [Send 2 (Error authRequired); CloseSocket 2])
  /\ step asciiToLowerCase aliceOnline env0
       (Message 2 (Some (joinFrame (lit "mallory"))))
     = Normal (aliceOnline, [])
  /\ (mapHas (clients aliceOnline) 2 = false
      /\ mapHas (registered aliceOnline) 2 = false)
  /\ sessions bothOnline = sessions bobConnected
  /\ run asciiToLowerCase (withSessions init [tok0])
       [(env0, Connection 1 (Some tok0)); (env0, Connection 2 (Some tok0))]
     = Normal (withRegistered (withSessions init [tok0])
                 [(1, false); (2, false)], []).
Proof.
  destruct (bad_token_rejected asciiToLowerCase)
    as (H1 & H2 & H3 & H4 & H5).
  split; [|split; [|split; [|split]]].
  - apply H1.
    + reflexivity.
    + right. exists (lit "guess"). split; [reflexivity|].
      simpl. intros [H|[]]. discriminate H.
  - apply H2. reflexivity.
  - eapply (H3 aliceJoins init).
    + apply reach_init.
    + reflexivity.
    + repeat constructor; discriminate.
    + reflexivity.
  - eapply (H4 bobConnected env0
              (Message 2 (Some (joinFrame (lit "bob"))))).
    + discriminate.
    + reflexivity.
  - apply (H5 (withSessions init [tok0]) env0 env0 1 2 tok0).
    + left. reflexivity.
    + discriminate.
    + reflexivity.
    + reflexivity.
    + discriminate.
Defined.

Lemma blank_chat_ignored_witness :
  step asciiToLowerCase aliceOnline env0
    (Message 1 (Some (chatFrame (lit "  "))))
  = Normal (aliceOnline, []).
Proof.
  apply (@blank_chat_ignored asciiToLowerCase aliceOnline env0 1
           (chatFrame (lit "  ")) (lit "  ")).
  - split; reflexivity.
  - reflexivity.
Defined.

Lemma slash_text_is_command_witness :
  step asciiToLowerCase aliceOnline env0
    (Message 1 (Some (chatFrame (lit "/Dance now"))))
  = Normal (aliceOnline, [Send 1 (Error (lit "Unknown command: /dance"))]).
Proof.
  destruct (@slash_text_is_command asciiToLowerCase aliceOnline env0 1
              {| username := lit "alice" |}
              (chatFrame (lit "/Dance now")) (lit "/Dance now"))
    as (s' & out & Hstep & _ & _ & Hunknown & _).
  - reflexivity.
  - reflexivity.
  - split; reflexivity.
  - reflexivity.
  - rewrite Hstep. destruct Hunknown as [-> ->]; [|reflexivity].
    intros Hin. vm_compute in Hin.
    repeat (destruct Hin as [Hin|Hin]; [discriminate Hin|]).
    exact Hin.
Defined.

(** C10, as stated, fails: alice sends a chat frame whose trimmed text has
    507 characters and starts with a slash.  Nothing is appended or
    broadcast, and an error frame is what she gets. *)
Lemma long_command_not_chat :
  500 < length (trim longCommand)
  /\ step asciiToLowerCase aliceOnline env0
       (Message 1 (Some (chatFrame longCommand)))
     = Normal (aliceOnline,
               [Send 1 (Error (lit "Unknown command: /shrug"))]).
Proof.
  split.
  - vm_compute. repeat constructor.
  - vm_compute. reflexivity.
Qed.

Lemma long_plain_chat_truncated_witness :
  (length (slice0 500 (trim longChat)) = 500
   /\ step asciiToLowerCase aliceOnline env0
        (Message 1 (Some (chatFrame longChat)))
      = Normal (withHistory aliceOnline
                  (pushHistory (chatHistory aliceOnline)
                     (ChatEv (lit "alice") (slice0 500 (trim longChat))
                        (lit "12:00:00"))),
                broadcast env0 (clients aliceOnline)
                  (Event (ChatEv (lit "alice") (slice0 500 (trim longChat))
                            (lit "12:00:00"))) None))
  /\ Forall (chatTextBounded) (chatHistory aliceOnline).
Proof.
  destruct (long_plain_chat_truncated asciiToLowerCase) as (H1 & H2).
  split.
  - apply (H1 aliceOnline env0 1 {| username := lit "alice" |}
             (chatFrame longChat) longChat).
    + reflexivity.
    + reflexivity.
    + split; reflexivity.
    + vm_compute. repeat constructor.
    + reflexivity.
  - eapply (H2 aliceJoins). reflexivity.
Defined.

(* ------------------------------------------------------------------ *)
(** * The further properties on the sample inputs *)

Lemma registry_names_valid_witness :
  username {| username := lit "alice" |} <> []
  /\ length (username {| username := lit "alice" |}) <= 20
  /\ forallb isNameChar (username {| username := lit "alice" |}) = true.
Proof.
  apply (@registry_names_valid asciiToLowerCase aliceJoins aliceOnline
           [Send 1 (History []);
            Send 1 (Event (SystemEv (lit "alice joined the room")
                             (lit "12:00:00")));
            Send 1 (Users [lit "alice"])]
           1 {| username := lit "alice" |}).
  - reflexivity.
  - left. reflexivity.
Defined.

Lemma history_events_wellformed_witness :
  validName (lit "alice")
  /\ length (lit "hello") <= 500
  /\ exists c r, lit "hello" = c :: r /\ isWhiteSpace c = false
                 /\ N.eqb c SLASH = false.
Proof.
  refine (@history_events_wellformed asciiToLowerCase aliceChats
            (withHistory aliceOnline
               (chatHistory aliceOnline
                  ++ [ChatEv (lit "alice") (lit "hello") (lit "12:00:00")]))
            _ (ChatEv (lit "alice") (lit "hello") (lit "12:00:00")) _ _).
  - reflexivity.
  - right. left. reflexivity.
Defined.

Lemma broadcast_exactly_once_witness :
  NoDup (broadcast env0 (clients bothOnline) Clear None)
  /\ (In (Send 2 Clear) (broadcast env0 (clients bothOnline) Clear None)
      <-> Clear = Clear /\ mapHas (clients bothOnline) 2 = true
          /\ readyState env0 2 = 1%N /\ None <> Some 2).
Proof.
  destruct (@broadcast_exactly_once asciiToLowerCase
              (aliceJoins ++ bobJoins) bothOnline
              [Send 1 (History []);
               Send 1 (Event (SystemEv (lit "alice joined the room")
                                (lit "12:00:00")));
               Send 1 (Users [lit "alice"]);
               Send 2 (History [SystemEv (lit "alice joined the room")
                                  (lit "12:00:00")]);
               Send 1 (Event (SystemEv (lit "bob joined the room")
                                (lit "12:00:00")));
               Send 2 (Event (SystemEv (lit "bob joined the room")
                                (lit "12:00:00")));
               Send 1 (Users [lit "alice"; lit "bob"]);
               Send 2 (Users [lit "alice"; lit "bob"])]
              env0 Clear None) as [Hnd Hiff].
  - reflexivity.
  - split; [exact Hnd | apply Hiff].
Defined.

Lemma roster_frames_current_witness :
  [lit "alice"; lit "bob"] = userList (clients bothOnline)
  /\ mapHas (clients bothOnline) 1 = true /\ readyState env0 1 = 1%N.
Proof.
  refine (@roster_frames_current asciiToLowerCase bobConnected env0
            (Message 2 (Some (joinFrame (lit "bob")))) bothOnline _
            1 [lit "alice"; lit "bob"] _ _).
  - reflexivity.
  - simpl. right. right. right. left. reflexivity.
Defined.

Lemma history_frame_only_to_joiner_witness :
  exists msg name,
    Message 2 (Some (joinFrame (lit "bob"))) = Message 2 (Some msg)
    /\ isJoinFrame msg
    /\ joinName msg = Normal name
    /\ taken asciiToLowerCase (clients bobConnected) name = false
    /\ chatHistory aliceOnline = chatHistory bobConnected
    /\ mapGet (clients bothOnline) 2 = Some {| username := name |}.
Proof.
  refine (@history_frame_only_to_joiner asciiToLowerCase bobConnected env0
            (Message 2 (Some (joinFrame (lit "bob")))) bothOnline _
            2 (chatHistory aliceOnline) _ _).
  - reflexivity.
  - simpl. left. reflexivity.
Defined.

Lemma broadcast_events_are_newest_witness :
  exists h,
    chatHistory bothOnline
    = h ++ [SystemEv (lit "bob joined the room") (lit "12:00:00")].
Proof.
  destruct (@broadcast_events_are_newest asciiToLowerCase bobConnected env0
              (Message 2 (Some (joinFrame (lit "bob")))) bothOnline
              [Send 2 (History [SystemEv (lit "alice joined the room")
                                  (lit "12:00:00")]);
               Send 1 (Event (SystemEv (lit "bob joined the room")
                                (lit "12:00:00")));
               Send 2 (Event (SystemEv (lit "bob joined the room")
                                (lit "12:00:00")));
               Send 1 (Users [lit "alice"; lit "bob"]);
               Send 2 (Users [lit "alice"; lit "bob"])]
              1 (SystemEv (lit "bob joined the room") (lit "12:00:00")))
    as [[Heq _]|H].
  - reflexivity.
  - right. left. reflexivity.
  - discriminate Heq.
  - exact H.
Defined.


Lemma same_name_join_one_wins_witness :
  exists s1 out1,
    step asciiToLowerCase twoPending env0
      (Message 1 (Some (joinFrame (lit "Alice")))) = Normal (s1, out1)
    /\ mapGet (clients s1) 1 = Some {| username := lit "Alice" |}
    /\ step asciiToLowerCase s1 env0
         (Message 2 (Some (joinFrame (lit "alice"))))
       = Normal (s1, [Send 2 (Error (lit "Username " ++ [DQUOTE]
                                       ++ lit "alice" ++ [DQUOTE]
                                       ++ lit " is already taken."))]).
Proof.
  apply (@same_name_join_one_wins asciiToLowerCase twoPending env0 env0 1 2
           (joinFrame (lit "Alice")) (joinFrame (lit "alice"))
           (lit "Alice") (lit "alice")); reflexivity.
Defined.

Lemma close_releases_name_witness :
  exists s' out,
    step asciiToLowerCase aliceOnline env0 (Close 1) = Normal (s', out)
    /\ clients s' = []
    /\ taken asciiToLowerCase (clients s') (lit "alice") = false.
Proof.
  destruct (@close_releases_name asciiToLowerCase aliceJoins aliceOnline
              [Send 1 (History []);
               Send 1 (Event (SystemEv (lit "alice joined the room")
                                (lit "12:00:00")));
               Send 1 (Users [lit "alice"])]
              env0 1 {| username := lit "alice" |})
    as (s' & out & Hstep & Hcl & _ & _ & _ & _ & _ & Hfree).
  - reflexivity.
  - reflexivity.
  - reflexivity.
  - exists s', out. split; [exact Hstep|]. split; [exact Hcl | exact Hfree].
Defined.

Lemma run_completes_witness :
  exists s out,
    run asciiToLowerCase init (aliceJoins ++ bobJoins) = Normal (s, out).
Proof.
  apply (@run_completes asciiToLowerCase (aliceJoins ++ bobJoins)).
  intros env ws msg Hin. simpl in Hin.
  assert (Hj : forall n, wellTyped (joinFrame n)).
  { intros n. split; [discriminate|].
    split; intros v Hv; inversion Hv; subst.
    - right. exists n. reflexivity.
    - left. reflexivity. }
  destruct Hin as [H|[H|[H|[H|[H|[]]]]]]; inversion H; subst; apply Hj.
Defined.

Lemma issued_token_admits_witness :
  step asciiToLowerCase aliceOnline env0 (Connection 2 (Some tok0))
  = Normal (withRegistered aliceOnline
              (mapSet (registered aliceOnline) 2 false), []).
Proof.
  apply (@issued_token_admits asciiToLowerCase init env0 tok0
           [(env0, Connection 1 (Some tok0));
            (env0, Message 1 (Some (joinFrame (lit "alice"))))]
           aliceOnline
           [Send 1 (History []);
            Send 1 (Event (SystemEv (lit "alice joined the room")
                             (lit "12:00:00")));
            Send 1 (Users [lit "alice"])]
           env0 2).
  - discriminate.
  - reflexivity.
  - reflexivity.
Defined.

Lemma nick_renames_in_place_witness :
  exists s',
    mapKeys (clients s') = mapKeys (clients bothOnline)
    /\ mapGet (clients s') 2 = Some {| username := lit "Robert" |}
    /\ mapGet (clients s') 1 = mapGet (clients bothOnline) 1
    /\ taken asciiToLowerCase (clients s') (lit "bob") = false.
Proof.
  destruct (@nick_renames_in_place asciiToLowerCase
              (aliceJoins ++ bobJoins) bothOnline
              [Send 1 (History []);
               Send 1 (Event (SystemEv (lit "alice joined the room")
                                (lit "12:00:00")));
               Send 1 (Users [lit "alice"]);
               Send 2 (History [SystemEv (lit "alice joined the room")
                                  (lit "12:00:00")]);
               Send 1 (Event (SystemEv (lit "bob joined the room")
                                (lit "12:00:00")));
               Send 2 (Event (SystemEv (lit "bob joined the room")
                                (lit "12:00:00")));
               Send 1 (Users [lit "alice"; lit "bob"]);
               Send 2 (Users [lit "alice"; lit "bob"])]
              env0 2 {| username := lit "bob" |}
              (chatFrame (lit "/nick Robert!")) (lit "/nick Robert!"))
    as (s' & _ & Hkeys & Hown & Hother & _ & Hfree).
  - reflexivity.
  - reflexivity.
  - reflexivity.
  - split; reflexivity.
  - reflexivity.
  - reflexivity.
  - discriminate.
  - reflexivity.
  - exists s'. split; [exact Hkeys|]. split; [exact Hown|].
    split; [apply Hother; discriminate | exact Hfree].
Defined.

Lemma reply_only_commands_witness :
  exists f,
    step asciiToLowerCase aliceOnline env0
      (Message 1 (Some (chatFrame (lit "/HELP me")))) 
    = Normal (aliceOnline, [Send 1 f])
    /\ replyFrame f.
Proof.
  apply (@reply_only_commands asciiToLowerCase aliceOnline env0 1
           {| username := lit "alice" |}
           (chatFrame (lit "/HELP me")) (lit "/HELP me")).
  - reflexivity.
  - reflexivity.
  - split; reflexivity.
  - reflexivity.
  - discriminate.
  - discriminate.
Defined.

Lemma sanitized_name_roundtrip_witness :
  joinName (joinFrame (lit "alice_01")) = Normal (lit "alice_01")
  /\ nickName [lit "/nick"; lit "alice_01"] = lit "alice_01".
Proof.
  apply (@sanitized_name_roundtrip (lit "alice_01")
           (joinFrame (lit "alice_01")) (lit "/nick") []).
  - split; [discriminate|]. split; [simpl; lia | reflexivity].
  - reflexivity.
Defined.

Lemma join_extends_roster_witness :
  exists s' out,
    step asciiToLowerCase bobConnected env0
      (Message 2 (Some (joinFrame (lit "bob")))) = Normal (s', out)
    /\ userList (clients s') = [lit "alice"; lit "bob"]
    /\ In (Send 1 (Users [lit "alice"; lit "bob"])) out.
Proof.
  destruct (@join_extends_roster asciiToLowerCase bobConnected env0 2
              (joinFrame (lit "bob")) (lit "bob"))
    as (s' & out & Hstep & Hcl & Hul & _ & Hall).
  - reflexivity.
  - reflexivity.
  - reflexivity.
  - reflexivity.
  - reflexivity.
  - exists s', out. split; [exact Hstep|]. split; [exact Hul|].
    apply (Hall 1); [rewrite Hcl|]; reflexivity.
Defined.

Lemma me_action_verbatim_witness :
  step asciiToLowerCase aliceOnline env0
    (Message 1 (Some (chatFrame (lit "/Me waves  twice"))))
  = Normal (withHistory aliceOnline
              (pushHistory (chatHistory aliceOnline)
                 (ActionEv (lit "alice") (lit "alice waves  twice")
                    (lit "12:00:00"))),
            broadcast env0 (clients aliceOnline)
              (Event (ActionEv (lit "alice") (lit "alice waves  twice")
                        (lit "12:00:00"))) None).
Proof.
  apply (@me_action_verbatim asciiToLowerCase aliceOnline env0 1
           {| username := lit "alice" |}
           (chatFrame (lit "/Me waves  twice")) (lit "/Me waves  twice")
           (lit "/Me") (lit " waves  twice")).
  - reflexivity.
  - reflexivity.
  - split; reflexivity.
  - reflexivity.
  - right. eexists. reflexivity.
  - reflexivity.
  - reflexivity.
  - reflexivity.
Defined.

Lemma plain_chat_broadcast_witness :
  step asciiToLowerCase aliceOnline env0
    (Message 1 (Some (chatFrame (lit "  hello  "))))
  = Normal (withHistory aliceOnline
              (pushHistory (chatHistory aliceOnline)
                 (ChatEv (lit "alice") (lit "hello") (lit "12:00:00"))),
            [Send 1 (Event (ChatEv (lit "alice") (lit "hello")
                              (lit "12:00:00")))]).
Proof.
  apply (@plain_chat_broadcast asciiToLowerCase aliceOnline env0 1
           {| username := lit "alice" |}
           (chatFrame (lit "  hello  ")) (lit "  hello  ")).
  - reflexivity.
  - reflexivity.
  - split; reflexivity.
  - discriminate.
  - reflexivity.
Defined.

Lemma session_needs_verified_bearer_witness :
  exists h t,
    authorization authReq = Some h /\ bearerToken h = Some t
    /\ jwtVerify sampleLib (clock gateEnv0) t = true.
Proof.
  destruct (@session_needs_verified_bearer sampleLib gate0 gateEnv0 authReq
              {| users := [];
                 room := withSessions init
                           [lit "00017f80ff102a3b4c5d6e9aabbccddeeff0"] |}
              (jsonReply 200
                 (JsonToken (lit "00017f80ff102a3b4c5d6e9aabbccddeeff0")))
              None)
    as (_ & _ & _ & H).
  - reflexivity.
  - destruct H as (h & t & _ & _ & Ha & Hb & Hv & _); [discriminate|].
    exists h, t. split; [exact Ha|]. split; [exact Hb | exact Hv].
Defined.

Lemma join_token_opens_socket_witness :
  exists g',
    handleRequest sampleLib gate0 gateEnv0 authReq
    = (g', jsonReply 200
             (JsonToken (lit "00017f80ff102a3b4c5d6e9aabbccddeeff0")), None)
    /\ step asciiToLowerCase (room g') env0
         (Connection 1
            (Some (lit "00017f80ff102a3b4c5d6e9aabbccddeeff0")))
       = Normal (withRegistered (room g')
                   (mapSet (registered (room g')) 1 false), []).
Proof.
  destruct (@join_token_opens_socket asciiToLowerCase sampleLib gate0
              gateEnv0 authReq (lit "Bearer jwt:alice") (lit "jwt:alice")
              (lit "desk-7") (JObj [(lit "pcName", JStr (lit "desk-7"))]))
    as (g' & Hreq & _ & _ & _ & Hopen).
  - reflexivity.
  - reflexivity.
  - reflexivity.
  - reflexivity.
  - reflexivity.
  - reflexivity.
  - reflexivity.
  - discriminate.
  - discriminate.
  - exists g'. split; [exact Hreq|].
    apply Hopen. inversion Hreq. reflexivity.
Defined.

Lemma register_then_login_witness :
  exists g',
    handleRequest sampleLib gate0 gateEnv0
      (registerReq (lit "  alice ") (lit "s3cret"))
    = (g', jsonReply 200 JsonOk, Some (users g'))
    /\ room g' = room gate0
    /\ handleRequest sampleLib g' gateEnv0
         (loginReq (lit "alice") (lit "s3cret"))
       = (g', jsonReply 200 (JsonToken (lit "jwt:alice")), None).
Proof.
  apply (@register_then_login sampleLib gate0 gateEnv0 gateEnv0
           (registerReq (lit "  alice ") (lit "s3cret"))
           (loginReq (lit "alice") (lit "s3cret"))
           (JObj [(lit "username", JStr (lit "  alice "));
                  (lit "password", JStr (lit "s3cret"))])
           (JObj [(lit "username", JStr (lit "alice"));
                  (lit "password", JStr (lit "s3cret"))])
           (lit "  alice ") (lit "s3cret"));
    try reflexivity; try discriminate.
  intros pw s. apply str_eqb_refl.
Defined.

Lemma register_conflict_keeps_store_witness :
  handleRequest sampleLib gate0 gateEnv0
    (registerReq (lit "constructor") (lit "s3cret"))
  = (gate0, jsonReply 409 (JsonError (lit "username exists")), None).
Proof.
  apply (@register_conflict_keeps_store sampleLib gate0 gateEnv0
           (registerReq (lit "constructor") (lit "s3cret"))
           (JObj [(lit "username", JStr (lit "constructor"));
                  (lit "password", JStr (lit "s3cret"))])
           (lit "constructor") (lit "s3cret"));
    try reflexivity; try discriminate.
  right. split; [reflexivity | left; reflexivity].
Defined.

Lemma failed_save_still_registers_witness :
  exists g',
    handleRequest sampleLib gate0 gateEnvDiskFull
      (registerReq (lit "alice") (lit "s3cret"))
    = (g', invalidRequest, None)
    /\ handleRequest sampleLib g' gateEnv0
         (registerReq (lit "alice") (lit "s3cret"))
       = (g', jsonReply 409 (JsonError (lit "username exists")), None).
Proof.
  destruct (@failed_save_still_registers sampleLib gate0 gateEnvDiskFull
              gateEnv0 (registerReq (lit "alice") (lit "s3cret"))
              (JObj [(lit "username", JStr (lit "alice"));
                     (lit "password", JStr (lit "s3cret"))])
              (lit "alice") (lit "s3cret"))
    as (g' & H1 & _ & _ & H2); try reflexivity; try discriminate.
  exists g'. split; assumption.
Defined.

Lemma bearer_roundtrip_witness :
  bearerToken (lit "bEaReR" ++ lit "  " ++ lit "jwt:alice")
  = Some (lit "jwt:alice").
Proof.
  apply (@bearer_roundtrip (lit "bEaReR") (lit "  ") (lit "jwt:alice"));
    try reflexivity; discriminate.
Defined.

Lemma login_token_needs_matching_password_witness :
  {| users := usersSet [] (lit "alice") (lit "s3cret"); room := init |}
  = {| users := usersSet [] (lit "alice") (lit "s3cret"); room := init |}
  /\ @None UserStore = None
  /\ (payload (jsonReply 200 (JsonToken (lit "jwt:alice")))
      = JsonToken (lit "jwt:alice") ->
      exists obj name pw v hash,
        body (loginReq (lit "alice") (lit "s3cret")) = Some obj
        /\ fieldString sampleLib obj (lit "username") = Normal name
        /\ fieldString sampleLib obj (lit "password") = Normal pw
        /\ ownProperty name (usersSet [] (lit "alice") (lit "s3cret"))
           = Some v
        /\ getProp v (lit "passwordHash") = Normal (Some (JStr hash))
        /\ compareSync sampleLib pw hash = true
        /\ lit "jwt:alice" = jwtSign sampleLib (clock gateEnv0) name).
Proof.
  apply (@login_token_needs_matching_password sampleLib
           {| users := usersSet [] (lit "alice") (lit "s3cret");
              room := init |}
           gateEnv0 (loginReq (lit "alice") (lit "s3cret"))).
  - reflexivity.
  - reflexivity.
  - reflexivity.
Defined.

Lemma join_defaults_to_anon_witness :
  joinName (joinFrame (lit "!!!")) = Normal (lit "anon")
  /\ exists s' out,
      step asciiToLowerCase bobConnected env0
        (Message 2 (Some (joinFrame (lit "!!!")))) = Normal (s', out)
      /\ mapGet (clients s') 2 = Some {| username := lit "anon" |}.
Proof.
  destruct (@join_defaults_to_anon asciiToLowerCase bobConnected env0 2
              (joinFrame (lit "!!!")) (Some (JStr (lit "!!!"))))
    as (Hname & _ & Hfree).
  - reflexivity.
  - reflexivity.
  - reflexivity.
  - right. exists (lit "!!!"). split; reflexivity.
  - split; [exact Hname | apply Hfree; reflexivity].
Defined.

Lemma registry_matches_registered_flag_witness :
  (mapHas (clients bothOnline) 2 = true
   <-> mapGet (registered bothOnline) 2 = Some true)
  /\ NoDup (mapKeys (clients bothOnline)).
Proof.
  apply (@registry_matches_registered_flag asciiToLowerCase
           (aliceJoins ++ bobJoins) bothOnline
           [Send 1 (History []);
            Send 1 (Event (SystemEv (lit "alice joined the room")
                             (lit "12:00:00")));
            Send 1 (Users [lit "alice"]);
            Send 2 (History [SystemEv (lit "alice joined the room")
                               (lit "12:00:00")]);
            Send 1 (Event (SystemEv (lit "bob joined the room")
                             (lit "12:00:00")));
            Send 2 (Event (SystemEv (lit "bob joined the room")
                             (lit "12:00:00")));
            Send 1 (Users [lit "alice"; lit "bob"]);
            Send 2 (Users [lit "alice"; lit "bob"])]
           2).
  reflexivity.
Defined.
